(** * Ping-Pong-Game: the support routines of [GameSrc/support.c]

    A shallow embedding of the worker threads of the game (signal
    listener and resize handler, keyboard/pointer input, ball physics,
    AI paddle) over the shared [game_data] structure, and the properties
    of the collision, levelling, clamping and pause logic.

    Conventions.
    - A C [int] is a [Z] in [[int_min, int_max]]; every arithmetic
      operator of the source is the corresponding [int_*] operation
      below, which wraps to 32 bits in two's complement.  (C leaves
      signed overflow undefined; wrapping is what the usual targets do.
      Theorems that read a result as a mathematical integer carry the
      range hypotheses under which no operation overflows.)
    - The macros and the structure come from [support.h], which is not
      part of the sources at hand: the constants are the fields of
      [config], the structure is the record [game_data] with the
      fields the routines access.
    - ncurses drawing calls only touch the screen and are left out;
      what the routines read from the environment (key codes, pointer
      events, the terminal size) is an explicit argument.
    - Each worker is modelled by one iteration of its loop, as a
      function from the shared state to an [outcome], and by the loop
      run on the inputs or for the number of iterations given.  The
      mutex and the sleeps between iterations are not modelled.
    - The paddle range depends on how the statements of the workers
      interleave: for it the keyboard worker, the AI worker and the
      resize handler are also modelled statement by statement, under
      schedules that interleave their steps with the assignments of
      the ball worker.  Reads and writes of the shared fields take
      effect in program order. *)

From Stdlib Require Import Ascii String ZArith List Bool Lia.
Import ListNotations.
Local Open Scope Z_scope.

(** ** C [int] arithmetic *)

Module CInt.

Definition int_min : Z := - 2 ^ 31.
Definition int_max : Z := 2 ^ 31 - 1.

Definition in_int (z : Z) : Prop := int_min <= z <= int_max.

(** Reduction of a mathematical integer to its 32-bit two's
    complement representative. *)
Definition wrap (z : Z) : Z := (z + 2 ^ 31) mod 2 ^ 32 - 2 ^ 31.

Definition int_add (a b : Z) : Z := wrap (a + b).
Definition int_sub (a b : Z) : Z := wrap (a - b).
Definition int_mul (a b : Z) : Z := wrap (a * b).
Definition int_neg (a : Z) : Z := wrap (- a).
(** [/] on [int] truncates toward zero. *)
Definition int_div (a b : Z) : Z := wrap (a ÷ b).
(** [abs] of <stdlib.h>. *)
Definition int_abs (a : Z) : Z := wrap (Z.abs a).

(** Conversion of an [int] to [char] (signed, 8 bits), as in
    [char c; c = getch();]. *)
Definition to_char (z : Z) : Z := (z + 2 ^ 7) mod 2 ^ 8 - 2 ^ 7.

End CInt.
Import CInt.

(** ** Constants of [support.h] *)

Record config : Type := mkConfig {
  PADDLE_WIDTH : Z;
  FIELD_TOP : Z;
  MAX_HITCNT : Z;
  MAX_LEVEL : Z;
  PLAY_KEY : Z;
  QUIT_KEY : Z
}.

(** Key codes of <ncurses.h>. *)
Definition KEY_DOWN : Z := 258.
Definition KEY_UP : Z := 259.
(** The key code that [getch] returns for a pointer event (0631). *)
Definition KEY_MOUSE : Z := 409.
(** The character [' ']. *)
Definition SPACE : Z := 32.

(** The four tags written to the pipe ([KBD_TAG], [AI_TAG], [BALL_TAG],
    [QUIT_TAG]: fixed-size strings in the source). *)
Inductive tag : Type := KBD_TAG | AI_TAG | BALL_TAG | QUIT_TAG.

(** The values stored in [winner], after the comments of [ball_handler]:
    0 when the player wins, 1 when the ai wins. *)
Definition WINNER_HUMAN : Z := 0.
Definition WINNER_AI : Z := 1.

(** ** The shared structure *)

Record game_data : Type := mkGame {
  bottom_row : Z;
  paddle_col : Z;
  ai_paddle_col : Z;
  paddle_pos : Z;
  paddle_pos_old : Z;
  ai_paddle_pos : Z;
  ai_paddle_pos_old : Z;
  ball_x : Z;
  ball_y : Z;
  ball_x_old : Z;
  ball_y_old : Z;
  ball_dirx : Z;
  ball_diry : Z;
  gameLevel : Z;
  hitCnt : Z;
  play_flag : Z;
  exit_flag : Z;
  termination_flag : Z;
  haltFlag : Z;
  winner : Z;
  (** what has been written to [pipedes[1]], oldest first *)
  pipe : list tag
}.

Definition set_bottom_row (v : Z) (d : game_data) : game_data :=
  mkGame v (paddle_col d) (ai_paddle_col d) (paddle_pos d) (paddle_pos_old d)
    (ai_paddle_pos d) (ai_paddle_pos_old d) (ball_x d) (ball_y d) (ball_x_old d)
    (ball_y_old d) (ball_dirx d) (ball_diry d) (gameLevel d) (hitCnt d)
    (play_flag d) (exit_flag d) (termination_flag d) (haltFlag d) (winner d) (pipe d).

Definition set_paddle_col (v : Z) (d : game_data) : game_data :=
  mkGame (bottom_row d) v (ai_paddle_col d) (paddle_pos d) (paddle_pos_old d)
    (ai_paddle_pos d) (ai_paddle_pos_old d) (ball_x d) (ball_y d) (ball_x_old d)
    (ball_y_old d) (ball_dirx d) (ball_diry d) (gameLevel d) (hitCnt d)
    (play_flag d) (exit_flag d) (termination_flag d) (haltFlag d) (winner d) (pipe d).

Definition set_paddle_pos (v : Z) (d : game_data) : game_data :=
  mkGame (bottom_row d) (paddle_col d) (ai_paddle_col d) v (paddle_pos_old d)
    (ai_paddle_pos d) (ai_paddle_pos_old d) (ball_x d) (ball_y d) (ball_x_old d)
    (ball_y_old d) (ball_dirx d) (ball_diry d) (gameLevel d) (hitCnt d)
    (play_flag d) (exit_flag d) (termination_flag d) (haltFlag d) (winner d) (pipe d).

Definition set_paddle_pos_old (v : Z) (d : game_data) : game_data :=
  mkGame (bottom_row d) (paddle_col d) (ai_paddle_col d) (paddle_pos d) v
    (ai_paddle_pos d) (ai_paddle_pos_old d) (ball_x d) (ball_y d) (ball_x_old d)
    (ball_y_old d) (ball_dirx d) (ball_diry d) (gameLevel d) (hitCnt d)
    (play_flag d) (exit_flag d) (termination_flag d) (haltFlag d) (winner d) (pipe d).

Definition set_ai_paddle_pos (v : Z) (d : game_data) : game_data :=
  mkGame (bottom_row d) (paddle_col d) (ai_paddle_col d) (paddle_pos d) (paddle_pos_old d)
    v (ai_paddle_pos_old d) (ball_x d) (ball_y d) (ball_x_old d)
    (ball_y_old d) (ball_dirx d) (ball_diry d) (gameLevel d) (hitCnt d)
    (play_flag d) (exit_flag d) (termination_flag d) (haltFlag d) (winner d) (pipe d).

Definition set_ai_paddle_pos_old (v : Z) (d : game_data) : game_data :=
  mkGame (bottom_row d) (paddle_col d) (ai_paddle_col d) (paddle_pos d) (paddle_pos_old d)
    (ai_paddle_pos d) v (ball_x d) (ball_y d) (ball_x_old d)
    (ball_y_old d) (ball_dirx d) (ball_diry d) (gameLevel d) (hitCnt d)
    (play_flag d) (exit_flag d) (termination_flag d) (haltFlag d) (winner d) (pipe d).

Definition set_ball_x (v : Z) (d : game_data) : game_data :=
  mkGame (bottom_row d) (paddle_col d) (ai_paddle_col d) (paddle_pos d) (paddle_pos_old d)
    (ai_paddle_pos d) (ai_paddle_pos_old d) v (ball_y d) (ball_x_old d)
    (ball_y_old d) (ball_dirx d) (ball_diry d) (gameLevel d) (hitCnt d)
    (play_flag d) (exit_flag d) (termination_flag d) (haltFlag d) (winner d) (pipe d).

Definition set_ball_y (v : Z) (d : game_data) : game_data :=
  mkGame (bottom_row d) (paddle_col d) (ai_paddle_col d) (paddle_pos d) (paddle_pos_old d)
    (ai_paddle_pos d) (ai_paddle_pos_old d) (ball_x d) v (ball_x_old d)
    (ball_y_old d) (ball_dirx d) (ball_diry d) (gameLevel d) (hitCnt d)
    (play_flag d) (exit_flag d) (termination_flag d) (haltFlag d) (winner d) (pipe d).

Definition set_ball_x_old (v : Z) (d : game_data) : game_data :=
  mkGame (bottom_row d) (paddle_col d) (ai_paddle_col d) (paddle_pos d) (paddle_pos_old d)
    (ai_paddle_pos d) (ai_paddle_pos_old d) (ball_x d) (ball_y d) v
    (ball_y_old d) (ball_dirx d) (ball_diry d) (gameLevel d) (hitCnt d)
    (play_flag d) (exit_flag d) (termination_flag d) (haltFlag d) (winner d) (pipe d).

Definition set_ball_y_old (v : Z) (d : game_data) : game_data :=
  mkGame (bottom_row d) (paddle_col d) (ai_paddle_col d) (paddle_pos d) (paddle_pos_old d)
    (ai_paddle_pos d) (ai_paddle_pos_old d) (ball_x d) (ball_y d) (ball_x_old d)
    v (ball_dirx d) (ball_diry d) (gameLevel d) (hitCnt d)
    (play_flag d) (exit_flag d) (termination_flag d) (haltFlag d) (winner d) (pipe d).

Definition set_ball_dirx (v : Z) (d : game_data) : game_data :=
  mkGame (bottom_row d) (paddle_col d) (ai_paddle_col d) (paddle_pos d) (paddle_pos_old d)
    (ai_paddle_pos d) (ai_paddle_pos_old d) (ball_x d) (ball_y d) (ball_x_old d)
    (ball_y_old d) v (ball_diry d) (gameLevel d) (hitCnt d)
    (play_flag d) (exit_flag d) (termination_flag d) (haltFlag d) (winner d) (pipe d).

Definition set_ball_diry (v : Z) (d : game_data) : game_data :=
  mkGame (bottom_row d) (paddle_col d) (ai_paddle_col d) (paddle_pos d) (paddle_pos_old d)
    (ai_paddle_pos d) (ai_paddle_pos_old d) (ball_x d) (ball_y d) (ball_x_old d)
    (ball_y_old d) (ball_dirx d) v (gameLevel d) (hitCnt d)
    (play_flag d) (exit_flag d) (termination_flag d) (haltFlag d) (winner d) (pipe d).

Definition set_gameLevel (v : Z) (d : game_data) : game_data :=
  mkGame (bottom_row d) (paddle_col d) (ai_paddle_col d) (paddle_pos d) (paddle_pos_old d)
    (ai_paddle_pos d) (ai_paddle_pos_old d) (ball_x d) (ball_y d) (ball_x_old d)
    (ball_y_old d) (ball_dirx d) (ball_diry d) v (hitCnt d)
    (play_flag d) (exit_flag d) (termination_flag d) (haltFlag d) (winner d) (pipe d).

Definition set_hitCnt (v : Z) (d : game_data) : game_data :=
  mkGame (bottom_row d) (paddle_col d) (ai_paddle_col d) (paddle_pos d) (paddle_pos_old d)
    (ai_paddle_pos d) (ai_paddle_pos_old d) (ball_x d) (ball_y d) (ball_x_old d)
    (ball_y_old d) (ball_dirx d) (ball_diry d) (gameLevel d) v
    (play_flag d) (exit_flag d) (termination_flag d) (haltFlag d) (winner d) (pipe d).

Definition set_play_flag (v : Z) (d : game_data) : game_data :=
  mkGame (bottom_row d) (paddle_col d) (ai_paddle_col d) (paddle_pos d) (paddle_pos_old d)
    (ai_paddle_pos d) (ai_paddle_pos_old d) (ball_x d) (ball_y d) (ball_x_old d)
    (ball_y_old d) (ball_dirx d) (ball_diry d) (gameLevel d) (hitCnt d)
    v (exit_flag d) (termination_flag d) (haltFlag d) (winner d) (pipe d).

Definition set_exit_flag (v : Z) (d : game_data) : game_data :=
  mkGame (bottom_row d) (paddle_col d) (ai_paddle_col d) (paddle_pos d) (paddle_pos_old d)
    (ai_paddle_pos d) (ai_paddle_pos_old d) (ball_x d) (ball_y d) (ball_x_old d)
    (ball_y_old d) (ball_dirx d) (ball_diry d) (gameLevel d) (hitCnt d)
    (play_flag d) v (termination_flag d) (haltFlag d) (winner d) (pipe d).

Definition set_haltFlag (v : Z) (d : game_data) : game_data :=
  mkGame (bottom_row d) (paddle_col d) (ai_paddle_col d) (paddle_pos d) (paddle_pos_old d)
    (ai_paddle_pos d) (ai_paddle_pos_old d) (ball_x d) (ball_y d) (ball_x_old d)
    (ball_y_old d) (ball_dirx d) (ball_diry d) (gameLevel d) (hitCnt d)
    (play_flag d) (exit_flag d) (termination_flag d) v (winner d) (pipe d).

Definition set_winner (v : Z) (d : game_data) : game_data :=
  mkGame (bottom_row d) (paddle_col d) (ai_paddle_col d) (paddle_pos d) (paddle_pos_old d)
    (ai_paddle_pos d) (ai_paddle_pos_old d) (ball_x d) (ball_y d) (ball_x_old d)
    (ball_y_old d) (ball_dirx d) (ball_diry d) (gameLevel d) (hitCnt d)
    (play_flag d) (exit_flag d) (termination_flag d) (haltFlag d) v (pipe d).

(** [write(data->pipedes[1], t, TAG_SIZE)] *)
Definition write_tag (t : tag) (d : game_data) : game_data :=
  mkGame (bottom_row d) (paddle_col d) (ai_paddle_col d) (paddle_pos d) (paddle_pos_old d)
    (ai_paddle_pos d) (ai_paddle_pos_old d) (ball_x d) (ball_y d) (ball_x_old d)
    (ball_y_old d) (ball_dirx d) (ball_diry d) (gameLevel d) (hitCnt d)
    (play_flag d) (exit_flag d) (termination_flag d) (haltFlag d) (winner d)
    (pipe d ++ [t]).

(** ** Control flow of a worker iteration *)

(** How a piece of a thread routine ends: control goes on to the next
    statement with a value, the routine returns, the process exits
    (through [termination_handler]), [getch] has no key to deliver yet,
    or the worker is busy-waiting in [while(data->haltFlag != 0);].
    The last two carry the shared state as the other threads see it. *)
Inductive outcome (A : Type) : Type :=
| Next (a : A)
| Returned (d : game_data)
| Exited
| Blocked (d : game_data)
| Spinning (d : game_data).

Arguments Next {A} a.
Arguments Returned {A} d.
Arguments Exited {A}.
Arguments Blocked {A} d.
Arguments Spinning {A} d.

Definition bind {A B : Type} (o : outcome A) (k : A -> outcome B) : outcome B :=
  match o with
  | Next a => k a
  | Returned d => Returned d
  | Exited => Exited
  | Blocked d => Blocked d
  | Spinning d => Spinning d
  end.

Notation "x <- c1 ;; c2" := (bind c1 (fun x => c2))
  (at level 61, c1 at next level, right associativity).
Notation "' pat <- c1 ;; c2" := (bind c1 (fun x => match x with pat => c2 end))
  (at level 61, pat pattern, c1 at next level, right associativity).

(** The shared state an iteration leaves behind, if the process is
    still there. *)
Definition state_after {A : Type} (proj : A -> game_data) (o : outcome A)
  : option game_data :=
  match o with
  | Next a => Some (proj a)
  | Returned d | Blocked d | Spinning d => Some d
  | Exited => None
  end.

(** What [getch] and [getmouse] deliver to one iteration of the
    keyboard worker: the key code, and the row of the pointer event
    when [getmouse(&event) == OK]. *)
Record input : Type := mkInput {
  in_key : Z;
  in_pointer : option Z
}.

Inductive signal : Type := SIGKILL | SIGTERM | SIGINT | SIGWINCH | SIGOTHER.

(** Modelled from the spec: the macro [MAX] of [support.h], which is
    not among the sources; the larger of its two arguments ("pin it to
    max(bottom_row - PADDLE_WIDTH/2, PADDLE_WIDTH/2)"). *)
Definition MAX (a b : Z) : Z := Z.max a b.

Section Workers.

Variable cfg : config.

(** [PADDLE_WIDTH / 2] *)
Definition half_width : Z := PADDLE_WIDTH cfg ÷ 2.

(** *** [resize_handler] *)

(** [maxy] and [maxx] are [getmaxy(stdscr)] and [getmaxx(stdscr)] after
    the window has been resized. *)
Definition clamp_paddle (d : game_data) : game_data :=
  if paddle_pos d >? int_sub (bottom_row d) half_width
  then set_paddle_pos (MAX (int_sub (bottom_row d) half_width) half_width) d
  else d.

Definition clamp_ai_paddle (d : game_data) : game_data :=
  if ai_paddle_pos d >? int_sub (bottom_row d) half_width
  then set_ai_paddle_pos (MAX (int_sub (bottom_row d) half_width) half_width) d
  else d.

Definition clamp_ball_row (d : game_data) : game_data :=
  if ball_y d >? bottom_row d then set_ball_y (bottom_row d) d else d.

Definition recentre_ball (maxx : Z) (d : game_data) : game_data :=
  if ball_x d >? maxx then set_ball_y (int_div maxx 2) d else d.

Definition resize_handler (maxy maxx : Z) (d : game_data) : game_data :=
  let d := set_bottom_row (int_sub maxy 1) d in
  let d := set_paddle_col (int_sub maxx 1) d in
  let d := clamp_paddle d in
  let d := clamp_ai_paddle d in
  let d := clamp_ball_row d in
  recentre_ball maxx d.

(** *** [signal_listener], one iteration *)

Definition signal_iter (sig : signal) (maxy maxx : Z) (d : game_data)
  : outcome game_data :=
  match sig with
  | SIGKILL | SIGTERM | SIGINT => Exited
  | SIGWINCH => Next (resize_handler maxy maxx d)
  | SIGOTHER => Next d
  end.

(** [signal_listener] on the signals delivered, each with the terminal
    size at that moment. *)
Fixpoint signal_listener (sigs : list (signal * Z * Z)) (d : game_data)
  : outcome game_data :=
  match sigs with
  | [] => Next d
  | (sig, maxy, maxx) :: rest =>
      d <- signal_iter sig maxy maxx d ;; signal_listener rest d
  end.

(** *** [keyboard_handler] *)

(** The [switch (ch)]; its [case] labels are pairwise distinct
    constants, tested here in the order of the source. *)
Definition dispatch_key (i : input) (d : game_data) : game_data :=
  let ch := in_key i in
  if ch =? KEY_UP then
    let d := set_paddle_pos_old (paddle_pos d) d in
    let d := if paddle_pos d >? half_width
             then set_paddle_pos (int_sub (paddle_pos d) 1) d else d in
    write_tag KBD_TAG d
  else if ch =? KEY_DOWN then
    let d := set_paddle_pos_old (paddle_pos d) d in
    let d := if paddle_pos d <? int_sub (bottom_row d) half_width
             then set_paddle_pos (int_add (paddle_pos d) 1) d else d in
    write_tag KBD_TAG d
  else if ch =? PLAY_KEY cfg then
    set_play_flag 1 d
  else if ch =? QUIT_KEY cfg then
    write_tag QUIT_TAG (set_exit_flag 1 d)
  else
    match in_pointer i with
    | Some y =>
        let d := set_paddle_pos_old (paddle_pos d) d in
        let d := set_paddle_pos y d in
        write_tag KBD_TAG d
    | None => d
    end.

Definition keyboard_iter (i : input) (d : game_data) : outcome game_data :=
  if termination_flag d =? 0 then
    if negb (haltFlag d =? 0) then Spinning d
    else Next (dispatch_key i d)
  else Returned d.

(** [keyboard_handler] on the events delivered; with none left,
    [getch] waits. *)
Fixpoint keyboard_handler (inputs : list input) (d : game_data)
  : outcome game_data :=
  match inputs with
  | [] => if termination_flag d =? 0 then Blocked d else Returned d
  | i :: rest => d <- keyboard_iter i d ;; keyboard_handler rest d
  end.

(** *** [ball_handler] *)

(** Lines 186-189: save the old coordinates and advance the ball. *)
Definition move_ball (d : game_data) : game_data :=
  let d := set_ball_y_old (ball_y d) d in
  let d := set_ball_x_old (ball_x d) d in
  let d := set_ball_y (int_add (ball_y d) (ball_diry d)) d in
  set_ball_x (int_add (ball_x d) (ball_dirx d)) d.

(** Lines 192-196: reflection on the field top and bottom. *)
Definition reflect_walls (d : game_data) : game_data :=
  if (ball_y d <? FIELD_TOP cfg) || (ball_y d >? bottom_row d) then
    let d := set_ball_diry (int_mul (ball_diry d) (-1)) d in
    set_ball_y (int_add (ball_y d) (int_mul 2 (ball_diry d))) d
  else d.

(** The test [abs(pos - ball_y - -ball_diry) <= PADDLE_WIDTH / 2] of
    lines 201 and 267. *)
Definition on_pad (pos : Z) (d : game_data) : bool :=
  int_abs (int_sub (int_sub pos (ball_y d)) (int_neg (ball_diry d)))
  <=? half_width.

(** Lines 206-207 and 272-273. *)
Definition bounce (d : game_data) : game_data :=
  let d := set_ball_dirx (int_mul (ball_dirx d) (-1)) d in
  set_ball_x (int_add (ball_x d) (int_mul 2 (ball_dirx d))) d.

(** The [do ... while (c != ' ')] of lines 218-224, reading the keys
    that [getch] delivers to this thread. *)
Fixpoint level_pause (keys : list Z) (d : game_data)
  : outcome (game_data * list Z) :=
  let d := set_haltFlag 1 d in
  match keys with
  | [] => Blocked d
  | k :: rest =>
      let c := to_char k in
      if c =? QUIT_KEY cfg then Exited
      else if negb (c =? SPACE) then level_pause rest d
      else Next (d, rest)
  end.

(** Lines 211-213: the level is raised and the counter reset. *)
Definition levelled (d : game_data) : game_data :=
  let d := set_gameLevel (int_add (gameLevel d) 1) d in
  set_hitCnt 0 d.

(** Lines 211-226. *)
Definition level_up (keys : list Z) (d : game_data)
  : outcome (game_data * list Z) :=
  let d := levelled d in
  '(d, keys) <- level_pause keys d ;;
  Next (set_haltFlag 0 d, keys).

(** Lines 209-229. *)
Definition count_hit (keys : list Z) (d : game_data)
  : outcome (game_data * list Z) :=
  if hitCnt d >=? MAX_HITCNT cfg then level_up keys d
  else Next (set_hitCnt (int_add (hitCnt d) 1) d, keys).

(** The end of a round: lines 234-245, 250-260 and 276-287. *)
Definition round_over (w : Z) (d : game_data) : game_data :=
  let d := set_play_flag 0 d in
  let d := set_winner w d in
  write_tag QUIT_TAG d.

(** Lines 199-262: reflection on the player pad. *)
Definition player_pad (keys : list Z) (d : game_data)
  : outcome (game_data * list Z) :=
  if ball_x d =? paddle_col d then
    if on_pad (paddle_pos d) d then
      '(d, keys) <- count_hit keys (bounce d) ;;
      if gameLevel d >? MAX_LEVEL cfg
      then Returned (round_over WINNER_HUMAN d)
      else Next (d, keys)
    else Returned (round_over WINNER_AI d)
  else Next (d, keys).

(** Lines 265-289: reflection on the AI pad. *)
Definition ai_pad (d : game_data) : outcome game_data :=
  if ball_x d =? ai_paddle_col d then
    if on_pad (ai_paddle_pos d) d then Next (bounce d)
    else Returned (round_over WINNER_HUMAN d)
  else Next d.

(** One iteration of the [while (1)] of [ball_handler]; [keys] is what
    [getch] would deliver to this thread. *)
Definition ball_iter (keys : list Z) (d : game_data)
  : outcome (game_data * list Z) :=
  if negb (haltFlag d =? 0) then Spinning d
  else
    let d := move_ball d in
    let d := reflect_walls d in
    '(d, keys) <- player_pad keys d ;;
    d <- ai_pad d ;;
    Next (write_tag BALL_TAG d, keys).

Fixpoint ball_loop (n : nat) (keys : list Z) (d : game_data)
  : outcome (game_data * list Z) :=
  match n with
  | O => Next (d, keys)
  | S n' => '(d, keys) <- ball_iter keys d ;; ball_loop n' keys d
  end.

(** [ball_handler], run for at most [n] iterations of its loop. *)
Definition ball_handler (n : nat) (keys : list Z) (d : game_data)
  : outcome (game_data * list Z) :=
  let d := set_gameLevel 0 d in
  let d := set_hitCnt 0 d in
  ball_loop n keys d.

(** *** [ai_handler] *)

Definition ai_target (d : game_data) : Z :=
  let diff := int_sub (ball_y d) (ai_paddle_pos d) in
  int_add (ai_paddle_pos d)
          (int_div diff (if diff =? 0 then 1 else int_abs diff)).

Definition ai_move (d : game_data) : game_data :=
  let new := ai_target d in
  let d := set_ai_paddle_pos_old (ai_paddle_pos d) d in
  let d := if (new >=? half_width)
              && (new <=? int_sub (bottom_row d) half_width)
           then set_ai_paddle_pos new d else d in
  write_tag AI_TAG d.

Definition ai_iter (d : game_data) : outcome game_data :=
  if termination_flag d =? 0 then
    if negb (haltFlag d =? 0) then Spinning d
    else Next (ai_move d)
  else Returned d.

(** [ai_handler], run for at most [n] iterations of its loop. *)
Fixpoint ai_handler (n : nat) (d : game_data) : outcome game_data :=
  match n with
  | O => Next d
  | S n' => d <- ai_iter d ;; ai_handler n' d
  end.

End Workers.

(** ** The game as a transition system *)

(** An event is one iteration of one worker, with what the environment
    hands to it.  [step] and [run] take a whole iteration as one
    transition: they describe the order in which iterations complete,
    not the interleaving of their statements.  (The source holds the
    mutex around [getch] and around [resize_handler] only.)  What
    depends on the statements of two workers being interleaved, the
    paddle range, is stated on the statement-level system further
    down. *)
Inductive event : Type :=
| Key (i : input)
| Ball (keys : list Z)
| Ai
| Signal (sig : signal) (maxy maxx : Z).

Definition step (cfg : config) (e : event) (d : game_data) : option game_data :=
  match e with
  | Key i => state_after (fun x => x) (keyboard_iter cfg i d)
  | Ball keys => state_after fst (ball_iter cfg keys d)
  | Ai => state_after (fun x => x) (ai_iter cfg d)
  | Signal sig maxy maxx =>
      state_after (fun x => x) (signal_iter cfg sig maxy maxx d)
  end.

Fixpoint run (cfg : config) (es : list event) (d : game_data)
  : option game_data :=
  match es with
  | [] => Some d
  | e :: es' =>
      match step cfg e d with
      | Some d' => run cfg es' d'
      | None => None
      end
  end.

(** ** Predicates of the specification *)

(** A paddle centre [pos] is within
    [[PADDLE_WIDTH/2, bottom_row - PADDLE_WIDTH/2]]. *)
Definition in_paddle_range (cfg : config) (d : game_data) (pos : Z) : Prop :=
  half_width cfg <= pos <= bottom_row d - half_width cfg.

Definition paddles_in_range (cfg : config) (d : game_data) : Prop :=
  in_paddle_range cfg d (paddle_pos d) /\ in_paddle_range cfg d (ai_paddle_pos d).

(** A velocity component is [1] or [-1]. *)
Definition unit_dir (v : Z) : Prop := v = 1 \/ v = -1.

(** Coordinates far enough from the ends of [int] for differences and
    unit steps not to overflow; every terminal coordinate is. *)
Definition coord (z : Z) : Prop := - 2 ^ 30 < z < 2 ^ 30.

(** The keyboard iteration takes the pointer branch of the [switch]. *)
Definition pointer_move (cfg : config) (i : input) : bool :=
  negb (in_key i =? KEY_UP) && negb (in_key i =? KEY_DOWN)
  && negb (in_key i =? PLAY_KEY cfg) && negb (in_key i =? QUIT_KEY cfg)
  && match in_pointer i with Some _ => true | None => false end.


(** [after_hits cfg n d d']: the ball worker has handled [n] accepted
    player hits between [d] and [d'], and whatever the workers did
    between two of them left [hitCnt] and [gameLevel] alone. *)
Inductive after_hits (cfg : config) : nat -> game_data -> game_data -> Prop :=
| hits_none (d : game_data) : after_hits cfg 0 d d
| hits_more (n : nat) (d d1 d2 d3 : game_data) (keys : list Z) :
    after_hits cfg n d d1 ->
    hitCnt d2 = hitCnt d1 -> gameLevel d2 = gameLevel d1 ->
    ball_x d2 = paddle_col d2 -> on_pad cfg (paddle_pos d2) d2 = true ->
    state_after fst (player_pad cfg keys d2) = Some d3 ->
    after_hits cfg (S n) d d3.

(** ** Sample data *)

Definition sample_config : config :=
  {| PADDLE_WIDTH := 5; FIELD_TOP := 0; MAX_HITCNT := 3; MAX_LEVEL := 2;
     PLAY_KEY := 32; QUIT_KEY := 113 |}.

(** A field of 21 rows and 80 columns, paddles centred, ball in the
    middle moving down and right. *)
Definition sample_game : game_data :=
  {| bottom_row := 20; paddle_col := 79; ai_paddle_col := 0;
     paddle_pos := 10; paddle_pos_old := 10;
     ai_paddle_pos := 10; ai_paddle_pos_old := 10;
     ball_x := 40; ball_y := 10; ball_x_old := 40; ball_y_old := 10;
     ball_dirx := 1; ball_diry := 1;
     gameLevel := 0; hitCnt := 0;
     play_flag := 1; exit_flag := 0; termination_flag := 0;
     haltFlag := 0; winner := 0; pipe := [] |}.

(** ** The workers, statement by statement *)

(** The keyboard and AI workers read and write the paddle fields
    without holding the mutex, so a statement of another worker can come
    between a bounds test and the write it guards.  Here every statement
    or test of [keyboard_handler], [ai_handler] and [resize_handler]
    that reads or writes the shared structure is one step of its
    worker, and a schedule interleaves the steps.  A bounds test and
    the move it guards are one step each; under the schedules admitted
    below no other worker writes the fields they read while they run,
    so splitting them into single reads and writes would change
    nothing. *)

(** Where the keyboard worker is in [keyboard_handler].  [KSpin i] is
    the busy-wait of line 113 with the event [i] read by [getch]; the
    points named after a key are those of its [case]. *)
Inductive kbd_pc : Type :=
| KLoop
| KGetch
| KSpin (i : input)
| KUpSave | KUpTest | KUpMove
| KDownSave | KDownTest | KDownMove
| KPlay
| KQuitFlag
| KPtrSave (y : Z) | KPtrMove (y : Z)
| KTag (t : tag)
| KDone.

(** Where the AI worker is in [ai_handler]; the locals [diff] and [new]
    are carried by the points that follow their computation. *)
Inductive ai_pc : Type :=
| ALoop
| ASpin
| ADiff
| ANew (diff : Z)
| ASave (new : Z)
| ATest (new : Z)
| AMove (new : Z)
| ATag
| ADone.

(** Where the signal listener is: waiting for a signal ([RIdle]), at a
    statement of [resize_handler] (lines 66-81, with the terminal size
    [getmaxy] and [getmaxx] report), or gone through
    [termination_handler] ([RDone]). *)
Inductive sig_pc : Type :=
| RIdle
| RRow (maxy maxx : Z)
| RCol (maxx : Z)
| RPadTest (maxx : Z) | RPadClamp (maxx : Z)
| RAiTest (maxx : Z) | RAiClamp (maxx : Z)
| RBallTest (maxx : Z) | RBallClamp (maxx : Z)
| RColTest (maxx : Z) | RCentre (maxx : Z)
| RDone.

(** An assignment of [ball_handler] to the shared structure (lines
    178-291) with the value it stores, or its write to the pipe.  The
    ball worker assigns to these fields only; which values it stores
    plays no part in the paddle range, so a step of the ball worker is
    any one of these assignments. *)
Inductive ball_write : Type :=
| BYOld (v : Z) | BXOld (v : Z) | BY (v : Z) | BX (v : Z)
| BDirY (v : Z) | BDirX (v : Z)
| BHit (v : Z) | BLevel (v : Z) | BHalt (v : Z)
| BPlay (v : Z) | BWinner (v : Z)
| BTag (t : tag).

Definition ball_apply (b : ball_write) (d : game_data) : game_data :=
  match b with
  | BYOld v => set_ball_y_old v d
  | BXOld v => set_ball_x_old v d
  | BY v => set_ball_y v d
  | BX v => set_ball_x v d
  | BDirY v => set_ball_diry v d
  | BDirX v => set_ball_dirx v d
  | BHit v => set_hitCnt v d
  | BLevel v => set_gameLevel v d
  | BHalt v => set_haltFlag v d
  | BPlay v => set_play_flag v d
  | BWinner v => set_winner v d
  | BTag t => write_tag t d
  end.

Section Statements.

Variable cfg : config.

(** The [switch (ch)] of line 115: it reads the local [ch] only. *)
Definition kbd_switch (i : input) : kbd_pc :=
  let ch := in_key i in
  if ch =? KEY_UP then KUpSave
  else if ch =? KEY_DOWN then KDownSave
  else if ch =? PLAY_KEY cfg then KPlay
  else if ch =? QUIT_KEY cfg then KQuitFlag
  else match in_pointer i with
       | Some y => KPtrSave y
       | None => KLoop
       end.

(** One statement of the keyboard worker; [next] is the event [getch]
    has to deliver, if any. *)
Definition kbd_step (next : option input) (pc : kbd_pc) (d : game_data)
  : kbd_pc * game_data :=
  match pc with
  | KLoop => if termination_flag d =? 0 then (KGetch, d) else (KDone, d)
  | KGetch =>
      match next with
      | Some i => (KSpin i, d)
      | None => (KGetch, d)
      end
  | KSpin i =>
      if negb (haltFlag d =? 0) then (KSpin i, d) else (kbd_switch i, d)
  | KUpSave => (KUpTest, set_paddle_pos_old (paddle_pos d) d)
  | KUpTest =>
      if paddle_pos d >? half_width cfg then (KUpMove, d)
      else (KTag KBD_TAG, d)
  | KUpMove => (KTag KBD_TAG, set_paddle_pos (int_sub (paddle_pos d) 1) d)
  | KDownSave => (KDownTest, set_paddle_pos_old (paddle_pos d) d)
  | KDownTest =>
      if paddle_pos d <? int_sub (bottom_row d) (half_width cfg)
      then (KDownMove, d) else (KTag KBD_TAG, d)
  | KDownMove => (KTag KBD_TAG, set_paddle_pos (int_add (paddle_pos d) 1) d)
  | KPlay => (KLoop, set_play_flag 1 d)
  | KQuitFlag => (KTag QUIT_TAG, set_exit_flag 1 d)
  | KPtrSave y => (KPtrMove y, set_paddle_pos_old (paddle_pos d) d)
  | KPtrMove y => (KTag KBD_TAG, set_paddle_pos y d)
  | KTag t => (KLoop, write_tag t d)
  | KDone => (KDone, d)
  end.

(** One statement of the AI worker. *)
Definition ai_step (pc : ai_pc) (d : game_data) : ai_pc * game_data :=
  match pc with
  | ALoop => if termination_flag d =? 0 then (ASpin, d) else (ADone, d)
  | ASpin => if negb (haltFlag d =? 0) then (ASpin, d) else (ADiff, d)
  | ADiff => (ANew (int_sub (ball_y d) (ai_paddle_pos d)), d)
  | ANew diff =>
      (ASave (int_add (ai_paddle_pos d)
                      (int_div diff (if diff =? 0 then 1 else int_abs diff))),
       d)
  | ASave new => (ATest new, set_ai_paddle_pos_old (ai_paddle_pos d) d)
  | ATest new =>
      if (new >=? half_width cfg)
         && (new <=? int_sub (bottom_row d) (half_width cfg))
      then (AMove new, d) else (ATag, d)
  | AMove new => (ATag, set_ai_paddle_pos new d)
  | ATag => (ALoop, write_tag AI_TAG d)
  | ADone => (ADone, d)
  end.

(** One step of the signal listener: the [switch] on the signal read
    when it is waiting, otherwise the next statement of
    [resize_handler]. *)
Definition sig_step (sig : signal) (maxy maxx : Z) (pc : sig_pc)
                    (d : game_data) : sig_pc * game_data :=
  match pc with
  | RIdle =>
      match sig with
      | SIGKILL | SIGTERM | SIGINT => (RDone, d)
      | SIGWINCH => (RRow maxy maxx, d)
      | SIGOTHER => (RIdle, d)
      end
  | RRow my mx => (RCol mx, set_bottom_row (int_sub my 1) d)
  | RCol mx => (RPadTest mx, set_paddle_col (int_sub mx 1) d)
  | RPadTest mx =>
      if paddle_pos d >? int_sub (bottom_row d) (half_width cfg)
      then (RPadClamp mx, d) else (RAiTest mx, d)
  | RPadClamp mx =>
      (RAiTest mx,
       set_paddle_pos (MAX (int_sub (bottom_row d) (half_width cfg))
                           (half_width cfg)) d)
  | RAiTest mx =>
      if ai_paddle_pos d >? int_sub (bottom_row d) (half_width cfg)
      then (RAiClamp mx, d) else (RBallTest mx, d)
  | RAiClamp mx =>
      (RBallTest mx,
       set_ai_paddle_pos (MAX (int_sub (bottom_row d) (half_width cfg))
                              (half_width cfg)) d)
  | RBallTest mx =>
      if ball_y d >? bottom_row d then (RBallClamp mx, d)
      else (RColTest mx, d)
  | RBallClamp mx => (RColTest mx, set_ball_y (bottom_row d) d)
  | RColTest mx =>
      if ball_x d >? mx then (RCentre mx, d) else (RIdle, d)
  | RCentre mx => (RIdle, set_ball_y (int_div mx 2) d)
  | RDone => (RDone, d)
  end.

(** A worker on its own, for [n] of its steps. *)
Fixpoint kbd_steps (n : nat) (next : option input) (pc : kbd_pc)
                   (d : game_data) : kbd_pc * game_data :=
  match n with
  | O => (pc, d)
  | S n' => let '(pc', d') := kbd_step next pc d in kbd_steps n' next pc' d'
  end.

Fixpoint ai_steps (n : nat) (pc : ai_pc) (d : game_data)
  : ai_pc * game_data :=
  match n with
  | O => (pc, d)
  | S n' => let '(pc', d') := ai_step pc d in ai_steps n' pc' d'
  end.

Fixpoint sig_steps (n : nat) (pc : sig_pc) (d : game_data)
  : sig_pc * game_data :=
  match n with
  | O => (pc, d)
  | S n' =>
      let '(pc', d') := sig_step SIGOTHER 0 0 pc d in sig_steps n' pc' d'
  end.

End Statements.

(** The shared structure together with the points the keyboard worker,
    the AI worker and the signal listener have reached. *)
Record world : Type := mkWorld {
  shared : game_data;
  kbd_at : kbd_pc;
  ai_at : ai_pc;
  sig_at : sig_pc
}.

(** The scheduler lets one worker execute one step, with what the
    environment hands to it: the event [getch] delivers, or the signal
    read and the terminal size. *)
Inductive tick : Type :=
| TKbd (next : option input)
| TAi
| TBall (b : ball_write)
| TSig (sig : signal) (maxy maxx : Z).

Definition tick_step (cfg : config) (t : tick) (w : world) : world :=
  match t with
  | TKbd next =>
      let '(pc, d) := kbd_step cfg next (kbd_at w) (shared w) in
      mkWorld d pc (ai_at w) (sig_at w)
  | TAi =>
      let '(pc, d) := ai_step cfg (ai_at w) (shared w) in
      mkWorld d (kbd_at w) pc (sig_at w)
  | TBall b =>
      mkWorld (ball_apply b (shared w)) (kbd_at w) (ai_at w) (sig_at w)
  | TSig sig maxy maxx =>
      let '(pc, d) := sig_step cfg sig maxy maxx (sig_at w) (shared w) in
      mkWorld d (kbd_at w) (ai_at w) pc
  end.

(** A schedule, executed from left to right. *)
Fixpoint exec (cfg : config) (ts : list tick) (w : world) : world :=
  match ts with
  | [] => w
  | t :: ts' => exec cfg ts' (tick_step cfg t w)
  end.

(** The workers at the start of their loops, no resize in progress. *)
Definition start (d : game_data) : world := mkWorld d KLoop ALoop RIdle.

(** The keyboard worker is between a bounds test that succeeded and
    the paddle move it guards; likewise the AI worker. *)
Definition kbd_moving (pc : kbd_pc) : bool :=
  match pc with
  | KUpMove | KDownMove => true
  | _ => false
  end.

Definition ai_moving (pc : ai_pc) : bool :=
  match pc with
  | AMove _ => true
  | _ => false
  end.

(** The keyboard worker is at a bounds test; likewise the AI worker. *)
Definition kbd_testing (pc : kbd_pc) : bool :=
  match pc with
  | KUpTest | KDownTest => true
  | _ => false
  end.

Definition ai_testing (pc : ai_pc) : bool :=
  match pc with
  | ATest _ => true
  | _ => false
  end.

(** [resize_handler] is in progress. *)
Definition resizing (pc : sig_pc) : bool :=
  match pc with
  | RIdle | RDone => false
  | _ => true
  end.

(** A terminal of [maxy] rows has room for a paddle. *)
Definition room (cfg : config) (maxy : Z) : Prop :=
  in_int (maxy - 1) /\ half_width cfg <= maxy - 1 - half_width cfg.

(** The steps under which the paddle range is maintained: [getch]
    delivers no pointer movement; a paddle worker makes its bounds test
    while no resize is in progress; and a resize starts while neither
    paddle worker is between its bounds test and its move, for a
    terminal with room for a paddle.  In short, no resize overlaps a
    bounds test and the move it guards. *)
Definition allowed (cfg : config) (t : tick) (w : world) : Prop :=
  match t with
  | TKbd next =>
      match kbd_at w, next with
      | KGetch, Some i => pointer_move cfg i = false
      | _, _ => if kbd_testing (kbd_at w) then resizing (sig_at w) = false
                else True
      end
  | TAi => if ai_testing (ai_at w) then resizing (sig_at w) = false else True
  | TBall _ => True
  | TSig sig maxy _ =>
      match sig_at w, sig with
      | RIdle, SIGWINCH =>
          room cfg maxy
          /\ kbd_moving (kbd_at w) = false /\ ai_moving (ai_at w) = false
      | _, _ => True
      end
  end.

Fixpoint admissible (cfg : config) (ts : list tick) (w : world) : Prop :=
  match ts with
  | [] => True
  | t :: ts' => allowed cfg t w /\ admissible cfg ts' (tick_step cfg t w)
  end.

(** What the keyboard worker has established at the point it is at. *)
Definition kbd_ok (cfg : config) (d : game_data) (pc : kbd_pc) : Prop :=
  match pc with
  | KSpin i => pointer_move cfg i = false
  | KUpMove => half_width cfg < paddle_pos d
  | KDownMove => paddle_pos d < bottom_row d - half_width cfg
  | KPtrSave _ | KPtrMove _ => False
  | _ => True
  end.

(** What the AI worker has established at the point it is at. *)
Definition ai_ok (cfg : config) (d : game_data) (pc : ai_pc) : Prop :=
  match pc with
  | AMove new => in_paddle_range cfg d new
  | _ => True
  end.

(** What holds of the paddles at each point of the signal listener. *)
Definition sig_ok (cfg : config) (d : game_data) (pc : sig_pc) : Prop :=
  match pc with
  | RIdle | RDone => paddles_in_range cfg d
  | RRow maxy _ => paddles_in_range cfg d /\ room cfg maxy
  | RCol _ | RPadTest _ | RPadClamp _ =>
      half_width cfg <= bottom_row d - half_width cfg
      /\ half_width cfg <= paddle_pos d /\ half_width cfg <= ai_paddle_pos d
  | RAiTest _ | RAiClamp _ =>
      in_paddle_range cfg d (paddle_pos d)
      /\ half_width cfg <= ai_paddle_pos d
  | _ => paddles_in_range cfg d
  end.

(** The invariant of the admissible schedules. *)
Definition paddles_safe (cfg : config) (w : world) : Prop :=
  in_int (bottom_row (shared w))
  /\ kbd_ok cfg (shared w) (kbd_at w)
  /\ ai_ok cfg (shared w) (ai_at w)
  /\ sig_ok cfg (shared w) (sig_at w)
  /\ (resizing (sig_at w) = true ->
      kbd_moving (kbd_at w) = false /\ ai_moving (ai_at w) = false).

(** ** Drawing *)

(** The colour pairs of [support.h]. *)
Inductive colour : Type := PADDLE_COLOR | AI_COLOR | BALL_COLOR | TITLE_COLOR.

(** One call [mvaddch(row, col, ch)], with the colour pair switched on
    around it, if any.  The drawing routines are modelled by the list
    of the calls they make, in order. *)
Record paint : Type := mkPaint {
  paint_row : Z;
  paint_col : Z;
  paint_char : ascii;
  paint_colour : option colour
}.

(** One call [mvwaddstr(win, row, col, str)]. *)
Record text : Type := mkText {
  text_row : Z;
  text_col : Z;
  text_str : list ascii;
  text_colour : option colour
}.

(** [!strcmp(tag, KBD_TAG)]: 1 for the player, 0 for the ai. *)
Definition is_player (t : tag) : bool :=
  match t with
  | KBD_TAG => true
  | _ => false
  end.

Section Drawing.

Variable cfg : config.

(** The loop [for (i = 0; i < PADDLE_WIDTH; ++i)] of [delete_paddle] and
    [draw_paddle], from the value [i] of its counter on; it runs at
    most [fuel] times. *)
Fixpoint paddle_loop (fuel : nat) (i row c1 c2 : Z) (col : option colour)
  : list paint :=
  match fuel with
  | O => []
  | S fuel' =>
      if i <? PADDLE_WIDTH cfg then
        mkPaint (int_add row i) c1 " " col
        :: mkPaint (int_add row i) c2 " " col
        :: paddle_loop fuel' (int_add i 1) row c1 c2 col
      else []
  end.

Definition delete_paddle (d : game_data) (t : tag) : list paint :=
  let type := is_player t in
  let row := int_sub (if type then paddle_pos_old d else ai_paddle_pos_old d)
                     (half_width cfg) in
  paddle_loop (Z.to_nat (PADDLE_WIDTH cfg)) 0 row
    (if type then paddle_col d else ai_paddle_col d)
    (if type then int_sub (paddle_col d) 1 else int_add (ai_paddle_col d) 1)
    None.

Definition draw_paddle (d : game_data) (t : tag) : list paint :=
  let type := is_player t in
  let row := int_sub (if type then paddle_pos d else ai_paddle_pos d)
                     (half_width cfg) in
  paddle_loop (Z.to_nat (PADDLE_WIDTH cfg)) 0 row
    (if type then paddle_col d else ai_paddle_col d)
    (if type then int_sub (paddle_col d) 1 else int_add (ai_paddle_col d) 1)
    (Some (if type then PADDLE_COLOR else AI_COLOR)).

End Drawing.

Definition delete_ball (d : game_data) : list paint :=
  [mkPaint (ball_y_old d) (ball_x_old d) " " None].

Definition draw_ball (d : game_data) : list paint :=
  [mkPaint (ball_y d) (ball_x d) "o" (Some BALL_COLOR)].

(** The cell a call paints. *)
Definition cell (p : paint) : Z * Z := (paint_row p, paint_col p).

(** *** [print_level] *)

(** The decimal digits of a non-negative number, most significant
    first, as [%d] prints them; [fuel] bounds the number of digits. *)
Fixpoint decimal (fuel : nat) (n : Z) : list ascii :=
  match fuel with
  | O => []
  | S fuel' =>
      if n <? 10 then [ascii_of_nat (48 + Z.to_nat n)]
      else decimal fuel' (n / 10) ++ [ascii_of_nat (48 + Z.to_nat (n mod 10))]
  end.

(** The conversion [%d] of an [int] (at most 10 digits). *)
Definition format_d (n : Z) : list ascii :=
  if n <? 0 then "-"%char :: decimal 10 (- n) else decimal 10 n.

(** [snprintf(buffer, size, ...)] keeps the first [size - 1] characters
    of the formatted text. *)
Definition snprintf (size : nat) (formatted : list ascii) : list ascii :=
  firstn (size - 1) formatted.

Definition strlen (s : list ascii) : Z := Z.of_nat (length s).

Definition level_format (level : Z) : list ascii :=
  list_ascii_of_string "Congratulation you have cleared level "
  ++ format_d level ++ [" "%char].

Definition print_level (level : Z) : list text :=
  let x := 60 in
  let y := 0 in
  let msg2 := list_ascii_of_string "press space to restart, q to quit" in
  let buffer := snprintf 40 (level_format level) in
  [mkText y (int_sub x (strlen buffer ÷ 2)) buffer (Some TITLE_COLOR);
   mkText (int_add y 1) (int_sub x (strlen msg2 ÷ 2)) msg2 (Some TITLE_COLOR)].

(** ** Which fields a worker leaves alone *)

(** [d'] differs from [d] at most in the fields the ball worker writes:
    the ball, the counters, [play_flag], [haltFlag], [winner] and the
    pipe. *)
Definition ball_frame (d d' : game_data) : Prop :=
  bottom_row d' = bottom_row d /\ paddle_col d' = paddle_col d
  /\ ai_paddle_col d' = ai_paddle_col d
  /\ paddle_pos d' = paddle_pos d /\ paddle_pos_old d' = paddle_pos_old d
  /\ ai_paddle_pos d' = ai_paddle_pos d
  /\ ai_paddle_pos_old d' = ai_paddle_pos_old d
  /\ exit_flag d' = exit_flag d /\ termination_flag d' = termination_flag d.

(** [d'] differs from [d] at most in the fields the keyboard worker
    writes: the player's paddle, [play_flag], [exit_flag] and the pipe. *)
Definition keyboard_frame (d d' : game_data) : Prop :=
  bottom_row d' = bottom_row d /\ paddle_col d' = paddle_col d
  /\ ai_paddle_col d' = ai_paddle_col d
  /\ ai_paddle_pos d' = ai_paddle_pos d
  /\ ai_paddle_pos_old d' = ai_paddle_pos_old d
  /\ ball_x d' = ball_x d /\ ball_y d' = ball_y d
  /\ ball_x_old d' = ball_x_old d /\ ball_y_old d' = ball_y_old d
  /\ ball_dirx d' = ball_dirx d /\ ball_diry d' = ball_diry d
  /\ gameLevel d' = gameLevel d /\ hitCnt d' = hitCnt d
  /\ termination_flag d' = termination_flag d /\ haltFlag d' = haltFlag d
  /\ winner d' = winner d.

(** [d'] differs from [d] at most in the fields the AI worker writes:
    the AI paddle and the pipe. *)
Definition ai_frame (d d' : game_data) : Prop :=
  bottom_row d' = bottom_row d /\ paddle_col d' = paddle_col d
  /\ ai_paddle_col d' = ai_paddle_col d
  /\ paddle_pos d' = paddle_pos d /\ paddle_pos_old d' = paddle_pos_old d
  /\ ball_x d' = ball_x d /\ ball_y d' = ball_y d
  /\ ball_x_old d' = ball_x_old d /\ ball_y_old d' = ball_y_old d
  /\ ball_dirx d' = ball_dirx d /\ ball_diry d' = ball_diry d
  /\ gameLevel d' = gameLevel d /\ hitCnt d' = hitCnt d
  /\ play_flag d' = play_flag d /\ exit_flag d' = exit_flag d
  /\ termination_flag d' = termination_flag d /\ haltFlag d' = haltFlag d
  /\ winner d' = winner d.

(** [d'] differs from [d] at most in the fields the resize handler
    writes: the field size, the paddle positions and the ball row. *)
Definition resize_frame (d d' : game_data) : Prop :=
  ai_paddle_col d' = ai_paddle_col d
  /\ paddle_pos_old d' = paddle_pos_old d
  /\ ai_paddle_pos_old d' = ai_paddle_pos_old d
  /\ ball_x d' = ball_x d
  /\ ball_x_old d' = ball_x_old d /\ ball_y_old d' = ball_y_old d
  /\ ball_dirx d' = ball_dirx d /\ ball_diry d' = ball_diry d
  /\ gameLevel d' = gameLevel d /\ hitCnt d' = hitCnt d
  /\ play_flag d' = play_flag d /\ exit_flag d' = exit_flag d
  /\ termination_flag d' = termination_flag d /\ haltFlag d' = haltFlag d
  /\ winner d' = winner d /\ pipe d' = pipe d.

(** A termination signal. *)
Definition fatal (sig : signal) : bool :=
  match sig with
  | SIGKILL | SIGTERM | SIGINT => true
  | _ => false
  end.

(** * Properties *)

(** ** Facts about [int] arithmetic *)

Ltac Zify.zify_post_hook ::= Z.to_euclidean_division_equations.

Lemma wrap_in_int (z : Z) : in_int (wrap z).
Proof.
  unfold in_int, wrap, int_min, int_max.
  pose proof (Z.mod_pos_bound (z + 2 ^ 31) (2 ^ 32) ltac:(lia)). lia.
Qed.

Lemma wrap_small (z : Z) : in_int z -> wrap z = z.
Proof.
  unfold in_int, wrap, int_min, int_max. intros H.
  rewrite Z.mod_small; lia.
Qed.

Lemma to_char_small (z : Z) : - 128 <= z <= 127 -> to_char z = z.
Proof.
  unfold to_char. intros H. rewrite Z.mod_small; lia.
Qed.

(** Solves [in_int] side conditions once the bounds are in the context. *)
Ltac int_range := unfold in_int, int_min, int_max in *; lia.

(** Removes the wrap-around of the operations whose result is in range,
    innermost first. *)
Ltac unwrap :=
  unfold int_add, int_sub, int_mul, int_neg, int_abs, int_div;
  repeat match goal with
    | |- context [wrap ?z] =>
        lazymatch z with
        | context [wrap _] => fail
        | _ => rewrite (wrap_small z) by int_range
        end
    end.

(** Decides a closed statement about concrete integers by evaluation. *)
Ltac by_eval := vm_compute; repeat split; first [reflexivity | discriminate].

Lemma quot2_in_int (z : Z) : in_int z -> in_int (z ÷ 2).
Proof. unfold in_int, int_min, int_max. lia. Qed.

Lemma sgn_quot_abs (z : Z) : z <> 0 -> z ÷ Z.abs z = Z.sgn z.
Proof.
  intros Hz. destruct (Z.lt_trichotomy z 0) as [Hneg | [H0 | Hpos]].
  - rewrite Z.abs_neq, Z.sgn_neg by lia.
    rewrite Z.quot_opp_r, Z.quot_same by lia. reflexivity.
  - contradiction.
  - rewrite Z.abs_eq, Z.sgn_pos by lia. apply Z.quot_same. lia.
Qed.

(** Unfolds the field updates so that projections compute. *)
Ltac fields :=
  cbn [write_tag set_bottom_row set_paddle_col set_paddle_pos
       set_paddle_pos_old set_ai_paddle_pos set_ai_paddle_pos_old set_ball_x
       set_ball_y set_ball_x_old set_ball_y_old set_ball_dirx set_ball_diry
       set_gameLevel set_hitCnt set_play_flag set_exit_flag set_haltFlag
       set_winner
       bottom_row paddle_col ai_paddle_col paddle_pos paddle_pos_old
       ai_paddle_pos ai_paddle_pos_old ball_x ball_y ball_x_old ball_y_old
       ball_dirx ball_diry gameLevel hitCnt play_flag exit_flag
       termination_flag haltFlag winner pipe] in *.

(** Case analysis on a test of the code that contains no other test. *)
Ltac case_if :=
  match goal with
  | |- context [if ?c then _ else _] =>
      lazymatch c with
      | context [if _ then _ else _] => fail
      | _ => destruct c eqn:?
      end
  end.

(** ** The resize handler *)

Section ResizeFacts.

Variable cfg : config.

Ltac resize_cases :=
  unfold resize_handler, recentre_ball, clamp_ball_row, clamp_ai_paddle,
    clamp_paddle, MAX; fields; repeat (case_if; fields).

(** The last conditional of the handler touches no field but [ball_y]. *)
Lemma recentre_ball_only_row (maxx : Z) (d : game_data) :
  recentre_ball maxx d = set_ball_y (ball_y (recentre_ball maxx d)) d.
Proof.
  unfold recentre_ball. destruct (_ >? _); destruct d; reflexivity.
Qed.

Lemma resize_bottom_row (maxy maxx : Z) (d : game_data) :
  bottom_row (resize_handler cfg maxy maxx d) = int_sub maxy 1.
Proof. resize_cases; reflexivity. Qed.

Lemma resize_ball_x (maxy maxx : Z) (d : game_data) :
  ball_x (resize_handler cfg maxy maxx d) = ball_x d.
Proof. resize_cases; reflexivity. Qed.

Lemma resize_paddle_pos (maxy maxx : Z) (d : game_data) :
  paddle_pos (resize_handler cfg maxy maxx d) =
  if paddle_pos d >? int_sub (int_sub maxy 1) (half_width cfg)
  then Z.max (int_sub (int_sub maxy 1) (half_width cfg)) (half_width cfg)
  else paddle_pos d.
Proof. resize_cases; reflexivity. Qed.

Lemma resize_ai_paddle_pos (maxy maxx : Z) (d : game_data) :
  ai_paddle_pos (resize_handler cfg maxy maxx d) =
  if ai_paddle_pos d >? int_sub (int_sub maxy 1) (half_width cfg)
  then Z.max (int_sub (int_sub maxy 1) (half_width cfg)) (half_width cfg)
  else ai_paddle_pos d.
Proof. resize_cases; reflexivity. Qed.

Lemma resize_ball_y (maxy maxx : Z) (d : game_data) :
  ball_y (resize_handler cfg maxy maxx d) =
  if ball_x d >? maxx then int_div maxx 2
  else if ball_y d >? int_sub maxy 1 then int_sub maxy 1
  else ball_y d.
Proof. resize_cases; reflexivity. Qed.

End ResizeFacts.

(** C10: the resize handler never writes [ball_x]: after
    [resize_handler] the ball column is what it was before; the last
    conditional (taken when [ball_x] exceeds the new width) changes
    [ball_y] only, to half the new width, so that a ball column beyond
    the new width stays beyond it when the handler is done. *)
Theorem resize_never_writes_ball_x
  (cfg : config) (maxy maxx : Z) (d : game_data) :
  ball_x (resize_handler cfg maxy maxx d) = ball_x d
  /\ (forall d0, recentre_ball maxx d0
                 = set_ball_y (ball_y (recentre_ball maxx d0)) d0)
  /\ (ball_x d > maxx -> in_int maxx ->
      ball_y (resize_handler cfg maxy maxx d) = maxx ÷ 2
      /\ ball_x (resize_handler cfg maxy maxx d) > maxx).
Proof.
  split; [apply resize_ball_x|].
  split; [intros d0; apply recentre_ball_only_row|].
  intros Hx Hmaxx. rewrite resize_ball_x, resize_ball_y.
  split; [|assumption].
  destruct (Z.gtb_spec (ball_x d) maxx) as [_|Hle]; [|lia].
  unfold int_div. apply wrap_small, quot2_in_int, Hmaxx.
Qed.

Lemma resize_never_writes_ball_x_witness :
  let d := set_ball_x 90 sample_game in
  ball_x d > 80 /\ in_int 80
  /\ ball_y (resize_handler sample_config 21 80 d) = 40
  /\ ball_x (resize_handler sample_config 21 80 d) > 80.
Proof.
  assert (Hx : ball_x (set_ball_x 90 sample_game) > 80) by reflexivity.
  assert (Hw : in_int 80) by (unfold in_int, int_min, int_max; lia).
  split; [exact Hx|]. split; [exact Hw|].
  exact (proj2 (proj2 (resize_never_writes_ball_x sample_config 21 80
                         (set_ball_x 90 sample_game))) Hx Hw).
Defined.

(** C7 (as amended): on a resize the new bottom row is [maxy - 1]; a
    paddle whose position exceeds [bottom_row - PADDLE_WIDTH/2] is
    pinned to [max(bottom_row - PADDLE_WIDTH/2, PADDLE_WIDTH/2)], which
    is [bottom_row - PADDLE_WIDTH/2] when the field leaves room for the
    paddle and [PADDLE_WIDTH/2] when it does not; a ball row beyond the
    new bottom row becomes the bottom row unless the ball column is
    beyond the new width, in which case the ball row becomes half the
    new width. *)
Theorem resize_clamp_policy (cfg : config) (maxy maxx : Z) (d : game_data) :
  in_int (maxy - 1) -> in_int (maxy - 1 - half_width cfg) -> in_int maxx ->
  let d' := resize_handler cfg maxy maxx d in
  let limit := bottom_row d' - half_width cfg in
  bottom_row d' = maxy - 1
  /\ (paddle_pos d > limit -> paddle_pos d' = Z.max limit (half_width cfg))
  /\ (ai_paddle_pos d > limit ->
      ai_paddle_pos d' = Z.max limit (half_width cfg))
  /\ (ball_x d <= maxx -> ball_y d > bottom_row d' ->
      ball_y d' = bottom_row d')
  /\ (ball_x d > maxx -> ball_y d' = maxx ÷ 2)
  /\ (paddle_pos d > limit -> half_width cfg <= limit -> paddle_pos d' = limit)
  /\ (paddle_pos d > limit -> limit < half_width cfg ->
      paddle_pos d' = half_width cfg).
Proof.
  intros Hy Hlim Hx d' limit. subst d' limit.
  rewrite resize_bottom_row, resize_paddle_pos, resize_ai_paddle_pos,
    resize_ball_y.
  assert (Hbr : int_sub maxy 1 = maxy - 1) by (unfold int_sub; now apply wrap_small).
  rewrite Hbr.
  assert (Hl : int_sub (maxy - 1) (half_width cfg) = maxy - 1 - half_width cfg)
    by (unfold int_sub; now apply wrap_small).
  rewrite Hl.
  assert (Hq : int_div maxx 2 = maxx ÷ 2)
    by (unfold int_div; now apply wrap_small, quot2_in_int).
  rewrite Hq.
  repeat split; intros;
    repeat match goal with
      | |- context [?a >? ?b] => destruct (Z.gtb_spec a b)
      end; lia.
Qed.

Lemma resize_clamp_policy_witness :
  in_int (11 - 1) /\ in_int (11 - 1 - half_width sample_config) /\ in_int 80
  /\ paddle_pos sample_game > 10 - half_width sample_config
  /\ half_width sample_config <= 10 - half_width sample_config
  /\ paddle_pos (resize_handler sample_config 11 80 sample_game) = 8.
Proof.
  assert (H1 : in_int (11 - 1)) by (vm_compute; split; discriminate).
  assert (H2 : in_int (11 - 1 - half_width sample_config))
    by (vm_compute; split; discriminate).
  assert (H3 : in_int 80) by (vm_compute; split; discriminate).
  assert (H4 : paddle_pos sample_game > 10 - half_width sample_config)
    by reflexivity.
  assert (H5 : half_width sample_config <= 10 - half_width sample_config)
    by (vm_compute; discriminate).
  split; [exact H1|]. split; [exact H2|]. split; [exact H3|].
  split; [exact H4|]. split; [exact H5|].
  pose proof (resize_clamp_policy sample_config 11 80 sample_game H1 H2 H3)
    as (_ & _ & _ & _ & _ & Hpin & _).
  exact (Hpin H4 H5).
Defined.

(** The claim C7 as written fails where the new field is smaller than a
    paddle: with [PADDLE_WIDTH = 5], the paddle at row 10 and a terminal
    of 4 rows, the bottom row 3 is below [10 + 2], and the paddle is put
    at row 2, not at [3 - 2 = 1].  It also fails for the ball row when
    the ball column is beyond the new width: with the ball at column 90
    and row 30 and a terminal of 21 rows and 80 columns, the ball row
    becomes 40, not the bottom row 20. *)
Lemma resize_counterexample :
  (let d' := resize_handler sample_config 4 80 sample_game in
   bottom_row d' < paddle_pos sample_game + half_width sample_config
   /\ paddle_pos d' = 2
   /\ paddle_pos d' <> bottom_row d' - half_width sample_config)
  /\ (let d := set_ball_y 30 (set_ball_x 90 sample_game) in
      let d' := resize_handler sample_config 21 80 d in
      ball_y d > bottom_row d'
      /\ ball_y d' = 40
      /\ ball_y d' <> bottom_row d').
Proof.
  vm_compute. repeat split; discriminate.
Qed.

(** ** The AI paddle *)

Lemma ai_target_sign (d : game_data) :
  coord (ball_y d) -> coord (ai_paddle_pos d) ->
  ai_target d = ai_paddle_pos d + Z.sgn (ball_y d - ai_paddle_pos d).
Proof.
  unfold coord, ai_target. intros Hy Hp.
  assert (Hd : int_sub (ball_y d) (ai_paddle_pos d) = ball_y d - ai_paddle_pos d)
    by (unwrap; reflexivity).
  rewrite Hd. destruct (Z.eqb_spec (ball_y d - ai_paddle_pos d) 0) as [H0 | Hn].
  - rewrite H0. cbn. unwrap. lia.
  - assert (Ha : int_abs (ball_y d - ai_paddle_pos d)
                 = Z.abs (ball_y d - ai_paddle_pos d)) by (unwrap; reflexivity).
    rewrite Ha. unfold int_div.
    rewrite sgn_quot_abs by assumption.
    unwrap. reflexivity.
Qed.

Lemma ai_move_fields (cfg : config) (d : game_data) :
  ai_paddle_pos_old (ai_move cfg d) = ai_paddle_pos d
  /\ ai_paddle_pos (ai_move cfg d) =
     (if (ai_target d >=? half_width cfg)
         && (ai_target d <=? int_sub (bottom_row d) (half_width cfg))
      then ai_target d else ai_paddle_pos d)
  /\ bottom_row (ai_move cfg d) = bottom_row d
  /\ paddle_pos (ai_move cfg d) = paddle_pos d.
Proof.
  unfold ai_move. fields. case_if; fields; auto.
Qed.

(** C8: on an AI tick the candidate position is [ai_paddle_pos] plus
    the sign of [ball_y - ai_paddle_pos] (no move when they are equal);
    the paddle takes the candidate position exactly when the candidate
    is within [[PADDLE_WIDTH/2, bottom_row - PADDLE_WIDTH/2]] and keeps
    its position otherwise; [ai_paddle_pos_old] receives the position
    before the move in every case. *)
Theorem ai_tick_pursuit (cfg : config) (d : game_data) :
  coord (ball_y d) -> coord (ai_paddle_pos d) ->
  in_int (bottom_row d - half_width cfg) ->
  let diff := ball_y d - ai_paddle_pos d in
  let candidate := ai_paddle_pos d + Z.sgn diff in
  ai_target d = candidate
  /\ (diff = 0 -> candidate = ai_paddle_pos d)
  /\ (in_paddle_range cfg d candidate ->
      ai_paddle_pos (ai_move cfg d) = candidate)
  /\ (~ in_paddle_range cfg d candidate ->
      ai_paddle_pos (ai_move cfg d) = ai_paddle_pos d)
  /\ ai_paddle_pos_old (ai_move cfg d) = ai_paddle_pos d
  /\ (termination_flag d = 0 -> haltFlag d = 0 ->
      ai_iter cfg d = Next (ai_move cfg d)).
Proof.
  intros Hy Hp Hb diff candidate. subst diff candidate.
  pose proof (ai_target_sign d Hy Hp) as Ht.
  destruct (ai_move_fields cfg d) as (Hold & Hnew & _).
  rewrite Hnew, Ht.
  assert (Hs : int_sub (bottom_row d) (half_width cfg)
               = bottom_row d - half_width cfg)
    by (unfold int_sub; now apply wrap_small).
  rewrite Hs. unfold in_paddle_range.
  split; [reflexivity|]. split; [intros ->; cbn; lia|].
  split; [|split; [|split]].
  - intros [Hlo Hhi].
    destruct (Z.geb_spec (ai_paddle_pos d + Z.sgn (ball_y d - ai_paddle_pos d))
                (half_width cfg)); [|lia].
    destruct (Z.leb_spec (ai_paddle_pos d + Z.sgn (ball_y d - ai_paddle_pos d))
                (bottom_row d - half_width cfg)); [|lia].
    reflexivity.
  - intros Hout.
    destruct (Z.geb_spec (ai_paddle_pos d + Z.sgn (ball_y d - ai_paddle_pos d))
                (half_width cfg)); [|reflexivity].
    destruct (Z.leb_spec (ai_paddle_pos d + Z.sgn (ball_y d - ai_paddle_pos d))
                (bottom_row d - half_width cfg)); [|reflexivity].
    exfalso. apply Hout. lia.
  - exact Hold.
  - intros Hterm Hhalt. unfold ai_iter. rewrite Hterm, Hhalt. reflexivity.
Qed.

Lemma ai_tick_pursuit_witness :
  let d := set_ball_y 14 sample_game in
  coord (ball_y d) /\ coord (ai_paddle_pos d)
  /\ in_int (bottom_row d - half_width sample_config)
  /\ in_paddle_range sample_config d 11
  /\ ai_paddle_pos (ai_move sample_config d) = 11.
Proof.
  intros d.
  assert (H1 : coord (ball_y d)) by by_eval.
  assert (H2 : coord (ai_paddle_pos d)) by by_eval.
  assert (H3 : in_int (bottom_row d - half_width sample_config)) by by_eval.
  assert (H4 : in_paddle_range sample_config d 11) by by_eval.
  split; [exact H1|]. split; [exact H2|]. split; [exact H3|].
  split; [exact H4|].
  pose proof (ai_tick_pursuit sample_config d H1 H2 H3)
    as (_ & _ & Hin & _).
  exact (Hin H4).
Defined.

(** ** The ball: walls *)

Section BallFacts.

Variable cfg : config.

Lemma move_ball_fields (d : game_data) :
  ball_y (move_ball d) = int_add (ball_y d) (ball_diry d)
  /\ ball_x (move_ball d) = int_add (ball_x d) (ball_dirx d)
  /\ ball_diry (move_ball d) = ball_diry d
  /\ bottom_row (move_ball d) = bottom_row d
  /\ pipe (move_ball d) = pipe d.
Proof. unfold move_ball. fields. auto. Qed.

Lemma reflect_walls_fields (d : game_data) :
  (ball_y d < FIELD_TOP cfg \/ ball_y d > bottom_row d ->
   ball_diry (reflect_walls cfg d) = int_mul (ball_diry d) (-1)
   /\ ball_y (reflect_walls cfg d)
      = int_add (ball_y d) (int_mul 2 (int_mul (ball_diry d) (-1))))
  /\ (FIELD_TOP cfg <= ball_y d <= bottom_row d -> reflect_walls cfg d = d)
  /\ pipe (reflect_walls cfg d) = pipe d.
Proof.
  unfold reflect_walls.
  destruct (Z.ltb_spec (ball_y d) (FIELD_TOP cfg));
    destruct (Z.gtb_spec (ball_y d) (bottom_row d)); cbn [orb]; fields;
    repeat split; intros; auto; lia.
Qed.

End BallFacts.

(** C4: vertical wall reflection is exact.  When a step of the ball
    (velocity components 1 or -1) starts inside
    [[FIELD_TOP, bottom_row]] and takes the ball row out of it, the
    row is one unit beyond the boundary that was crossed; after the
    correction the row is one unit inside that boundary and
    [ball_diry] has the opposite sign. *)
Theorem wall_reflection_exact (cfg : config) (d : game_data) :
  unit_dir (ball_diry d) -> coord (ball_y d) ->
  FIELD_TOP cfg <= ball_y d <= bottom_row d ->
  let moved := move_ball d in
  let d' := reflect_walls cfg moved in
  (ball_y moved > bottom_row d ->
   ball_y moved = bottom_row d + 1 /\ ball_diry moved = 1
   /\ ball_y d' = bottom_row d - 1 /\ ball_diry d' = -1)
  /\ (ball_y moved < FIELD_TOP cfg ->
      ball_y moved = FIELD_TOP cfg - 1 /\ ball_diry moved = -1
      /\ ball_y d' = FIELD_TOP cfg + 1 /\ ball_diry d' = 1).
Proof.
  intros Hdir Hy Hin moved d'. subst moved d'.
  destruct (move_ball_fields d) as (Hmy & _ & Hmd & Hmb & _).
  assert (Hstep : ball_y (move_ball d) = ball_y d + ball_diry d).
  { rewrite Hmy. unfold coord, unit_dir in *. unwrap. reflexivity. }
  split; intros Hout.
  - destruct (reflect_walls_fields cfg (move_ball d)) as (Hr & _).
    destruct Hr as (Hd' & Hy'); [right; rewrite Hmb; exact Hout|].
    rewrite Hy', Hd', Hmd, Hstep. rewrite Hstep in Hout.
    unfold coord, unit_dir in *.
    assert (Hone : ball_diry d = 1) by lia. rewrite Hone.
    assert (Hbr : ball_y d = bottom_row d) by lia. rewrite Hbr in *.
    unwrap. lia.
  - destruct (reflect_walls_fields cfg (move_ball d)) as (Hr & _).
    destruct Hr as (Hd' & Hy'); [left; exact Hout|].
    rewrite Hy', Hd', Hmd, Hstep. rewrite Hstep in Hout.
    unfold coord, unit_dir in *.
    assert (Hone : ball_diry d = -1) by lia. rewrite Hone.
    assert (Htop : ball_y d = FIELD_TOP cfg) by lia. rewrite Htop in *.
    unwrap. lia.
Qed.

(** The scenario of the specification: bottom row 20, the ball steps
    from row 20 to row 21 with [ball_diry = 1]; after the correction
    the row is 19 and [ball_diry] is -1. *)
Lemma wall_reflection_exact_witness :
  let d := set_ball_y 20 sample_game in
  unit_dir (ball_diry d) /\ coord (ball_y d)
  /\ FIELD_TOP sample_config <= ball_y d <= bottom_row d
  /\ ball_y (move_ball d) > bottom_row d
  /\ ball_y (move_ball d) = 21
  /\ ball_y (reflect_walls sample_config (move_ball d)) = 19
  /\ ball_diry (reflect_walls sample_config (move_ball d)) = -1.
Proof.
  intros d.
  assert (H1 : unit_dir (ball_diry d)) by (left; reflexivity).
  assert (H2 : coord (ball_y d)) by by_eval.
  assert (H3 : FIELD_TOP sample_config <= ball_y d <= bottom_row d) by by_eval.
  assert (H4 : ball_y (move_ball d) > bottom_row d) by by_eval.
  split; [exact H1|]. split; [exact H2|]. split; [exact H3|].
  split; [exact H4|].
  pose proof (wall_reflection_exact sample_config d H1 H2 H3) as (Hb & _).
  destruct (Hb H4) as (Ha & _ & Hc & Hd).
  split; [exact Ha|]. split; [exact Hc| exact Hd].
Defined.

(** ** The ball: paddles, hit count and level *)

Section PadFacts.

Variable cfg : config.

Lemma on_pad_distance (pos : Z) (d : game_data) :
  coord pos -> coord (ball_y d) -> unit_dir (ball_diry d) ->
  on_pad cfg pos d = (Z.abs (pos - ball_y d + ball_diry d) <=? half_width cfg).
Proof.
  unfold coord, unit_dir, on_pad. intros Hp Hy Hd.
  unwrap. f_equal. f_equal. lia.
Qed.

Lemma bounce_fields (d : game_data) :
  ball_dirx (bounce d) = int_mul (ball_dirx d) (-1)
  /\ ball_x (bounce d) = int_add (ball_x d) (int_mul 2 (ball_dirx (bounce d)))
  /\ hitCnt (bounce d) = hitCnt d
  /\ gameLevel (bounce d) = gameLevel d
  /\ pipe (bounce d) = pipe d.
Proof. unfold bounce. fields. auto. Qed.

Lemma round_over_fields (w : Z) (d : game_data) :
  play_flag (round_over w d) = 0
  /\ winner (round_over w d) = w
  /\ pipe (round_over w d) = pipe d ++ [QUIT_TAG]
  /\ ball_x (round_over w d) = ball_x d
  /\ ball_dirx (round_over w d) = ball_dirx d
  /\ hitCnt (round_over w d) = hitCnt d
  /\ gameLevel (round_over w d) = gameLevel d.
Proof. unfold round_over. fields. repeat split. Qed.

(** The pause leaves with the state it was entered with, [haltFlag]
    raised; it never returns from the thread routine. *)
Lemma level_pause_state (keys : list Z) (d : game_data) :
  match level_pause cfg keys d with
  | Next (d', _) | Blocked d' => d' = set_haltFlag 1 d
  | Exited => True
  | Returned _ | Spinning _ => False
  end.
Proof.
  revert d. induction keys as [|k rest IH]; intros d; cbn [level_pause].
  - reflexivity.
  - destruct (to_char k =? QUIT_KEY cfg); [exact I|].
    destruct (to_char k =? SPACE); cbn [negb].
    + reflexivity.
    + specialize (IH (set_haltFlag 1 d)).
      destruct (level_pause cfg rest (set_haltFlag 1 d)) as [[d' r]| | |d'|];
        try exact IH; rewrite IH; reflexivity.
Qed.

Lemma count_hit_cases (keys : list Z) (d : game_data) :
  match count_hit cfg keys d with
  | Next (d', rest) =>
      (MAX_HITCNT cfg <= hitCnt d
       /\ d' = set_haltFlag 0 (set_haltFlag 1 (levelled d)))
      \/ (hitCnt d < MAX_HITCNT cfg /\ rest = keys
          /\ d' = set_hitCnt (int_add (hitCnt d) 1) d)
  | Blocked d' =>
      MAX_HITCNT cfg <= hitCnt d /\ d' = set_haltFlag 1 (levelled d)
  | Exited => MAX_HITCNT cfg <= hitCnt d
  | Returned _ | Spinning _ => False
  end.
Proof.
  unfold count_hit.
  destruct (Z.geb_spec (hitCnt d) (MAX_HITCNT cfg)) as [Hge | Hlt].
  - unfold level_up. cbv zeta.
    pose proof (level_pause_state keys (levelled d)) as Hp.
    destruct (level_pause cfg keys (levelled d)) as [[d' r]| | |d'|];
      cbn [bind]; try contradiction; try (subst d'; auto).
    assumption.
  - right. auto.
Qed.

(** What [player_pad] does when the ball is in the paddle column and
    the hit is accepted. *)
Lemma player_pad_accepted (keys : list Z) (d : game_data) :
  ball_x d = paddle_col d -> on_pad cfg (paddle_pos d) d = true ->
  match player_pad cfg keys d with
  | Next (d', rest) =>
      count_hit cfg keys (bounce d) = Next (d', rest)
      /\ gameLevel d' <= MAX_LEVEL cfg
  | Returned d'' =>
      exists d' rest, count_hit cfg keys (bounce d) = Next (d', rest)
                      /\ gameLevel d' > MAX_LEVEL cfg
                      /\ d'' = round_over WINNER_HUMAN d'
  | Blocked d' => count_hit cfg keys (bounce d) = Blocked d'
  | Exited => count_hit cfg keys (bounce d) = Exited
  | Spinning _ => False
  end.
Proof.
  intros Hcol Hhit. unfold player_pad.
  rewrite (proj2 (Z.eqb_eq _ _) Hcol), Hhit.
  pose proof (count_hit_cases keys (bounce d)) as Hc.
  destruct (count_hit cfg keys (bounce d)) as [[d' r]| | |d'|]; cbn [bind];
    try contradiction; try reflexivity.
  destruct (Z.gtb_spec (gameLevel d') (MAX_LEVEL cfg)) as [Hgt | Hle].
  - exists d', r. repeat split. lia.
  - split; [reflexivity | assumption].
Qed.

Lemma player_pad_missed (keys : list Z) (d : game_data) :
  ball_x d = paddle_col d -> on_pad cfg (paddle_pos d) d = false ->
  player_pad cfg keys d = Returned (round_over WINNER_AI d).
Proof.
  intros Hcol Hmiss. unfold player_pad.
  rewrite (proj2 (Z.eqb_eq _ _) Hcol), Hmiss. reflexivity.
Qed.

(** The state that [count_hit] leaves to the other threads. *)
Lemma count_hit_state (keys : list Z) (d d' : game_data) :
  state_after fst (count_hit cfg keys d) = Some d' ->
  ball_x d' = ball_x d /\ ball_dirx d' = ball_dirx d /\ pipe d' = pipe d
  /\ (hitCnt d < MAX_HITCNT cfg ->
      hitCnt d' = int_add (hitCnt d) 1 /\ gameLevel d' = gameLevel d)
  /\ (MAX_HITCNT cfg <= hitCnt d ->
      hitCnt d' = 0 /\ gameLevel d' = int_add (gameLevel d) 1).
Proof.
  intros Hst. pose proof (count_hit_cases keys d) as Hc.
  destruct (count_hit cfg keys d) as [[d2 r]| | |d2|]; cbn in Hst;
    try contradiction; try discriminate; injection Hst as <-.
  - destruct Hc as [(Hge & ->) | (Hlt & _ & ->)]; unfold levelled; fields;
      repeat split; intros; auto; lia.
  - destruct Hc as (Hge & ->). unfold levelled; fields.
    repeat split; intros; auto; lia.
Qed.

Lemma player_pad_accepted_state (keys : list Z) (d d' : game_data) :
  ball_x d = paddle_col d -> on_pad cfg (paddle_pos d) d = true ->
  state_after fst (player_pad cfg keys d) = Some d' ->
  exists d2, state_after fst (count_hit cfg keys (bounce d)) = Some d2
             /\ (d' = d2
                 \/ (d' = round_over WINNER_HUMAN d2
                     /\ gameLevel d2 > MAX_LEVEL cfg)).
Proof.
  intros Hcol Hhit Hst.
  pose proof (player_pad_accepted keys d Hcol Hhit) as Hp.
  destruct (player_pad cfg keys d) as [[d1 r]|d1| |d1|d1]; cbn in Hst;
    try contradiction; try discriminate; injection Hst as ->.
  - destruct Hp as (Hc & _). exists d'. rewrite Hc. cbn. auto.
  - destruct Hp as (d2 & r & Hc & Hgt & ->). exists d2. rewrite Hc. cbn. auto.
  - exists d'. rewrite Hp. cbn. auto.
Qed.

End PadFacts.

(** C1: when the ball is in the column of the human paddle, the hit is
    accepted (the worker does not end the round in favour of the ai)
    exactly when [|paddle_pos - ball_y + ball_diry| <= PADDLE_WIDTH/2];
    the test depends on [paddle_pos], [ball_y] and [ball_diry] only;
    after an accepted hit [ball_dirx] is negated and [ball_x] has been
    corrected by twice the new [ball_dirx]. *)
Theorem player_hit_acceptance (cfg : config) (keys : list Z) (d : game_data) :
  coord (paddle_pos d) -> coord (ball_y d) -> unit_dir (ball_diry d) ->
  coord (ball_x d) -> unit_dir (ball_dirx d) ->
  ball_x d = paddle_col d ->
  let accepted :=
    Z.abs (paddle_pos d - ball_y d + ball_diry d) <= half_width cfg in
  (player_pad cfg keys d = Returned (round_over WINNER_AI d) <-> ~ accepted)
  /\ (on_pad cfg (paddle_pos d) d = true <-> accepted)
  /\ (forall d0 : game_data,
        paddle_pos d0 = paddle_pos d -> ball_y d0 = ball_y d ->
        ball_diry d0 = ball_diry d ->
        on_pad cfg (paddle_pos d0) d0 = on_pad cfg (paddle_pos d) d)
  /\ (accepted ->
      forall d', state_after fst (player_pad cfg keys d) = Some d' ->
                 ball_dirx d' = - ball_dirx d
                 /\ ball_x d' = ball_x d + 2 * ball_dirx d').
Proof.
  intros Hp Hy Hdy Hx Hdx Hcol accepted. subst accepted.
  pose proof (on_pad_distance cfg (paddle_pos d) d Hp Hy Hdy) as Hpad.
  assert (Hiff : on_pad cfg (paddle_pos d) d = true
                 <-> Z.abs (paddle_pos d - ball_y d + ball_diry d)
                     <= half_width cfg).
  { rewrite Hpad. apply Z.leb_le. }
  split; [|split; [exact Hiff|split]].
  - split.
    + intros Hret Hacc. apply Hiff in Hacc.
      pose proof (player_pad_accepted cfg keys d Hcol Hacc) as Hpp.
      rewrite Hret in Hpp. destruct Hpp as (d2 & r & _ & _ & Heq).
      apply (f_equal winner) in Heq.
      rewrite !(proj1 (proj2 (round_over_fields _ _))) in Heq.
      discriminate Heq.
    + intros Hno. apply player_pad_missed; [assumption|].
      destruct (on_pad cfg (paddle_pos d) d) eqn:E; [|reflexivity].
      exfalso. apply Hno, Hiff. reflexivity.
  - intros d0 E1 E2 E3. unfold on_pad. rewrite E1, E2, E3. reflexivity.
  - intros Hacc d' Hst. apply Hiff in Hacc.
    destruct (player_pad_accepted_state cfg keys d d' Hcol Hacc Hst)
      as (d2 & Hc & Hd').
    destruct (count_hit_state cfg keys (bounce d) d2 Hc) as (Hbx & Hbd & _).
    destruct (bounce_fields d) as (Hdir & Hbx' & _).
    assert (Hneg : ball_dirx (bounce d) = - ball_dirx d).
    { rewrite Hdir. unfold unit_dir in Hdx. unwrap. lia. }
    assert (Hnx : ball_x (bounce d) = ball_x d + 2 * ball_dirx (bounce d)).
    { rewrite Hbx', Hneg. unfold unit_dir, coord in *. unwrap. reflexivity. }
    destruct Hd' as [-> | (-> & _)].
    + rewrite Hbx, Hbd. split; [exact Hneg | exact Hnx].
    + destruct (round_over_fields WINNER_HUMAN d2) as (_ & _ & _ & Rx & Rd & _).
      rewrite Rx, Rd, Hbx, Hbd. split; [exact Hneg | exact Hnx].
Qed.

(** The scenario of the specification: bottom row 20, paddle at row 10,
    ball at [(paddle_col, 10)] with [ball_diry = 1]: the hit is accepted
    and [ball_dirx] flips. *)
Lemma player_hit_acceptance_witness :
  let d := set_ball_x 79 sample_game in
  let d' := set_hitCnt 1 (bounce d) in
  coord (paddle_pos d) /\ coord (ball_y d) /\ unit_dir (ball_diry d)
  /\ coord (ball_x d) /\ unit_dir (ball_dirx d) /\ ball_x d = paddle_col d
  /\ Z.abs (paddle_pos d - ball_y d + ball_diry d) <= half_width sample_config
  /\ state_after fst (player_pad sample_config [] d) = Some d'
  /\ ball_dirx d' = -1 /\ ball_x d' = ball_x d + 2 * ball_dirx d'.
Proof.
  intros d d'.
  assert (H1 : coord (paddle_pos d)) by by_eval.
  assert (H2 : coord (ball_y d)) by by_eval.
  assert (H3 : unit_dir (ball_diry d)) by (left; reflexivity).
  assert (H4 : coord (ball_x d)) by by_eval.
  assert (H5 : unit_dir (ball_dirx d)) by (left; reflexivity).
  assert (H6 : ball_x d = paddle_col d) by reflexivity.
  assert (H7 : Z.abs (paddle_pos d - ball_y d + ball_diry d)
               <= half_width sample_config) by by_eval.
  assert (H8 : state_after fst (player_pad sample_config [] d) = Some d')
    by reflexivity.
  split; [exact H1|]. split; [exact H2|]. split; [exact H3|].
  split; [exact H4|]. split; [exact H5|]. split; [exact H6|].
  split; [exact H7|]. split; [exact H8|].
  exact (proj2 (proj2 (proj2
           (player_hit_acceptance sample_config [] d H1 H2 H3 H4 H5 H6)))
           H7 d' H8).
Defined.

Lemma accepted_hit_counts (cfg : config) (keys : list Z) (d d' : game_data) :
  in_int (hitCnt d + 1) -> in_int (gameLevel d + 1) ->
  ball_x d = paddle_col d -> on_pad cfg (paddle_pos d) d = true ->
  state_after fst (player_pad cfg keys d) = Some d' ->
  (hitCnt d < MAX_HITCNT cfg ->
   hitCnt d' = hitCnt d + 1 /\ gameLevel d' = gameLevel d)
  /\ (MAX_HITCNT cfg <= hitCnt d ->
      hitCnt d' = 0 /\ gameLevel d' = gameLevel d + 1).
Proof.
  intros Hh Hl Hcol Hhit Hst.
  destruct (player_pad_accepted_state cfg keys d d' Hcol Hhit Hst)
    as (d2 & Hc & Hd').
  destruct (count_hit_state cfg keys (bounce d) d2 Hc)
    as (_ & _ & _ & Hlt & Hge).
  destruct (bounce_fields d) as (_ & _ & Bh & Bl & _).
  rewrite Bh, Bl in Hlt, Hge.
  assert (Hh1 : int_add (hitCnt d) 1 = hitCnt d + 1)
    by (unfold int_add; now apply wrap_small).
  assert (Hl1 : int_add (gameLevel d) 1 = gameLevel d + 1)
    by (unfold int_add; now apply wrap_small).
  rewrite Hh1 in Hlt. rewrite Hl1 in Hge.
  assert (Hsame : hitCnt d' = hitCnt d2 /\ gameLevel d' = gameLevel d2).
  { destruct Hd' as [-> | (-> & _)]; [auto|].
    destruct (round_over_fields WINNER_HUMAN d2) as (_ & _ & _ & _ & _ & R1 & R2).
    auto. }
  destruct Hsame as (-> & ->).
  split; [exact Hlt | exact Hge].
Qed.

(** Counting from [hitCnt = 0]: the first [MAX_HITCNT] accepted hits
    are counted, the next one raises the level. *)
Lemma after_hits_counts (cfg : config) (n : nat) (d d' : game_data) :
  after_hits cfg n d d' ->
  hitCnt d = 0 -> 0 <= MAX_HITCNT cfg < int_max -> in_int (gameLevel d + 1) ->
  (Z.of_nat n <= MAX_HITCNT cfg ->
   hitCnt d' = Z.of_nat n /\ gameLevel d' = gameLevel d)
  /\ (Z.of_nat n = MAX_HITCNT cfg + 1 ->
      hitCnt d' = 0 /\ gameLevel d' = gameLevel d + 1).
Proof.
  intros Hhits H0 Hmax Hlev.
  induction Hhits as [d | n d d1 d2 d3 keys Hprev IH Eh El Hcol Hhit Hst].
  - split; intros Hn; [auto | lia].
  - specialize (IH H0 Hlev). destruct IH as (IH & _).
    assert (Hcases : Z.of_nat (S n) <= MAX_HITCNT cfg + 1 ->
                     hitCnt d2 = Z.of_nat n /\ gameLevel d2 = gameLevel d).
    { intros Hn. destruct IH as (I1 & I2); [lia|]. split; congruence. }
    split; intros Hn; destruct Hcases as (C1 & C2); try lia.
    + destruct (accepted_hit_counts cfg keys d2 d3) as (Hlt & _); auto.
      * rewrite C1. unfold in_int, int_min, int_max in *. lia.
      * rewrite C2. exact Hlev.
      * destruct Hlt as (E1 & E2); [lia|]. rewrite E1, E2, C1, C2. lia.
    + destruct (accepted_hit_counts cfg keys d2 d3) as (_ & Hge); auto.
      * rewrite C1. unfold in_int, int_min, int_max in *. lia.
      * rewrite C2. exact Hlev.
      * destruct Hge as (E1 & E2); [lia|]. rewrite E1, E2, C2. auto.
Qed.

(** C2 (as amended): an accepted player hit that finds [hitCnt] below
    [MAX_HITCNT] only increments it; a level-up is triggered exactly by
    an accepted hit that finds [hitCnt] at [MAX_HITCNT] or above
    already, and it raises [gameLevel] by exactly 1 and leaves [hitCnt]
    at 0.  In particular, with [hitCnt = MAX_HITCNT - 1] one more
    accepted hit takes [hitCnt] to [MAX_HITCNT] and leaves [gameLevel]
    as it was; and starting from [hitCnt = 0], the first [MAX_HITCNT]
    accepted hits are counted without a level-up, which comes with
    accepted hit number [MAX_HITCNT + 1]. *)
Theorem level_up_rule (cfg : config) (keys : list Z) (d d' : game_data) :
  in_int (hitCnt d + 1) -> in_int (gameLevel d + 1) ->
  ball_x d = paddle_col d -> on_pad cfg (paddle_pos d) d = true ->
  state_after fst (player_pad cfg keys d) = Some d' ->
  (hitCnt d < MAX_HITCNT cfg ->
   hitCnt d' = hitCnt d + 1 /\ gameLevel d' = gameLevel d)
  /\ (MAX_HITCNT cfg <= hitCnt d ->
      hitCnt d' = 0 /\ gameLevel d' = gameLevel d + 1)
  /\ (hitCnt d = MAX_HITCNT cfg - 1 ->
      hitCnt d' = MAX_HITCNT cfg /\ gameLevel d' = gameLevel d)
  /\ (forall (n : nat) (d0 dn : game_data),
        after_hits cfg n d0 dn -> hitCnt d0 = 0 ->
        0 <= MAX_HITCNT cfg < int_max -> in_int (gameLevel d0 + 1) ->
        (Z.of_nat n <= MAX_HITCNT cfg ->
         hitCnt dn = Z.of_nat n /\ gameLevel dn = gameLevel d0)
        /\ (Z.of_nat n = MAX_HITCNT cfg + 1 ->
            hitCnt dn = 0 /\ gameLevel dn = gameLevel d0 + 1)).
Proof.
  intros Hh Hl Hcol Hhit Hst.
  destruct (accepted_hit_counts cfg keys d d' Hh Hl Hcol Hhit Hst)
    as (Hlt & Hge).
  split; [exact Hlt|]. split; [exact Hge|]. split.
  - intros Heq. destruct Hlt as (E1 & E2); [lia|]. rewrite E1, E2. lia.
  - intros n d0 dn. apply after_hits_counts.
Qed.

(** With [MAX_HITCNT = 3]: three accepted hits take [hitCnt] from 0 to
    3 at level 0, the fourth raises the level to 1 and resets [hitCnt].
    Between two hits the ball is put back in front of the paddle. *)
Example four_hits_level_up :
  let serve d := set_ball_x 79 (set_ball_dirx 1 d) in
  let hit d :=
    match state_after fst (player_pad sample_config [SPACE] (serve d)) with
    | Some d' => d'
    | None => d
    end in
  let d3 := hit (hit (hit sample_game)) in
  let d4 := hit d3 in
  after_hits sample_config 3 sample_game d3
  /\ hitCnt d3 = 3 /\ gameLevel d3 = 0
  /\ after_hits sample_config 4 sample_game d4
  /\ hitCnt d4 = 0 /\ gameLevel d4 = 1.
Proof.
  intros serve hit d3 d4.
  assert (Hstep : forall n d, after_hits sample_config n sample_game d ->
                    ball_x (serve d) = paddle_col (serve d) ->
                    on_pad sample_config (paddle_pos (serve d)) (serve d) = true ->
                    state_after fst (player_pad sample_config [SPACE] (serve d))
                    = Some (hit d) ->
                    after_hits sample_config (S n) sample_game (hit d)).
  { intros n d Hn Hcol Hpad Hst.
    apply (hits_more sample_config n sample_game d (serve d) (hit d) [SPACE]);
      [exact Hn | reflexivity | reflexivity | exact Hcol | exact Hpad
      | exact Hst]. }
  assert (H3 : after_hits sample_config 3 sample_game d3).
  { apply Hstep; [|vm_compute; reflexivity..].
    apply Hstep; [|vm_compute; reflexivity..].
    apply Hstep; [|vm_compute; reflexivity..].
    apply hits_none. }
  split; [exact H3|].
  split; [vm_compute; reflexivity|]. split; [vm_compute; reflexivity|].
  split; [apply Hstep; [exact H3|vm_compute; reflexivity..]|].
  split; vm_compute; reflexivity.
Qed.

Lemma level_up_rule_witness :
  let d := set_hitCnt 3 (set_ball_x 79 sample_game) in
  let d' := set_haltFlag 0 (levelled (bounce d)) in
  in_int (hitCnt d + 1) /\ in_int (gameLevel d + 1)
  /\ ball_x d = paddle_col d
  /\ on_pad sample_config (paddle_pos d) d = true
  /\ state_after fst (player_pad sample_config [SPACE] d) = Some d'
  /\ MAX_HITCNT sample_config <= hitCnt d
  /\ hitCnt d' = 0 /\ gameLevel d' = gameLevel d + 1.
Proof.
  intros d d'.
  assert (H1 : in_int (hitCnt d + 1)) by by_eval.
  assert (H2 : in_int (gameLevel d + 1)) by by_eval.
  assert (H3 : ball_x d = paddle_col d) by reflexivity.
  assert (H4 : on_pad sample_config (paddle_pos d) d = true) by reflexivity.
  assert (Hst : state_after fst (player_pad sample_config [SPACE] d) = Some d')
    by reflexivity.
  assert (H5 : MAX_HITCNT sample_config <= hitCnt d) by by_eval.
  split; [exact H1|]. split; [exact H2|]. split; [exact H3|].
  split; [exact H4|]. split; [exact Hst|]. split; [exact H5|].
  exact (proj1 (proj2
           (level_up_rule sample_config [SPACE] d d' H1 H2 H3 H4 Hst)) H5).
Defined.

(** The claim C2 as written fails: with [MAX_HITCNT = 3] and
    [hitCnt = 2], an accepted hit leaves [gameLevel] at 0 and [hitCnt]
    at 3; no level-up has taken place. *)
Lemma level_up_counterexample :
  let d := set_hitCnt (MAX_HITCNT sample_config - 1)
             (set_ball_x 79 sample_game) in
  ball_x d = paddle_col d
  /\ on_pad sample_config (paddle_pos d) d = true
  /\ exists d', player_pad sample_config [SPACE] d = Next (d', [SPACE])
                /\ gameLevel d' = gameLevel d
                /\ gameLevel d' <> gameLevel d + 1
                /\ hitCnt d' = MAX_HITCNT sample_config
                /\ hitCnt d' <> 0.
Proof.
  cbv zeta. split; [reflexivity|]. split; [reflexivity|].
  eexists. split; [vm_compute; reflexivity|].
  vm_compute. repeat split; discriminate.
Qed.

(** ** The ball: one iteration as a whole *)

Section BallIteration.

Variable cfg : config.

Lemma player_pad_away (keys : list Z) (d : game_data) :
  ball_x d <> paddle_col d -> player_pad cfg keys d = Next (d, keys).
Proof.
  intros Hne. unfold player_pad.
  destruct (Z.eqb_spec (ball_x d) (paddle_col d)); [contradiction|reflexivity].
Qed.

(** A pass through [player_pad] that goes on to the AI pad has written
    nothing to the pipe. *)
Lemma player_pad_next_pipe (keys rest : list Z) (d d' : game_data) :
  player_pad cfg keys d = Next (d', rest) -> pipe d' = pipe d.
Proof.
  intros Hn.
  destruct (Z.eqb_spec (ball_x d) (paddle_col d)) as [Hcol | Hne].
  - destruct (on_pad cfg (paddle_pos d) d) eqn:Hhit.
    + pose proof (player_pad_accepted cfg keys d Hcol Hhit) as Hp.
      rewrite Hn in Hp. destruct Hp as (Hc & _).
      assert (Hst : state_after fst (count_hit cfg keys (bounce d)) = Some d')
        by (rewrite Hc; reflexivity).
      destruct (count_hit_state cfg keys (bounce d) d' Hst) as (_ & _ & Hp & _).
      rewrite Hp. apply bounce_fields.
    + rewrite (player_pad_missed cfg keys d Hcol Hhit) in Hn. discriminate.
  - rewrite (player_pad_away keys d Hne) in Hn. injection Hn as <- _.
    reflexivity.
Qed.

Lemma ball_iter_running (keys : list Z) (d : game_data) :
  haltFlag d = 0 ->
  ball_iter cfg keys d =
  ('(d1, keys1) <- player_pad cfg keys (reflect_walls cfg (move_ball d)) ;;
   d2 <- ai_pad cfg d1 ;;
   Next (write_tag BALL_TAG d2, keys1)).
Proof.
  intros Hh. unfold ball_iter. rewrite Hh. reflexivity.
Qed.

Lemma ball_iter_halted (keys : list Z) (d : game_data) :
  haltFlag d <> 0 -> ball_iter cfg keys d = Spinning d.
Proof.
  intros Hh. unfold ball_iter.
  destruct (Z.eqb_spec (haltFlag d) 0); [contradiction|reflexivity].
Qed.

Lemma pipe_before_pads (d : game_data) :
  pipe (reflect_walls cfg (move_ball d)) = pipe d.
Proof.
  rewrite (proj2 (proj2 (reflect_walls_fields cfg _))).
  apply move_ball_fields.
Qed.

End BallIteration.

(** [ball_handler] starts every round at level 0 with no hit counted. *)
Lemma ball_handler_start (cfg : config) (keys : list Z) (d : game_data) :
  exists d0, ball_handler cfg 0 keys d = Next (d0, keys)
             /\ gameLevel d0 = 0 /\ hitCnt d0 = 0
             /\ ball_x d0 = ball_x d /\ ball_y d0 = ball_y d.
Proof.
  eexists. split; [reflexivity|]. fields. auto.
Qed.

(** C5: a missed paddle hit ends the round.  With [d1] the state after
    the ball has moved and the walls have been handled: if the ball is
    in the player's column and the player's paddle misses it, the
    iteration returns from the thread routine with [winner] the ai (and
    not the human), [play_flag = 0] and exactly one tag, [QUIT_TAG],
    added to the pipe; if the iteration gets past the player's paddle
    and the ball is in the AI column and the AI paddle misses it, the
    same holds with [winner] the human (and not the ai). *)
Theorem missed_hit_ends_round (cfg : config) (keys : list Z) (d : game_data) :
  haltFlag d = 0 ->
  let d1 := reflect_walls cfg (move_ball d) in
  (ball_x d1 = paddle_col d1 -> on_pad cfg (paddle_pos d1) d1 = false ->
   exists d', ball_iter cfg keys d = Returned d'
              /\ winner d' = WINNER_AI /\ winner d' <> WINNER_HUMAN
              /\ play_flag d' = 0 /\ pipe d' = pipe d ++ [QUIT_TAG])
  /\ (forall d2 rest,
        player_pad cfg keys d1 = Next (d2, rest) ->
        ball_x d2 = ai_paddle_col d2 -> on_pad cfg (ai_paddle_pos d2) d2 = false ->
        exists d', ball_iter cfg keys d = Returned d'
                   /\ winner d' = WINNER_HUMAN /\ winner d' <> WINNER_AI
                   /\ play_flag d' = 0 /\ pipe d' = pipe d ++ [QUIT_TAG]).
Proof.
  intros Hh d1. subst d1. split.
  - intros Hcol Hmiss. exists (round_over WINNER_AI (reflect_walls cfg (move_ball d))).
    rewrite (ball_iter_running cfg keys d Hh).
    rewrite (player_pad_missed cfg keys _ Hcol Hmiss). cbn [bind].
    destruct (round_over_fields WINNER_AI (reflect_walls cfg (move_ball d)))
      as (Hp & Hw & Hq & _).
    rewrite Hp, Hw, Hq, pipe_before_pads.
    repeat split. discriminate.
  - intros d2 rest Hnext Hcol Hmiss. exists (round_over WINNER_HUMAN d2).
    rewrite (ball_iter_running cfg keys d Hh), Hnext. cbn [bind].
    unfold ai_pad. rewrite (proj2 (Z.eqb_eq _ _) Hcol), Hmiss. cbn [bind].
    destruct (round_over_fields WINNER_HUMAN d2) as (Hp & Hw & Hq & _).
    rewrite Hp, Hw, Hq, (player_pad_next_pipe cfg keys rest _ d2 Hnext),
      pipe_before_pads.
    repeat split. discriminate.
Qed.

Lemma missed_hit_ends_round_witness :
  let dh := set_paddle_pos 17 (set_ball_x 78 sample_game) in
  let da := set_ai_paddle_pos 17 (set_ball_dirx (-1) (set_ball_x 1 sample_game)) in
  let dh1 := reflect_walls sample_config (move_ball dh) in
  let da1 := reflect_walls sample_config (move_ball da) in
  (haltFlag dh = 0 /\ ball_x dh1 = paddle_col dh1
   /\ on_pad sample_config (paddle_pos dh1) dh1 = false
   /\ exists d', ball_iter sample_config [] dh = Returned d'
                 /\ winner d' = WINNER_AI /\ winner d' <> WINNER_HUMAN
                 /\ play_flag d' = 0 /\ pipe d' = pipe dh ++ [QUIT_TAG])
  /\ (haltFlag da = 0 /\ player_pad sample_config [] da1 = Next (da1, [])
      /\ ball_x da1 = ai_paddle_col da1
      /\ on_pad sample_config (ai_paddle_pos da1) da1 = false
      /\ exists d', ball_iter sample_config [] da = Returned d'
                    /\ winner d' = WINNER_HUMAN /\ winner d' <> WINNER_AI
                    /\ play_flag d' = 0 /\ pipe d' = pipe da ++ [QUIT_TAG]).
Proof.
  intros dh da dh1 da1.
  assert (H0 : haltFlag dh = 0) by reflexivity.
  assert (H1 : ball_x dh1 = paddle_col dh1) by reflexivity.
  assert (H2 : on_pad sample_config (paddle_pos dh1) dh1 = false) by reflexivity.
  assert (A0 : haltFlag da = 0) by reflexivity.
  assert (A1 : player_pad sample_config [] da1 = Next (da1, [])) by reflexivity.
  assert (A2 : ball_x da1 = ai_paddle_col da1) by reflexivity.
  assert (A3 : on_pad sample_config (ai_paddle_pos da1) da1 = false)
    by reflexivity.
  split.
  - split; [exact H0|]. split; [exact H1|]. split; [exact H2|].
    exact (proj1 (missed_hit_ends_round sample_config [] dh H0) H1 H2).
  - split; [exact A0|]. split; [exact A1|]. split; [exact A2|].
    split; [exact A3|].
    exact (proj2 (missed_hit_ends_round sample_config [] da A0) da1 [] A1 A2 A3).
Defined.

(** The scenario of the specification on a whole iteration: bottom
    row 20, paddle at row 10, the ball arrives at [(paddle_col, 10)]
    with [ball_diry = 1]: the hit is accepted, [ball_dirx] flips,
    [hitCnt] goes from 0 to 1 and the iteration ends with [BALL_TAG]. *)
Example first_hit_scenario :
  let d := set_ball_y 9 (set_ball_x 78 sample_game) in
  exists d', ball_iter sample_config [] d = Next (d', [])
             /\ ball_y_old d' = 9 /\ ball_x_old d' = 78
             /\ ball_dirx d' = -1 /\ ball_x d' = 77 /\ ball_y d' = 10
             /\ hitCnt d' = 1 /\ gameLevel d' = 0
             /\ pipe d' = [BALL_TAG].
Proof.
  eexists. split; [vm_compute; reflexivity|]. repeat split.
Qed.

(** C6: an accepted player hit after which [gameLevel] exceeds
    [MAX_LEVEL] ends the round in favour of the human: the iteration
    returns from the thread routine with [play_flag = 0], [winner] the
    human, and exactly one tag, [QUIT_TAG], added to the pipe. *)
Theorem level_beyond_max_wins (cfg : config) (keys : list Z) (d : game_data) :
  haltFlag d = 0 ->
  let d1 := reflect_walls cfg (move_ball d) in
  ball_x d1 = paddle_col d1 -> on_pad cfg (paddle_pos d1) d1 = true ->
  forall d2 rest,
    count_hit cfg keys (bounce d1) = Next (d2, rest) ->
    gameLevel d2 > MAX_LEVEL cfg ->
    exists d', ball_iter cfg keys d = Returned d'
               /\ play_flag d' = 0 /\ winner d' = WINNER_HUMAN
               /\ pipe d' = pipe d ++ [QUIT_TAG]
               /\ gameLevel d' = gameLevel d2.
Proof.
  intros Hh d1 Hcol Hhit d2 rest Hc Hgt. subst d1.
  exists (round_over WINNER_HUMAN d2).
  rewrite (ball_iter_running cfg keys d Hh).
  pose proof (player_pad_accepted cfg keys _ Hcol Hhit) as Hp.
  rewrite Hc in Hp.
  destruct (player_pad cfg keys (reflect_walls cfg (move_ball d)))
    as [[d3 r]|d3| |d3|d3]; try discriminate Hp; try contradiction.
  - destruct Hp as (Heq & Hle). injection Heq as <- _. lia.
  - destruct Hp as (d4 & r & Heq & _ & ->). injection Heq as <- _.
    cbn [bind].
    destruct (round_over_fields WINNER_HUMAN d2)
      as (Hpf & Hw & Hq & _ & _ & _ & Hl).
    assert (Hst : state_after fst
                    (count_hit cfg keys (bounce (reflect_walls cfg (move_ball d))))
                  = Some d2) by (rewrite Hc; reflexivity).
    destruct (count_hit_state cfg keys _ d2 Hst) as (_ & _ & Hpipe & _).
    rewrite Hpf, Hw, Hq, Hl, Hpipe, (proj2 (proj2 (proj2 (proj2 (bounce_fields _))))),
      pipe_before_pads.
    repeat split.
Qed.

Lemma level_beyond_max_wins_witness :
  let d := set_gameLevel 2 (set_hitCnt 3 (set_ball_x 78 sample_game)) in
  let d1 := reflect_walls sample_config (move_ball d) in
  let d2 := set_haltFlag 0 (levelled (bounce d1)) in
  haltFlag d = 0 /\ ball_x d1 = paddle_col d1
  /\ on_pad sample_config (paddle_pos d1) d1 = true
  /\ count_hit sample_config [SPACE] (bounce d1) = Next (d2, [])
  /\ gameLevel d2 > MAX_LEVEL sample_config
  /\ exists d', ball_iter sample_config [SPACE] d = Returned d'
                /\ play_flag d' = 0 /\ winner d' = WINNER_HUMAN
                /\ pipe d' = pipe d ++ [QUIT_TAG]
                /\ gameLevel d' = gameLevel d2.
Proof.
  intros d d1 d2.
  assert (H0 : haltFlag d = 0) by reflexivity.
  assert (H1 : ball_x d1 = paddle_col d1) by reflexivity.
  assert (H2 : on_pad sample_config (paddle_pos d1) d1 = true) by reflexivity.
  assert (H3 : count_hit sample_config [SPACE] (bounce d1) = Next (d2, []))
    by reflexivity.
  assert (H4 : gameLevel d2 > MAX_LEVEL sample_config) by reflexivity.
  split; [exact H0|]. split; [exact H1|]. split; [exact H2|].
  split; [exact H3|]. split; [exact H4|].
  exact (level_beyond_max_wins sample_config [SPACE] d H0 H1 H2 d2 [] H3 H4).
Defined.

(** ** The pause *)

(** While the ball worker itself waits in the level pause, the state
    the other threads see does not depend on the keys read so far: it
    is the state at the entry of the pause with [haltFlag] raised. *)
Lemma level_pause_holds (cfg : config) (keys : list Z) (d d' : game_data) :
  level_pause cfg keys d = Blocked d' ->
  haltFlag d' = 1 /\ ball_x d' = ball_x d /\ ball_y d' = ball_y d
  /\ ai_paddle_pos d' = ai_paddle_pos d.
Proof.
  intros Hb. pose proof (level_pause_state cfg keys d) as Hs.
  rewrite Hb in Hs. subst d'. fields. auto.
Qed.

(** A ball iteration that is left waiting for a key is waiting in the
    level pause, and the state it shows does not depend on the keys it
    has read: the ball stays where the accepted hit put it. *)
Lemma ball_iter_blocked (cfg : config) (keys : list Z) (d d' : game_data) :
  ball_iter cfg keys d = Blocked d' ->
  haltFlag d = 0
  /\ d' = set_haltFlag 1 (levelled (bounce (reflect_walls cfg (move_ball d)))).
Proof.
  intros Hb. destruct (Z.eq_dec (haltFlag d) 0) as [Hh | Hh].
  - split; [exact Hh|]. rewrite (ball_iter_running cfg keys d Hh) in Hb.
    remember (reflect_walls cfg (move_ball d)) as d1 eqn:E1.
    destruct (Z.eqb_spec (ball_x d1) (paddle_col d1)) as [Hcol | Hne].
    + destruct (on_pad cfg (paddle_pos d1) d1) eqn:Hhit.
      * pose proof (player_pad_accepted cfg keys d1 Hcol Hhit) as Hp.
        destruct (player_pad cfg keys d1) as [[d2 r]|d2| |d2|d2];
          cbn [bind] in Hb; try discriminate; try contradiction.
        -- unfold ai_pad in Hb.
           destruct (ball_x d2 =? ai_paddle_col d2);
             [destruct (on_pad cfg (ai_paddle_pos d2) d2)|];
             cbn [bind] in Hb; discriminate.
        -- injection Hb as ->.
           pose proof (count_hit_cases cfg keys (bounce d1)) as Hc.
           rewrite Hp in Hc. apply Hc.
      * rewrite (player_pad_missed cfg keys d1 Hcol Hhit) in Hb. discriminate.
    + rewrite (player_pad_away cfg keys d1 Hne) in Hb. cbn [bind] in Hb.
      unfold ai_pad in Hb.
      destruct (ball_x d1 =? ai_paddle_col d1);
        [destruct (on_pad cfg (ai_paddle_pos d1) d1)|];
        cbn [bind] in Hb; discriminate.
  - rewrite (ball_iter_halted cfg keys d Hh) in Hb. discriminate.
Qed.

(** The loops themselves: entered with [haltFlag] set, neither worker
    gets past its first busy-wait. *)
Lemma halted_loops_spin (cfg : config) (n : nat) (keys : list Z) (d : game_data) :
  haltFlag d <> 0 ->
  ball_loop cfg (S n) keys d = Spinning d
  /\ (termination_flag d = 0 -> ai_handler cfg (S n) d = Spinning d).
Proof.
  intros Hh. split.
  - cbn [ball_loop]. rewrite (ball_iter_halted cfg keys d Hh). reflexivity.
  - intros Ht. cbn [ai_handler]. unfold ai_iter. rewrite Ht. cbn.
    destruct (Z.eqb_spec (haltFlag d) 0); [contradiction|reflexivity].
Qed.



(** ** The paddle range *)

Section PaddleRange.

Variable cfg : config.
Hypothesis width_nonneg : 0 <= PADDLE_WIDTH cfg.

Lemma half_width_nonneg : 0 <= half_width cfg.
Proof. unfold half_width. lia. Qed.

(** Within the range, the upper limit is computed without overflow. *)
Lemma limit_exact (d : game_data) (pos : Z) :
  in_int (bottom_row d) -> in_paddle_range cfg d pos ->
  int_sub (bottom_row d) (half_width cfg) = bottom_row d - half_width cfg
  /\ in_int pos
  /\ (pos < bottom_row d - half_width cfg -> in_int (pos + 1))
  /\ (half_width cfg < pos -> in_int (pos - 1)).
Proof.
  pose proof half_width_nonneg as Hn.
  unfold in_paddle_range, in_int, int_min, int_max. intros Hb Hr.
  split; [|lia].
  unfold int_sub. apply wrap_small. unfold in_int, int_min, int_max. lia.
Qed.

Lemma dispatch_key_range (i : input) (d : game_data) :
  in_int (bottom_row d) -> pointer_move cfg i = false ->
  paddles_in_range cfg d ->
  bottom_row (dispatch_key cfg i d) = bottom_row d
  /\ paddles_in_range cfg (dispatch_key cfg i d).
Proof.
  intros Hb Hptr (Hp & Ha).
  destruct (limit_exact d (paddle_pos d) Hb Hp) as (Hlim & Hin & Hup & Hdown).
  unfold dispatch_key, pointer_move, paddles_in_range, in_paddle_range in *.
  cbv zeta. destruct (in_key i =? KEY_UP).
  - fields. destruct (Z.gtb_spec (paddle_pos d) (half_width cfg)) as [Hgt|Hle];
      fields; [|repeat split; lia].
    unfold int_sub. rewrite wrap_small by (apply Hdown; lia).
    repeat split; lia.
  - destruct (in_key i =? KEY_DOWN).
    + fields. rewrite Hlim.
      destruct (Z.ltb_spec (paddle_pos d) (bottom_row d - half_width cfg))
        as [Hlt|Hge]; fields; [|repeat split; lia].
      unfold int_add. rewrite wrap_small by (apply Hup; lia).
      repeat split; lia.
    + destruct (in_key i =? PLAY_KEY cfg); [fields; repeat split; lia|].
      destruct (in_key i =? QUIT_KEY cfg); [fields; repeat split; lia|].
      cbn [negb andb] in Hptr.
      destruct (in_pointer i); [discriminate|]. repeat split; lia.
Qed.

Lemma ai_move_range (d : game_data) :
  in_int (bottom_row d) -> paddles_in_range cfg d ->
  bottom_row (ai_move cfg d) = bottom_row d
  /\ paddles_in_range cfg (ai_move cfg d).
Proof.
  intros Hb (Hp & Ha).
  destruct (limit_exact d (ai_paddle_pos d) Hb Ha) as (Hlim & _).
  destruct (ai_move_fields cfg d) as (_ & Hnew & Hbr & Hpp).
  unfold paddles_in_range, in_paddle_range in *.
  rewrite Hnew, Hbr, Hpp, Hlim.
  destruct (Z.geb_spec (ai_target d) (half_width cfg));
    destruct (Z.leb_spec (ai_target d) (bottom_row d - half_width cfg));
    cbn [andb]; repeat split; lia.
Qed.

Lemma resize_range (maxy maxx : Z) (d : game_data) :
  in_int (maxy - 1) -> half_width cfg <= maxy - 1 - half_width cfg ->
  half_width cfg <= paddle_pos d -> half_width cfg <= ai_paddle_pos d ->
  bottom_row (resize_handler cfg maxy maxx d) = maxy - 1
  /\ paddles_in_range cfg (resize_handler cfg maxy maxx d).
Proof.
  pose proof half_width_nonneg as Hn. intros Hy Hroom Hp Ha.
  assert (Hbr : int_sub maxy 1 = maxy - 1)
    by (unfold int_sub; now apply wrap_small).
  assert (Hl : int_sub (maxy - 1) (half_width cfg) = maxy - 1 - half_width cfg).
  { unfold int_sub. apply wrap_small. unfold in_int, int_min, int_max in *. lia. }
  unfold paddles_in_range, in_paddle_range.
  rewrite resize_bottom_row, resize_paddle_pos, resize_ai_paddle_pos, Hbr, Hl.
  destruct (Z.gtb_spec (paddle_pos d) (maxy - 1 - half_width cfg));
    destruct (Z.gtb_spec (ai_paddle_pos d) (maxy - 1 - half_width cfg));
    repeat split; lia.
Qed.

(** The ball worker writes neither paddle position nor the bottom row. *)
Lemma count_hit_paddles (keys : list Z) (d d' : game_data) :
  state_after fst (count_hit cfg keys d) = Some d' ->
  paddle_pos d' = paddle_pos d /\ ai_paddle_pos d' = ai_paddle_pos d
  /\ bottom_row d' = bottom_row d.
Proof.
  intros Hst. pose proof (count_hit_cases cfg keys d) as Hc.
  destruct (count_hit cfg keys d) as [[d2 r]| | |d2|]; cbn in Hst;
    try contradiction; try discriminate; injection Hst as <-.
  - destruct Hc as [(_ & ->) | (_ & _ & ->)]; unfold levelled; fields; auto.
  - destruct Hc as (_ & ->). unfold levelled; fields. auto.
Qed.

Lemma player_pad_paddles (keys : list Z) (d d' : game_data) :
  state_after fst (player_pad cfg keys d) = Some d' ->
  paddle_pos d' = paddle_pos d /\ ai_paddle_pos d' = ai_paddle_pos d
  /\ bottom_row d' = bottom_row d.
Proof.
  intros Hst.
  destruct (Z.eqb_spec (ball_x d) (paddle_col d)) as [Hcol | Hne].
  - destruct (on_pad cfg (paddle_pos d) d) eqn:Hhit.
    + destruct (player_pad_accepted_state cfg keys d d' Hcol Hhit Hst)
        as (d2 & Hc & Hd').
      destruct (count_hit_paddles keys (bounce d) d2 Hc) as (E1 & E2 & E3).
      unfold bounce in E1, E2, E3. fields.
      destruct Hd' as [-> | (-> & _)]; unfold round_over; fields; auto.
    + rewrite (player_pad_missed cfg keys d Hcol Hhit) in Hst.
      injection Hst as <-. unfold round_over; fields; auto.
  - rewrite (player_pad_away cfg keys d Hne) in Hst. injection Hst as <-. auto.
Qed.

Lemma ai_pad_paddles (d d' : game_data) :
  state_after (fun x => x) (ai_pad cfg d) = Some d' ->
  paddle_pos d' = paddle_pos d /\ ai_paddle_pos d' = ai_paddle_pos d
  /\ bottom_row d' = bottom_row d.
Proof.
  unfold ai_pad. repeat case_if; cbn [state_after]; intros Hst;
    injection Hst as <-; unfold bounce, round_over; fields; auto.
Qed.

Lemma before_pads_paddles (d : game_data) :
  paddle_pos (reflect_walls cfg (move_ball d)) = paddle_pos d
  /\ ai_paddle_pos (reflect_walls cfg (move_ball d)) = ai_paddle_pos d
  /\ bottom_row (reflect_walls cfg (move_ball d)) = bottom_row d.
Proof.
  unfold reflect_walls, move_ball. fields. case_if; fields; auto.
Qed.

Lemma ball_iter_paddles (keys : list Z) (d d' : game_data) :
  state_after fst (ball_iter cfg keys d) = Some d' ->
  paddle_pos d' = paddle_pos d /\ ai_paddle_pos d' = ai_paddle_pos d
  /\ bottom_row d' = bottom_row d.
Proof.
  intros Hst. destruct (Z.eq_dec (haltFlag d) 0) as [Hh | Hh].
  - rewrite (ball_iter_running cfg keys d Hh) in Hst.
    destruct (before_pads_paddles d) as (B1 & B2 & B3).
    pose proof (player_pad_paddles keys (reflect_walls cfg (move_ball d))) as Hpp.
    destruct (player_pad cfg keys (reflect_walls cfg (move_ball d)))
      as [[d1 r]|d1| |d1|d1]; cbn [bind] in Hst.
    + specialize (Hpp d1 eq_refl). destruct Hpp as (P1 & P2 & P3).
      pose proof (ai_pad_paddles d1) as Hap.
      destruct (ai_pad cfg d1) as [d2|d2| |d2|d2]; cbn [bind] in Hst;
        cbn [state_after fst] in Hst; try discriminate;
        injection Hst as <-.
      * specialize (Hap d2 eq_refl). fields.
        destruct Hap as (A1 & A2 & A3). rewrite A1, A2, A3. repeat split; congruence.
      * specialize (Hap d2 eq_refl).
        destruct Hap as (A1 & A2 & A3). rewrite A1, A2, A3. repeat split; congruence.
      * specialize (Hap d2 eq_refl).
        destruct Hap as (A1 & A2 & A3). rewrite A1, A2, A3. repeat split; congruence.
      * specialize (Hap d2 eq_refl).
        destruct Hap as (A1 & A2 & A3). rewrite A1, A2, A3. repeat split; congruence.
    + cbn in Hst. specialize (Hpp d' Hst). destruct Hpp as (P1 & P2 & P3).
      repeat split; congruence.
    + discriminate.
    + cbn in Hst. specialize (Hpp d' Hst). destruct Hpp as (P1 & P2 & P3).
      repeat split; congruence.
    + cbn in Hst. specialize (Hpp d' Hst). destruct Hpp as (P1 & P2 & P3).
      repeat split; congruence.
  - rewrite (ball_iter_halted cfg keys d Hh) in Hst. injection Hst as <-. auto.
Qed.

End PaddleRange.

(** After any resize a paddle that was not above [PADDLE_WIDTH/2] is
    between [PADDLE_WIDTH/2] and
    [max(bottom_row - PADDLE_WIDTH/2, PADDLE_WIDTH/2)]. *)
Lemma resize_weak_range (cfg : config) (maxy maxx : Z) (d : game_data) :
  in_int (maxy - 1) -> in_int (maxy - 1 - half_width cfg) ->
  half_width cfg <= paddle_pos d -> half_width cfg <= ai_paddle_pos d ->
  let d' := resize_handler cfg maxy maxx d in
  let top := Z.max (bottom_row d' - half_width cfg) (half_width cfg) in
  half_width cfg <= paddle_pos d' <= top
  /\ half_width cfg <= ai_paddle_pos d' <= top.
Proof.
  intros Hy Hlim Hp Ha d' top. subst d' top.
  rewrite resize_bottom_row, resize_paddle_pos, resize_ai_paddle_pos.
  assert (Hbr : int_sub maxy 1 = maxy - 1)
    by (unfold int_sub; now apply wrap_small).
  assert (Hl : int_sub (maxy - 1) (half_width cfg) = maxy - 1 - half_width cfg)
    by (unfold int_sub; now apply wrap_small).
  rewrite Hbr, Hl.
  destruct (Z.gtb_spec (paddle_pos d) (maxy - 1 - half_width cfg));
    destruct (Z.gtb_spec (ai_paddle_pos d) (maxy - 1 - half_width cfg));
    repeat split; lia.
Qed.

(** The claim C3 as written fails.  With [PADDLE_WIDTH = 5], both
    paddles in range at row 10 of a field with bottom row 20: a resize
    to a terminal of 4 rows puts the paddles at row 2, above
    [bottom_row - 2 = 1]; and a pointer event in row 0 puts the player's
    paddle at row 0, below [PADDLE_WIDTH/2 = 2]. *)
Lemma paddle_range_counterexample :
  paddles_in_range sample_config sample_game
  /\ (exists d', step sample_config (Signal SIGWINCH 4 80) sample_game = Some d'
                 /\ paddle_pos d' = 2
                 /\ bottom_row d' - half_width sample_config = 1
                 /\ ~ paddles_in_range sample_config d')
  /\ (exists d', step sample_config (Key (mkInput KEY_MOUSE (Some 0)))
                   sample_game = Some d'
                 /\ paddle_pos d' = 0
                 /\ half_width sample_config = 2
                 /\ ~ paddles_in_range sample_config d').
Proof.
  split; [by_eval|]. split.
  - eexists. split; [vm_compute; reflexivity|].
    split; [reflexivity|]. split; [reflexivity|].
    intros H. vm_compute in H. destruct H as ((_ & H) & _).
    apply H. reflexivity.
  - eexists. split; [vm_compute; reflexivity|].
    split; [reflexivity|]. split; [reflexivity|].
    intros H. vm_compute in H. destruct H as ((H & _) & _).
    apply H. reflexivity.
Qed.

(** ** The paddle range under interleaving *)

Section Interleaving.

Variable cfg : config.
Hypothesis width_nonneg : 0 <= PADDLE_WIDTH cfg.

(** In a field with room for a paddle the upper limit is computed
    without overflow. *)
Lemma room_limit (b : Z) :
  in_int b -> half_width cfg <= b - half_width cfg ->
  int_sub b (half_width cfg) = b - half_width cfg.
Proof.
  pose proof (half_width_nonneg cfg width_nonneg) as Hn. intros Hb Hr.
  unfold int_sub. apply wrap_small. unfold in_int, int_min, int_max in *. lia.
Qed.

Lemma sig_ok_idle (d : game_data) (s : sig_pc) :
  resizing s = false -> sig_ok cfg d s -> paddles_in_range cfg d.
Proof. destruct s; cbn; intros H Hs; try discriminate; exact Hs. Qed.

Lemma idle_sig_ok (d : game_data) (s : sig_pc) :
  resizing s = false -> paddles_in_range cfg d -> sig_ok cfg d s.
Proof. destruct s; cbn; intros H Hs; try discriminate; exact Hs. Qed.

(** The three predicates read the paddle rows and the bottom row only. *)
Lemma sig_ok_same (d d' : game_data) (s : sig_pc) :
  paddle_pos d' = paddle_pos d -> ai_paddle_pos d' = ai_paddle_pos d ->
  bottom_row d' = bottom_row d ->
  sig_ok cfg d s -> sig_ok cfg d' s.
Proof.
  intros E1 E2 E3.
  destruct s; unfold sig_ok, paddles_in_range, in_paddle_range;
    rewrite ?E1, ?E2, ?E3; auto.
Qed.

Lemma kbd_ok_same (d d' : game_data) (k : kbd_pc) :
  paddle_pos d' = paddle_pos d -> bottom_row d' = bottom_row d ->
  kbd_ok cfg d k -> kbd_ok cfg d' k.
Proof. intros E1 E2. destruct k; unfold kbd_ok; rewrite ?E1, ?E2; auto. Qed.

Lemma ai_ok_same (d d' : game_data) (a : ai_pc) :
  bottom_row d' = bottom_row d -> ai_ok cfg d a -> ai_ok cfg d' a.
Proof.
  intros E. destruct a; unfold ai_ok, in_paddle_range; rewrite ?E; auto.
Qed.

(** Away from a pending move, what a paddle worker has established does
    not depend on the shared structure. *)
Lemma kbd_ok_settled (d d' : game_data) (k : kbd_pc) :
  kbd_moving k = false -> kbd_ok cfg d k -> kbd_ok cfg d' k.
Proof. destruct k; cbn; auto; discriminate. Qed.

Lemma ai_ok_settled (d d' : game_data) (a : ai_pc) :
  ai_moving a = false -> ai_ok cfg d a -> ai_ok cfg d' a.
Proof. destruct a; cbn; auto; discriminate. Qed.

(** A step that writes neither paddle row nor the bottom row. *)
Lemma safe_frame (d d' : game_data) (k' : kbd_pc) (a' : ai_pc)
                 (s' : sig_pc) :
  paddle_pos d' = paddle_pos d -> ai_paddle_pos d' = ai_paddle_pos d ->
  bottom_row d' = bottom_row d ->
  in_int (bottom_row d) ->
  kbd_ok cfg d k' -> ai_ok cfg d a' -> sig_ok cfg d s' ->
  (resizing s' = true -> kbd_moving k' = false /\ ai_moving a' = false) ->
  paddles_safe cfg (mkWorld d' k' a' s').
Proof.
  intros E1 E2 E3 Hb Hk Ha Hs Hset.
  unfold paddles_safe. cbn [shared kbd_at ai_at sig_at].
  rewrite E3. split; [exact Hb|].
  split; [exact (kbd_ok_same d d' k' E1 E3 Hk)|].
  split; [exact (ai_ok_same d d' a' E3 Ha)|].
  split; [exact (sig_ok_same d d' s' E1 E2 E3 Hs)|exact Hset].
Qed.

Lemma kbd_switch_ok (i : input) (d : game_data) :
  pointer_move cfg i = false ->
  kbd_ok cfg d (kbd_switch cfg i) /\ kbd_moving (kbd_switch cfg i) = false.
Proof.
  unfold pointer_move, kbd_switch. cbv zeta.
  destruct (in_key i =? KEY_UP); [cbn; auto|].
  destruct (in_key i =? KEY_DOWN); [cbn; auto|].
  destruct (in_key i =? PLAY_KEY cfg); [cbn; auto|].
  destruct (in_key i =? QUIT_KEY cfg); [cbn; auto|].
  destruct (in_pointer i); cbn; [discriminate|auto].
Qed.

Lemma ball_apply_same (b : ball_write) (d : game_data) :
  paddle_pos (ball_apply b d) = paddle_pos d
  /\ ai_paddle_pos (ball_apply b d) = ai_paddle_pos d
  /\ bottom_row (ball_apply b d) = bottom_row d.
Proof. destruct b; cbn; auto. Qed.

(** A step that leaves the paddle rows and the bottom row alone: what
    is left to show is what the step establishes. *)
Ltac framed d Hkeep :=
  apply (safe_frame d); try reflexivity; try assumption; try exact I;
  try (apply Hkeep; reflexivity).

(** A step of the keyboard worker maintains the invariant. *)
Lemma kbd_tick_safe (next : option input) (w : world) :
  paddles_safe cfg w -> allowed cfg (TKbd next) w ->
  paddles_safe cfg (tick_step cfg (TKbd next) w).
Proof.
  destruct w as [d k a s]. intros (Hb & Hk & Ha & Hs & Hset) Hal.
  unfold allowed in Hal. unfold tick_step.
  cbn [shared kbd_at ai_at sig_at] in *.
  assert (Hkeep : forall k', kbd_moving k' = false ->
            resizing s = true ->
            kbd_moving k' = false /\ ai_moving a = false).
  { intros k' Hk' Hr. split; [exact Hk'|exact (proj2 (Hset Hr))]. }
  assert (Hmoving : kbd_moving k = true -> resizing s = false).
  { intros Hm. destruct (resizing s); [|reflexivity].
    destruct (Hset eq_refl) as (Hn & _). rewrite Hm in Hn. discriminate. }
  destruct k; cbn [kbd_step kbd_testing kbd_moving] in *.
  - (* KLoop *)
    destruct (termination_flag d =? 0); framed d Hkeep.
  - (* KGetch *)
    destruct next as [i|]; framed d Hkeep.
  - (* KSpin *)
    destruct (kbd_switch_ok i d Hk) as (Hsw & Hmv).
    destruct (negb (haltFlag d =? 0)); framed d Hkeep.
    apply Hkeep. exact Hmv.
  - (* KUpSave *) framed d Hkeep.
  - (* KUpTest *)
    assert (Hidle : resizing s = false) by (destruct next; exact Hal).
    destruct (Z.gtb_spec (paddle_pos d) (half_width cfg)) as [Hgt|Hle];
      framed d Hkeep.
    intros Hr. rewrite Hidle in Hr. discriminate.
  - (* KUpMove *)
    specialize (Hmoving eq_refl).
    destruct (sig_ok_idle d s Hmoving Hs) as (Hp & Hai).
    destruct (limit_exact cfg width_nonneg d (paddle_pos d) Hb Hp)
      as (_ & _ & _ & Hdown).
    unfold paddles_safe. cbn [shared kbd_at ai_at sig_at kbd_ok]. fields.
    split; [exact Hb|]. split; [exact I|].
    split; [exact (ai_ok_same d _ a eq_refl Ha)|].
    split; [|intros Hr; rewrite Hmoving in Hr; discriminate].
    apply idle_sig_ok; [exact Hmoving|].
    unfold paddles_in_range, in_paddle_range, kbd_ok in *. fields.
    unfold int_sub. rewrite wrap_small by (apply Hdown; exact Hk).
    split; [lia|exact Hai].
  - (* KDownSave *) framed d Hkeep.
  - (* KDownTest *)
    assert (Hidle : resizing s = false) by (destruct next; exact Hal).
    destruct (sig_ok_idle d s Hidle Hs) as (Hp & Hai).
    destruct (limit_exact cfg width_nonneg d (paddle_pos d) Hb Hp)
      as (Hlim & _).
    rewrite Hlim.
    destruct (Z.ltb_spec (paddle_pos d) (bottom_row d - half_width cfg))
      as [Hlt|Hge]; framed d Hkeep.
    intros Hr. rewrite Hidle in Hr. discriminate.
  - (* KDownMove *)
    specialize (Hmoving eq_refl).
    destruct (sig_ok_idle d s Hmoving Hs) as (Hp & Hai).
    destruct (limit_exact cfg width_nonneg d (paddle_pos d) Hb Hp)
      as (_ & _ & Hup & _).
    unfold paddles_safe. cbn [shared kbd_at ai_at sig_at kbd_ok]. fields.
    split; [exact Hb|]. split; [exact I|].
    split; [exact (ai_ok_same d _ a eq_refl Ha)|].
    split; [|intros Hr; rewrite Hmoving in Hr; discriminate].
    apply idle_sig_ok; [exact Hmoving|].
    unfold paddles_in_range, in_paddle_range, kbd_ok in *. fields.
    unfold int_add. rewrite wrap_small by (apply Hup; exact Hk).
    split; [lia|exact Hai].
  - (* KPlay *) framed d Hkeep.
  - (* KQuitFlag *) framed d Hkeep.
  - (* KPtrSave *) contradiction.
  - (* KPtrMove *) contradiction.
  - (* KTag *) framed d Hkeep.
  - (* KDone *) framed d Hkeep.
Qed.

(** A step of the AI worker maintains the invariant. *)
Lemma ai_tick_safe (w : world) :
  paddles_safe cfg w -> allowed cfg TAi w ->
  paddles_safe cfg (tick_step cfg TAi w).
Proof.
  destruct w as [d k a s]. intros (Hb & Hk & Ha & Hs & Hset) Hal.
  unfold allowed in Hal. unfold tick_step.
  cbn [shared kbd_at ai_at sig_at] in *.
  assert (Hkeep : forall a', ai_moving a' = false ->
            resizing s = true ->
            kbd_moving k = false /\ ai_moving a' = false).
  { intros a' Ha' Hr. split; [exact (proj1 (Hset Hr))|exact Ha']. }
  destruct a; cbn [ai_step ai_testing] in *.
  - (* ALoop *)
    destruct (termination_flag d =? 0); framed d Hkeep.
  - (* ASpin *)
    destruct (negb (haltFlag d =? 0)); framed d Hkeep.
  - (* ADiff *) framed d Hkeep.
  - (* ANew *) framed d Hkeep.
  - (* ASave *) framed d Hkeep.
  - (* ATest *)
    destruct (sig_ok_idle d s Hal Hs) as (Hp & Hai).
    destruct (limit_exact cfg width_nonneg d (paddle_pos d) Hb Hp)
      as (Hlim & _).
    rewrite Hlim.
    destruct (Z.geb_spec new (half_width cfg)) as [Hge|Hlt];
      destruct (Z.leb_spec new (bottom_row d - half_width cfg)) as [Hle|Hgt];
      cbn [andb]; framed d Hkeep.
    + unfold ai_ok, in_paddle_range. lia.
    + intros Hr. rewrite Hal in Hr. discriminate.
  - (* AMove *)
    assert (Hidle : resizing s = false).
    { destruct (resizing s); [destruct (Hset eq_refl); discriminate|reflexivity]. }
    destruct (sig_ok_idle d s Hidle Hs) as (Hp & Hai).
    unfold paddles_safe. cbn [shared kbd_at ai_at sig_at ai_ok]. fields.
    split; [exact Hb|].
    split; [exact (kbd_ok_same d _ k eq_refl eq_refl Hk)|].
    split; [exact I|].
    split; [|intros Hr; rewrite Hidle in Hr; discriminate].
    apply idle_sig_ok; [exact Hidle|].
    unfold paddles_in_range, in_paddle_range, ai_ok in *. fields.
    split; [exact Hp|exact Ha].
  - (* ATag *) framed d Hkeep.
  - (* ADone *) framed d Hkeep.
Qed.

(** A step of the ball worker maintains the invariant. *)
Lemma ball_tick_safe (b : ball_write) (w : world) :
  paddles_safe cfg w -> paddles_safe cfg (tick_step cfg (TBall b) w).
Proof.
  destruct w as [d k a s]. intros (Hb & Hk & Ha & Hs & Hset).
  unfold tick_step. cbn [shared kbd_at ai_at sig_at] in *.
  destruct (ball_apply_same b d) as (E1 & E2 & E3).
  exact (safe_frame d _ k a s E1 E2 E3 Hb Hk Ha Hs Hset).
Qed.

(** A step of the signal listener maintains the invariant. *)
Lemma sig_tick_safe (sig : signal) (maxy maxx : Z) (w : world) :
  paddles_safe cfg w -> allowed cfg (TSig sig maxy maxx) w ->
  paddles_safe cfg (tick_step cfg (TSig sig maxy maxx) w).
Proof.
  pose proof (half_width_nonneg cfg width_nonneg) as Hn.
  destruct w as [d k a s]. intros (Hb & Hk & Ha & Hs & Hset) Hal.
  unfold allowed in Hal. unfold tick_step.
  cbn [shared kbd_at ai_at sig_at] in *.
  destruct s; cbn [sig_step resizing sig_ok] in *.
  - (* RIdle *)
    destruct sig; framed d Hset; cbn [resizing sig_ok].
    + split; [exact Hs|exact (proj1 Hal)].
    + intros _. exact (proj2 Hal).
  - (* RRow *)
    destruct Hs as ((Hp & Hai) & Hy & Hroom).
    destruct (Hset eq_refl) as (Hkm & Ham).
    assert (Hbr : int_sub maxy0 1 = maxy0 - 1)
      by (unfold int_sub; now apply wrap_small).
    unfold paddles_safe. cbn [shared kbd_at ai_at sig_at sig_ok resizing].
    fields. rewrite Hbr.
    split; [exact Hy|].
    split; [exact (kbd_ok_settled d _ k Hkm Hk)|].
    split; [exact (ai_ok_settled d _ a Ham Ha)|].
    split; [|intros _; split; assumption].
    unfold in_paddle_range in Hp, Hai. split; [exact Hroom|]. split; lia.
  - (* RCol *) framed d Hset.
  - (* RPadTest *)
    destruct Hs as (Hroom & Hp & Hai).
    rewrite (room_limit (bottom_row d) Hb Hroom).
    destruct (Z.gtb_spec (paddle_pos d) (bottom_row d - half_width cfg))
      as [Hgt|Hle]; framed d Hset; cbn [sig_ok resizing].
    + repeat split; assumption.
    + split; [|exact Hai]. unfold in_paddle_range. lia.
  - (* RPadClamp *)
    destruct Hs as (Hroom & Hp & Hai). destruct (Hset eq_refl) as (Hkm & Ham).
    rewrite (room_limit (bottom_row d) Hb Hroom).
    unfold paddles_safe. cbn [shared kbd_at ai_at sig_at sig_ok resizing].
    fields.
    split; [exact Hb|].
    split; [exact (kbd_ok_settled d _ k Hkm Hk)|].
    split; [exact (ai_ok_settled d _ a Ham Ha)|].
    split; [|intros _; split; assumption].
    unfold in_paddle_range, MAX. fields. split; [lia|exact Hai].
  - (* RAiTest *)
    destruct Hs as (Hp & Hai).
    assert (Hroom : half_width cfg <= bottom_row d - half_width cfg)
      by (unfold in_paddle_range in Hp; lia).
    rewrite (room_limit (bottom_row d) Hb Hroom).
    destruct (Z.gtb_spec (ai_paddle_pos d) (bottom_row d - half_width cfg))
      as [Hgt|Hle]; framed d Hset; cbn [sig_ok resizing].
    + split; assumption.
    + split; [exact Hp|]. unfold in_paddle_range. lia.
  - (* RAiClamp *)
    destruct Hs as (Hp & Hai). destruct (Hset eq_refl) as (Hkm & Ham).
    assert (Hroom : half_width cfg <= bottom_row d - half_width cfg)
      by (unfold in_paddle_range in Hp; lia).
    rewrite (room_limit (bottom_row d) Hb Hroom).
    unfold paddles_safe. cbn [shared kbd_at ai_at sig_at sig_ok resizing].
    fields.
    split; [exact Hb|].
    split; [exact (kbd_ok_settled d _ k Hkm Hk)|].
    split; [exact (ai_ok_settled d _ a Ham Ha)|].
    split; [|intros _; split; assumption].
    unfold paddles_in_range, in_paddle_range, MAX in *. fields.
    split; [exact Hp|lia].
  - (* RBallTest *)
    destruct (ball_y d >? bottom_row d); framed d Hset.
  - (* RBallClamp *) framed d Hset.
  - (* RColTest *)
    destruct (ball_x d >? maxx0); framed d Hset.
    cbn [resizing]. discriminate.
  - (* RCentre *)
    framed d Hset. cbn [resizing]. discriminate.
  - (* RDone *) framed d Hset.
Qed.

Lemma tick_safe (t : tick) (w : world) :
  paddles_safe cfg w -> allowed cfg t w -> paddles_safe cfg (tick_step cfg t w).
Proof.
  destruct t; intros Hsafe Hal.
  - exact (kbd_tick_safe next w Hsafe Hal).
  - exact (ai_tick_safe w Hsafe Hal).
  - exact (ball_tick_safe b w Hsafe).
  - exact (sig_tick_safe sig maxy maxx w Hsafe Hal).
Qed.

Lemma exec_safe (ts : list tick) (w : world) :
  paddles_safe cfg w -> admissible cfg ts w -> paddles_safe cfg (exec cfg ts w).
Proof.
  revert w. induction ts as [|t ts IH]; intros w Hsafe Hadm;
    cbn [exec admissible] in *; [exact Hsafe|].
  destruct Hadm as (Hal & Hadm).
  exact (IH _ (tick_safe t w Hsafe Hal) Hadm).
Qed.

Lemma start_safe (d : game_data) :
  in_int (bottom_row d) -> paddles_in_range cfg d -> paddles_safe cfg (start d).
Proof.
  intros Hb Hr. unfold paddles_safe, start.
  cbn [shared kbd_at ai_at sig_at kbd_ok ai_ok sig_ok resizing].
  split; [exact Hb|]. split; [exact I|]. split; [exact I|].
  split; [exact Hr|discriminate].
Qed.

End Interleaving.

(** *** The statements make up the iterations *)

Lemma kbd_steps_S (cfg : config) (n : nat) (next : option input)
                  (pc : kbd_pc) (d : game_data) :
  kbd_steps cfg (S n) next pc d
  = kbd_steps cfg n next (fst (kbd_step cfg next pc d))
                         (snd (kbd_step cfg next pc d)).
Proof. cbn [kbd_steps]. destruct (kbd_step cfg next pc d). reflexivity. Qed.

Lemma ai_steps_S (cfg : config) (n : nat) (pc : ai_pc) (d : game_data) :
  ai_steps cfg (S n) pc d
  = ai_steps cfg n (fst (ai_step cfg pc d)) (snd (ai_step cfg pc d)).
Proof. cbn [ai_steps]. destruct (ai_step cfg pc d). reflexivity. Qed.

(** One more step of a worker on its own, its tests decided by the
    equations at hand. *)
Ltac one_step lem :=
  rewrite lem; cbn [kbd_step ai_step]; unfold kbd_switch; cbv zeta; fields;
  repeat match goal with
         | H : ?c = _ |- context [if ?c then _ else _] => rewrite H
         | H : ?c = _ |- context [if negb ?c then _ else _] => rewrite H
         end;
  cbn [negb andb fst snd].

(** The statements of one pass through the [switch] of
    [keyboard_handler], run without interruption, are [dispatch_key]. *)
Lemma kbd_steps_dispatch (cfg : config) (i : input) (d : game_data) :
  haltFlag d = 0 ->
  exists n, (n <= 5)%nat
            /\ kbd_steps cfg n None (KSpin i) d = (KLoop, dispatch_key cfg i d).
Proof.
  intros Hh. apply Z.eqb_eq in Hh. unfold dispatch_key. cbv zeta. fields.
  destruct (in_key i =? KEY_UP) eqn:Hup;
    [destruct (paddle_pos d >? half_width cfg) eqn:Ht;
       [exists 5%nat|exists 4%nat]|].
  3: destruct (in_key i =? KEY_DOWN) eqn:Hdown;
    [destruct (paddle_pos d <? int_sub (bottom_row d) (half_width cfg)) eqn:Ht;
       [exists 5%nat|exists 4%nat]|].
  5: destruct (in_key i =? PLAY_KEY cfg) eqn:Hplay; [exists 2%nat|].
  6: destruct (in_key i =? QUIT_KEY cfg) eqn:Hquit; [exists 3%nat|].
  7: destruct (in_pointer i) as [y|] eqn:Hptr; [exists 4%nat|exists 1%nat].
  all: split; [lia|]; repeat one_step kbd_steps_S; try rewrite Hptr;
    repeat one_step kbd_steps_S; reflexivity.
Qed.

(** The statements of the body of [ai_handler]'s loop, run without
    interruption, are [ai_move]. *)
Lemma ai_steps_move (cfg : config) (d : game_data) :
  exists n, (n <= 6)%nat /\ ai_steps cfg n ADiff d = (ALoop, ai_move cfg d).
Proof.
  unfold ai_move. cbv zeta. fields.
  assert (Hnew : fst (ai_steps cfg 2 ADiff d) = ASave (ai_target d))
    by reflexivity.
  destruct ((ai_target d >=? half_width cfg)
            && (ai_target d <=? int_sub (bottom_row d) (half_width cfg)))
    eqn:Ht; [exists 6%nat|exists 5%nat]; (split; [lia|]);
    do 3 one_step ai_steps_S; fold (ai_target d);
    one_step ai_steps_S; repeat one_step ai_steps_S; reflexivity.
Qed.

Lemma sig_steps_app (cfg : config) (n m : nat) (pc pc1 : sig_pc)
                    (d d1 : game_data) (r : sig_pc * game_data) :
  sig_steps cfg n pc d = (pc1, d1) -> sig_steps cfg m pc1 d1 = r ->
  sig_steps cfg (n + m) pc d = r.
Proof.
  revert pc d. induction n as [|n IH]; intros pc d Hn Hm; cbn [sig_steps Nat.add] in *.
  - injection Hn as -> ->. exact Hm.
  - destruct (sig_step cfg SIGOTHER 0 0 pc d) as [pc' d']. exact (IH pc' d' Hn Hm).
Qed.

(** The statements of [resize_handler], run without interruption, are
    [resize_handler]. *)
Lemma sig_steps_resize (cfg : config) (maxy maxx : Z) (d : game_data) :
  exists n, (n <= 10)%nat
            /\ sig_steps cfg n (RRow maxy maxx) d
               = (RIdle, resize_handler cfg maxy maxx d).
Proof.
  unfold resize_handler. cbv zeta.
  set (d1 := set_paddle_col (int_sub maxx 1) (set_bottom_row (int_sub maxy 1) d)).
  assert (H1 : sig_steps cfg 2 (RRow maxy maxx) d = (RPadTest maxx, d1))
    by reflexivity.
  assert (H2 : exists n, (n <= 2)%nat
             /\ sig_steps cfg n (RPadTest maxx) d1
                = (RAiTest maxx, clamp_paddle cfg d1)).
  { unfold clamp_paddle.
    destruct (paddle_pos d1 >? int_sub (bottom_row d1) (half_width cfg)) eqn:Ht;
      [exists 2%nat|exists 1%nat]; (split; [lia|]);
      cbn [sig_steps sig_step]; rewrite Ht; reflexivity. }
  destruct H2 as (n2 & L2 & H2). set (d2 := clamp_paddle cfg d1) in *.
  assert (H3 : exists n, (n <= 2)%nat
             /\ sig_steps cfg n (RAiTest maxx) d2
                = (RBallTest maxx, clamp_ai_paddle cfg d2)).
  { unfold clamp_ai_paddle.
    destruct (ai_paddle_pos d2 >? int_sub (bottom_row d2) (half_width cfg)) eqn:Ht;
      [exists 2%nat|exists 1%nat]; (split; [lia|]);
      cbn [sig_steps sig_step]; rewrite Ht; reflexivity. }
  destruct H3 as (n3 & L3 & H3). set (d3 := clamp_ai_paddle cfg d2) in *.
  assert (H4 : exists n, (n <= 2)%nat
             /\ sig_steps cfg n (RBallTest maxx) d3
                = (RColTest maxx, clamp_ball_row d3)).
  { unfold clamp_ball_row.
    destruct (ball_y d3 >? bottom_row d3) eqn:Ht;
      [exists 2%nat|exists 1%nat]; (split; [lia|]);
      cbn [sig_steps sig_step]; rewrite Ht; reflexivity. }
  destruct H4 as (n4 & L4 & H4). set (d4 := clamp_ball_row d3) in *.
  assert (H5 : exists n, (n <= 2)%nat
             /\ sig_steps cfg n (RColTest maxx) d4
                = (RIdle, recentre_ball maxx d4)).
  { unfold recentre_ball.
    destruct (ball_x d4 >? maxx) eqn:Ht;
      [exists 2%nat|exists 1%nat]; (split; [lia|]);
      cbn [sig_steps sig_step]; rewrite Ht; reflexivity. }
  destruct H5 as (n5 & L5 & H5).
  exists (2 + (n2 + (n3 + (n4 + n5))))%nat. split; [lia|].
  apply (sig_steps_app cfg 2 _ _ _ _ _ _ H1).
  apply (sig_steps_app cfg n2 _ _ _ _ _ _ H2).
  apply (sig_steps_app cfg n3 _ _ _ _ _ _ H3).
  exact (sig_steps_app cfg n4 _ _ _ _ _ _ H4 H5).
Qed.

(** *** The range is kept, and how it is lost *)

(** C3 (as amended): let both paddles lie within
    [[PADDLE_WIDTH/2, bottom_row - PADDLE_WIDTH/2]] when the workers
    start.  Then they lie within it whenever no resize is in progress,
    in every interleaving of the statements of the keyboard worker, the
    AI worker, the ball worker and the signal listener in which no
    pointer movement is delivered, every resize is to a terminal with
    room for a paddle, and no resize overlaps a bounds test of the
    keyboard or AI worker and the paddle move it guards. *)
Theorem paddles_in_range_interleaved
  (cfg : config) (ts : list tick) (d : game_data) :
  0 <= PADDLE_WIDTH cfg -> in_int (bottom_row d) ->
  paddles_in_range cfg d -> admissible cfg ts (start d) ->
  resizing (sig_at (exec cfg ts (start d))) = false ->
  paddles_in_range cfg (shared (exec cfg ts (start d))).
Proof.
  intros Hw Hb Hr Hadm Hidle.
  destruct (exec_safe cfg Hw ts (start d) (start_safe cfg d Hb Hr) Hadm)
    as (_ & _ & _ & Hs & _).
  exact (sig_ok_idle cfg _ _ Hidle Hs).
Qed.

Lemma paddles_in_range_interleaved_witness :
  let down := Some (mkInput KEY_DOWN None) in
  let ts := repeat (TKbd down) 5 ++ repeat TAi 6
            ++ [TBall (BY 11); TKbd down; TAi; TKbd down]
            ++ repeat (TSig SIGWINCH 11 80) 4
            ++ [TAi; TKbd down; TBall (BHit 1); TKbd down; TKbd down]
            ++ repeat (TSig SIGWINCH 11 80) 6
            ++ repeat (TKbd down) 4 in
  0 <= PADDLE_WIDTH sample_config /\ in_int (bottom_row sample_game)
  /\ paddles_in_range sample_config sample_game
  /\ admissible sample_config ts (start sample_game)
  /\ resizing (sig_at (exec sample_config ts (start sample_game))) = false
  /\ paddle_pos (shared (exec sample_config ts (start sample_game))) = 8
  /\ ai_paddle_pos (shared (exec sample_config ts (start sample_game))) = 8
  /\ bottom_row (shared (exec sample_config ts (start sample_game))) = 10
  /\ paddles_in_range sample_config
       (shared (exec sample_config ts (start sample_game))).
Proof.
  intros down ts.
  assert (H1 : 0 <= PADDLE_WIDTH sample_config) by by_eval.
  assert (H2 : in_int (bottom_row sample_game)) by by_eval.
  assert (H3 : paddles_in_range sample_config sample_game) by by_eval.
  assert (H4 : admissible sample_config ts (start sample_game)).
  { vm_compute. repeat split; first [exact I | reflexivity | discriminate]. }
  assert (H5 : resizing (sig_at (exec sample_config ts (start sample_game)))
               = false) by (vm_compute; reflexivity).
  split; [exact H1|]. split; [exact H2|]. split; [exact H3|].
  split; [exact H4|]. split; [exact H5|].
  split; [vm_compute; reflexivity|]. split; [vm_compute; reflexivity|].
  split; [vm_compute; reflexivity|].
  exact (paddles_in_range_interleaved sample_config ts sample_game
           H1 H2 H3 H4 H5).
Defined.

(** Why the overlap is excluded.  The keyboard worker tests the bound
    with the paddle at row 17 of a field with bottom row 20, and the AI
    worker with its target at row 18; a resize to a terminal of 11 rows,
    which has room for a paddle, pins both paddles to row 8; the two
    pending moves then put the player's paddle at row 9 and the AI's at
    row 18, with [bottom_row - PADDLE_WIDTH/2 = 8]. *)
Example resize_between_test_and_move :
  let d := set_ball_y 19 (set_ai_paddle_pos 17 (set_paddle_pos 17 sample_game)) in
  let down := Some (mkInput KEY_DOWN None) in
  let tested := repeat (TKbd down) 5 ++ repeat TAi 6 in
  let resized := tested ++ repeat (TSig SIGWINCH 11 80) 10 in
  let moved := resized ++ [TKbd down; TAi] in
  paddles_in_range sample_config d /\ room sample_config 11
  /\ kbd_at (exec sample_config tested (start d)) = KDownMove
  /\ ai_at (exec sample_config tested (start d)) = AMove 18
  /\ sig_at (exec sample_config resized (start d)) = RIdle
  /\ paddles_in_range sample_config (shared (exec sample_config resized (start d)))
  /\ bottom_row (shared (exec sample_config moved (start d)))
     - half_width sample_config = 8
  /\ paddle_pos (shared (exec sample_config moved (start d))) = 9
  /\ ai_paddle_pos (shared (exec sample_config moved (start d))) = 18
  /\ ~ paddles_in_range sample_config (shared (exec sample_config moved (start d))).
Proof.
  cbv zeta.
  split; [by_eval|]. split; [by_eval|].
  split; [vm_compute; reflexivity|]. split; [vm_compute; reflexivity|].
  split; [vm_compute; reflexivity|]. split; [by_eval|].
  split; [vm_compute; reflexivity|]. split; [vm_compute; reflexivity|].
  split; [vm_compute; reflexivity|].
  intros H. vm_compute in H. destruct H as ((_ & H) & _). apply H. reflexivity.
Qed.

(** * Further properties of the workers *)

(** ** The resize handler and the signal listener *)

(** Two states with the same fields are the same state. *)
Lemma game_data_ext (d d' : game_data) :
  bottom_row d' = bottom_row d -> paddle_col d' = paddle_col d ->
  paddle_pos d' = paddle_pos d -> ai_paddle_pos d' = ai_paddle_pos d ->
  ball_y d' = ball_y d -> play_flag d' = play_flag d ->
  paddle_pos_old d' = paddle_pos_old d ->
  ai_paddle_pos_old d' = ai_paddle_pos_old d ->
  ai_paddle_col d' = ai_paddle_col d ->
  ball_x d' = ball_x d -> ball_x_old d' = ball_x_old d ->
  ball_y_old d' = ball_y_old d -> ball_dirx d' = ball_dirx d ->
  ball_diry d' = ball_diry d -> gameLevel d' = gameLevel d ->
  hitCnt d' = hitCnt d -> exit_flag d' = exit_flag d ->
  termination_flag d' = termination_flag d -> haltFlag d' = haltFlag d ->
  winner d' = winner d -> pipe d' = pipe d ->
  d' = d.
Proof.
  destruct d, d'; cbn. intros. subst. reflexivity.
Qed.

Lemma resize_paddle_col (cfg : config) (maxy maxx : Z) (d : game_data) :
  paddle_col (resize_handler cfg maxy maxx d) = int_sub maxx 1.
Proof.
  unfold resize_handler, recentre_ball, clamp_ball_row, clamp_ai_paddle,
    clamp_paddle, MAX; fields; repeat (case_if; fields); reflexivity.
Qed.

Lemma resize_leaves (cfg : config) (maxy maxx : Z) (d : game_data) :
  resize_frame d (resize_handler cfg maxy maxx d).
Proof.
  unfold resize_frame, resize_handler, recentre_ball, clamp_ball_row,
    clamp_ai_paddle, clamp_paddle, MAX; fields; repeat (case_if; fields);
    repeat split.
Qed.

(** X1: handling the same terminal size twice is the same as handling
    it once. *)
Theorem resize_idempotent (cfg : config) (maxy maxx : Z) (d : game_data) :
  resize_handler cfg maxy maxx (resize_handler cfg maxy maxx d)
  = resize_handler cfg maxy maxx d.
Proof.
  pose proof (resize_leaves cfg maxy maxx d) as F1.
  pose proof (resize_leaves cfg maxy maxx (resize_handler cfg maxy maxx d)) as F2.
  unfold resize_frame in F1, F2.
  apply game_data_ext; try (intuition congruence).
  - rewrite !resize_bottom_row. reflexivity.
  - rewrite !resize_paddle_col. reflexivity.
  - rewrite (resize_paddle_pos cfg maxy maxx (resize_handler cfg maxy maxx d)).
    rewrite (resize_paddle_pos cfg maxy maxx d).
    repeat match goal with
      | |- context [if ?a >? ?b then _ else _] =>
          lazymatch a with
          | context [if _ then _ else _] => fail
          | _ => destruct (Z.gtb_spec a b)
          end
      end; lia.
  - rewrite (resize_ai_paddle_pos cfg maxy maxx (resize_handler cfg maxy maxx d)).
    rewrite (resize_ai_paddle_pos cfg maxy maxx d).
    repeat match goal with
      | |- context [if ?a >? ?b then _ else _] =>
          lazymatch a with
          | context [if _ then _ else _] => fail
          | _ => destruct (Z.gtb_spec a b)
          end
      end; lia.
  - rewrite (resize_ball_y cfg maxy maxx (resize_handler cfg maxy maxx d)).
    rewrite (resize_ball_y cfg maxy maxx d), resize_ball_x.
    repeat match goal with
      | |- context [if ?a >? ?b then _ else _] =>
          lazymatch a with
          | context [if _ then _ else _] => fail
          | _ => destruct (Z.gtb_spec a b)
          end
      end; lia.
Qed.

(** X2: a resize keeps the objects inside the new field as far as the
    handler can: a paddle that was not above [PADDLE_WIDTH/2] ends
    between [PADDLE_WIDTH/2] and
    [max(bottom_row - PADDLE_WIDTH/2, PADDLE_WIDTH/2)], and when the
    ball column is within the new width the ball row ends at or above
    the new bottom row. *)
Theorem resize_keeps_inside (cfg : config) (maxy maxx : Z) (d : game_data) :
  in_int (maxy - 1) -> in_int (maxy - 1 - half_width cfg) ->
  half_width cfg <= paddle_pos d -> half_width cfg <= ai_paddle_pos d ->
  let d' := resize_handler cfg maxy maxx d in
  let top := Z.max (bottom_row d' - half_width cfg) (half_width cfg) in
  half_width cfg <= paddle_pos d' <= top
  /\ half_width cfg <= ai_paddle_pos d' <= top
  /\ (ball_x d <= maxx -> ball_y d' <= bottom_row d').
Proof.
  intros Hy Hlim Hp Ha d' top.
  destruct (resize_weak_range cfg maxy maxx d Hy Hlim Hp Ha) as (H1 & H2).
  split; [exact H1|]. split; [exact H2|].
  intros Hx. subst d'. rewrite resize_ball_y, resize_bottom_row.
  destruct (Z.gtb_spec (ball_x d) maxx); [lia|].
  destruct (Z.gtb_spec (ball_y d) (int_sub maxy 1)); lia.
Qed.

Lemma resize_keeps_inside_witness :
  let d' := resize_handler sample_config 4 80 (set_ball_y 15 sample_game) in
  in_int (4 - 1) /\ in_int (4 - 1 - half_width sample_config)
  /\ half_width sample_config <= paddle_pos sample_game
  /\ half_width sample_config <= ai_paddle_pos sample_game
  /\ ball_x sample_game <= 80
  /\ half_width sample_config <= paddle_pos d' <= 2
  /\ ball_y d' <= bottom_row d'.
Proof.
  intros d'.
  assert (H1 : in_int (4 - 1)) by by_eval.
  assert (H2 : in_int (4 - 1 - half_width sample_config)) by by_eval.
  assert (H3 : half_width sample_config <= paddle_pos sample_game) by by_eval.
  assert (H4 : half_width sample_config <= ai_paddle_pos sample_game) by by_eval.
  assert (H5 : ball_x sample_game <= 80) by by_eval.
  split; [exact H1|]. split; [exact H2|]. split; [exact H3|].
  split; [exact H4|]. split; [exact H5|].
  pose proof (resize_keeps_inside sample_config 4 80 (set_ball_y 15 sample_game)
                H1 H2 H3 H4) as (Hp & _ & Hb).
  split; [exact Hp | exact (Hb H5)].
Defined.

(** X3: the signal listener never returns and never waits on the game:
    it ends the process exactly when one of the signals delivered is a
    termination signal, and until then it has changed nothing but what
    the resize handler writes. *)
Theorem signal_listener_outcome
  (cfg : config) (sigs : list (signal * Z * Z)) (d : game_data) :
  (signal_listener cfg sigs d = Exited
   <-> Exists (fun s => fatal (fst (fst s)) = true) sigs)
  /\ (~ Exists (fun s => fatal (fst (fst s)) = true) sigs ->
      exists d', signal_listener cfg sigs d = Next d' /\ resize_frame d d').
Proof.
  assert (Hrefl : forall x, resize_frame x x) by (intros x; repeat split).
  assert (Htrans : forall x y z,
             resize_frame x y -> resize_frame y z -> resize_frame x z).
  { unfold resize_frame. intros x y z Hxy Hyz. intuition congruence. }
  revert d. induction sigs as [|[[sig my] mx] rest IH]; intros d.
  - cbn. split.
    + split; [discriminate | intros H; inversion H].
    + intros _. exists d. auto.
  - cbn [signal_listener].
    destruct sig; cbn [signal_iter bind];
      try (split; [split; [intros _; left; reflexivity | reflexivity]
                  | intros Hno; exfalso; apply Hno; left; reflexivity]).
    + destruct (IH (resize_handler cfg my mx d)) as (Hex & Hne). split.
      * rewrite Hex. split; [intros H; right; exact H|].
        intros H. inversion H as [? ? Hf | ? ? Hr]; subst;
          [discriminate Hf | exact Hr].
      * intros Hno. destruct Hne as (d' & Hd' & Hf).
        { intros H. apply Hno. right. exact H. }
        exists d'. split; [exact Hd'|].
        exact (Htrans _ _ _ (resize_leaves cfg my mx d) Hf).
    + destruct (IH d) as (Hex & Hne). split.
      * rewrite Hex. split; [intros H; right; exact H|].
        intros H. inversion H as [? ? Hf | ? ? Hr]; subst;
          [discriminate Hf | exact Hr].
      * intros Hno. apply Hne. intros H. apply Hno. right. exact H.
Qed.

Lemma signal_listener_outcome_witness :
  let sigs := [(SIGOTHER, 24, 80); (SIGWINCH, 30, 100)] in
  ~ Exists (fun s => fatal (fst (fst s)) = true) sigs
  /\ exists d', signal_listener sample_config sigs sample_game = Next d'
                /\ resize_frame sample_game d'.
Proof.
  intros sigs.
  assert (H : ~ Exists (fun s => fatal (fst (fst s)) = true) sigs).
  { intros H. inversion H as [? ? Hf | ? ? Hr]; subst; [discriminate Hf|].
    inversion Hr as [? ? Hf | ? ? Hr']; subst; [discriminate Hf|].
    inversion Hr'. }
  split; [exact H|].
  exact (proj2 (signal_listener_outcome sample_config sigs sample_game) H).
Defined.

(** ** Which worker writes which field *)

Lemma ball_frame_refl (d : game_data) : ball_frame d d.
Proof. repeat split. Qed.

Lemma ball_frame_trans (x y z : game_data) :
  ball_frame x y -> ball_frame y z -> ball_frame x z.
Proof. unfold ball_frame. intros Hxy Hyz. intuition congruence. Qed.

Section BallFrame.

Variable cfg : config.

Lemma before_pads_leaves (d : game_data) :
  ball_frame d (reflect_walls cfg (move_ball d)).
Proof.
  unfold ball_frame, reflect_walls, move_ball. fields. case_if; fields;
    repeat split.
Qed.

Lemma bounce_leaves (d : game_data) : ball_frame d (bounce d).
Proof. unfold ball_frame, bounce. fields. repeat split. Qed.

Lemma round_over_leaves (w : Z) (d : game_data) : ball_frame d (round_over w d).
Proof. unfold ball_frame, round_over. fields. repeat split. Qed.

Lemma count_hit_leaves (keys : list Z) (d d' : game_data) :
  state_after fst (count_hit cfg keys d) = Some d' -> ball_frame d d'.
Proof.
  intros Hst. pose proof (count_hit_cases cfg keys d) as Hc.
  destruct (count_hit cfg keys d) as [[d2 r]| | |d2|]; cbn in Hst;
    try contradiction; try discriminate; injection Hst as <-.
  - destruct Hc as [(_ & ->) | (_ & _ & ->)]; unfold ball_frame, levelled;
      fields; repeat split.
  - destruct Hc as (_ & ->). unfold ball_frame, levelled; fields.
    repeat split.
Qed.

Lemma player_pad_leaves (keys : list Z) (d d' : game_data) :
  state_after fst (player_pad cfg keys d) = Some d' -> ball_frame d d'.
Proof.
  intros Hst.
  destruct (Z.eqb_spec (ball_x d) (paddle_col d)) as [Hcol | Hne].
  - destruct (on_pad cfg (paddle_pos d) d) eqn:Hhit.
    + destruct (player_pad_accepted_state cfg keys d d' Hcol Hhit Hst)
        as (d2 & Hc & Hd').
      pose proof (ball_frame_trans _ _ _ (bounce_leaves d)
                    (count_hit_leaves keys (bounce d) d2 Hc)) as Hf.
      destruct Hd' as [-> | (-> & _)]; [exact Hf|].
      exact (ball_frame_trans _ _ _ Hf (round_over_leaves WINNER_HUMAN d2)).
    + rewrite (player_pad_missed cfg keys d Hcol Hhit) in Hst.
      injection Hst as <-. apply round_over_leaves.
  - rewrite (player_pad_away cfg keys d Hne) in Hst. injection Hst as <-.
    apply ball_frame_refl.
Qed.

Lemma ai_pad_leaves (d d' : game_data) :
  state_after (fun x => x) (ai_pad cfg d) = Some d' -> ball_frame d d'.
Proof.
  unfold ai_pad. repeat case_if; cbn [state_after]; intros Hst;
    injection Hst as <-;
    [apply bounce_leaves | apply round_over_leaves | apply ball_frame_refl].
Qed.

(** The possible ends of the two paddle phases in sequence. *)
Lemma pads_ends (keys : list Z) (d1 : game_data) :
  match ('(d2, rest) <- player_pad cfg keys d1 ;;
         d3 <- ai_pad cfg d2 ;;
         Next (write_tag BALL_TAG d3, rest)) with
  | Next (d', rest) =>
      exists d2 d3, player_pad cfg keys d1 = Next (d2, rest)
                    /\ ai_pad cfg d2 = Next d3 /\ d' = write_tag BALL_TAG d3
  | Returned d' =>
      player_pad cfg keys d1 = Returned d'
      \/ exists d2 rest, player_pad cfg keys d1 = Next (d2, rest)
                         /\ ai_pad cfg d2 = Returned d'
  | Blocked d' => player_pad cfg keys d1 = Blocked d'
  | Exited => player_pad cfg keys d1 = Exited
  | Spinning _ => False
  end.
Proof.
  pose proof (player_pad_accepted cfg keys d1) as Hacc.
  destruct (player_pad cfg keys d1) as [[d2 r]|d2| |d2|d2] eqn:Hpp;
    cbn [bind]; auto.
  - destruct (ai_pad cfg d2) as [d3|d3| |d3|d3] eqn:Ha; cbn [bind];
      try (exfalso; unfold ai_pad in Ha;
           destruct (ball_x d2 =? ai_paddle_col d2);
           [destruct (on_pad cfg (ai_paddle_pos d2) d2)|]; discriminate).
    + exists d2, d3. auto.
    + right. exists d2, r. auto.
  - unfold player_pad in Hpp.
    destruct (ball_x d1 =? paddle_col d1) eqn:Ecol; [|discriminate].
    destruct (on_pad cfg (paddle_pos d1) d1) eqn:Ehit; [|discriminate].
    apply Z.eqb_eq in Ecol. specialize (Hacc Ecol eq_refl). exact Hacc.
Qed.

(** The possible ends of a ball iteration that started running, in
    terms of its two paddle phases. *)
Lemma ball_iter_ends (keys : list Z) (d : game_data) :
  haltFlag d = 0 ->
  let d1 := reflect_walls cfg (move_ball d) in
  match ball_iter cfg keys d with
  | Next (d', rest) =>
      exists d2 d3, player_pad cfg keys d1 = Next (d2, rest)
                    /\ ai_pad cfg d2 = Next d3 /\ d' = write_tag BALL_TAG d3
  | Returned d' =>
      player_pad cfg keys d1 = Returned d'
      \/ exists d2 rest, player_pad cfg keys d1 = Next (d2, rest)
                         /\ ai_pad cfg d2 = Returned d'
  | Blocked d' => player_pad cfg keys d1 = Blocked d'
  | Exited => player_pad cfg keys d1 = Exited
  | Spinning _ => False
  end.
Proof.
  intros Hh d1. rewrite (ball_iter_running cfg keys d Hh).
  exact (pads_ends keys d1).
Qed.

Lemma ball_iter_leaves (keys : list Z) (d d' : game_data) :
  state_after fst (ball_iter cfg keys d) = Some d' -> ball_frame d d'.
Proof.
  intros Hst. destruct (Z.eq_dec (haltFlag d) 0) as [Hh | Hh].
  - pose proof (ball_iter_ends keys d Hh) as He. cbv zeta in He.
    pose proof (before_pads_leaves d) as H0.
    destruct (ball_iter cfg keys d) as [[d1 r]|d1| |d1|d1]; cbn in Hst;
      try contradiction; try discriminate; injection Hst as ->.
    + destruct He as (d2 & d3 & Hp & Ha & ->).
      assert (F1 : ball_frame (reflect_walls cfg (move_ball d)) d2)
        by (apply (player_pad_leaves keys); rewrite Hp; reflexivity).
      assert (F2 : ball_frame d2 d3)
        by (apply ai_pad_leaves; rewrite Ha; reflexivity).
      apply (ball_frame_trans _ _ _ H0), (ball_frame_trans _ _ _ F1),
        (ball_frame_trans _ _ _ F2).
      unfold ball_frame. fields. repeat split.
    + destruct He as [Hp | (d2 & r & Hp & Ha)].
      * apply (ball_frame_trans _ _ _ H0), (player_pad_leaves keys).
        rewrite Hp. reflexivity.
      * assert (F1 : ball_frame (reflect_walls cfg (move_ball d)) d2)
          by (apply (player_pad_leaves keys); rewrite Hp; reflexivity).
        apply (ball_frame_trans _ _ _ H0), (ball_frame_trans _ _ _ F1),
          ai_pad_leaves. rewrite Ha. reflexivity.
    + apply (ball_frame_trans _ _ _ H0), (player_pad_leaves keys).
      rewrite He. reflexivity.
  - rewrite (ball_iter_halted cfg keys d Hh) in Hst. injection Hst as <-.
    apply ball_frame_refl.
Qed.

Lemma dispatch_key_leaves (i : input) (d : game_data) :
  keyboard_frame d (dispatch_key cfg i d).
Proof.
  unfold keyboard_frame, dispatch_key. cbv zeta.
  repeat (case_if; fields); try destruct (in_pointer i); fields;
    repeat split.
Qed.

Lemma ai_move_leaves (d : game_data) : ai_frame d (ai_move cfg d).
Proof.
  unfold ai_frame, ai_move. fields. case_if; fields; repeat split.
Qed.

End BallFrame.

Lemma step_leaves (cfg : config) (e : event) (d d' : game_data) :
  step cfg e d = Some d' ->
  match e with
  | Key _ => keyboard_frame d d'
  | Ball _ => ball_frame d d'
  | Ai => ai_frame d d'
  | Signal _ _ _ => resize_frame d d'
  end.
Proof.
  intros Hst. destruct e as [i|keys| |sig my mx]; cbn [step] in Hst.
  - unfold keyboard_iter in Hst.
    destruct (termination_flag d =? 0); [destruct (haltFlag d =? 0)|];
      cbn [negb state_after] in Hst; injection Hst as <-;
      try (repeat split; fail).
    apply dispatch_key_leaves.
  - exact (ball_iter_leaves cfg keys d d' Hst).
  - unfold ai_iter in Hst.
    destruct (termination_flag d =? 0); [destruct (haltFlag d =? 0)|];
      cbn [negb state_after] in Hst; injection Hst as <-;
      try (repeat split; fail).
    apply ai_move_leaves.
  - destruct sig; cbn [signal_iter state_after] in Hst; try discriminate;
      injection Hst as <-; try (repeat split; fail).
    apply resize_leaves.
Qed.

(** X4: each worker writes only its own fields.  An iteration of the
    keyboard worker leaves the ball, the AI paddle, the counters, the
    field size, [haltFlag], [termination_flag] and [winner] alone; a
    ball iteration leaves both paddles, the field size, [exit_flag] and
    [termination_flag] alone; an AI iteration changes nothing but the
    AI paddle and the pipe; a signal changes nothing but the field
    size, the paddle positions and the ball row. *)
Theorem step_writes_own_fields
  (cfg : config) (e : event) (d d' : game_data) :
  step cfg e d = Some d' ->
  match e with
  | Key _ => keyboard_frame d d'
  | Ball _ => ball_frame d d'
  | Ai => ai_frame d d'
  | Signal _ _ _ => resize_frame d d'
  end.
Proof. apply step_leaves. Qed.

Lemma step_writes_own_fields_witness :
  let d' := dispatch_key sample_config (mkInput KEY_UP None) sample_game in
  step sample_config (Key (mkInput KEY_UP None)) sample_game = Some d'
  /\ keyboard_frame sample_game d'.
Proof.
  intros d'.
  assert (H : step sample_config (Key (mkInput KEY_UP None)) sample_game
              = Some d') by reflexivity.
  split; [exact H|].
  exact (step_writes_own_fields sample_config (Key (mkInput KEY_UP None))
           sample_game d' H).
Defined.

(** X5: no worker ever writes [termination_flag] or the AI paddle
    column: after any sequence of worker iterations both are what they
    were.  (So the loops of the keyboard and AI workers, which run
    until [termination_flag] is set, are not ended by any worker.) *)
Theorem run_constants (cfg : config) (es : list event) (d d' : game_data) :
  run cfg es d = Some d' ->
  termination_flag d' = termination_flag d
  /\ ai_paddle_col d' = ai_paddle_col d.
Proof.
  revert d. induction es as [|e es IH]; intros d Hrun; cbn [run] in Hrun.
  - injection Hrun as <-. auto.
  - destruct (step cfg e d) as [d1|] eqn:Hst; [|discriminate].
    destruct (IH d1 Hrun) as (E1 & E2). rewrite E1, E2.
    pose proof (step_leaves cfg e d d1 Hst) as Hf.
    destruct e; unfold keyboard_frame, ball_frame, ai_frame, resize_frame in Hf;
      intuition congruence.
Qed.

Lemma run_constants_witness :
  let es := [Key (mkInput KEY_UP None); Ball []; Ai; Signal SIGWINCH 30 100] in
  exists d', run sample_config es sample_game = Some d'
             /\ termination_flag d' = termination_flag sample_game
             /\ ai_paddle_col d' = ai_paddle_col sample_game.
Proof.
  intros es. eexists. split; [vm_compute; reflexivity|].
  apply (run_constants sample_config es sample_game). vm_compute. reflexivity.
Defined.

(** ** Notifications *)

Section Notifications.

Variable cfg : config.

Lemma count_hit_quiet (keys : list Z) (d : game_data) :
  haltFlag d = 0 ->
  match count_hit cfg keys d with
  | Next (d', _) =>
      pipe d' = pipe d /\ play_flag d' = play_flag d /\ winner d' = winner d
      /\ haltFlag d' = 0
  | Blocked d' =>
      pipe d' = pipe d /\ play_flag d' = play_flag d /\ winner d' = winner d
      /\ haltFlag d' = 1
  | Exited => True
  | Returned _ | Spinning _ => False
  end.
Proof.
  intros Hh. pose proof (count_hit_cases cfg keys d) as Hc.
  destruct (count_hit cfg keys d) as [[d2 r]|d2| |d2|d2]; auto.
  - destruct Hc as [(_ & ->) | (_ & _ & ->)]; unfold levelled; fields; auto.
  - destruct Hc as (_ & ->). unfold levelled; fields. auto.
Qed.

Lemma player_pad_quiet (keys : list Z) (d : game_data) :
  haltFlag d = 0 ->
  match player_pad cfg keys d with
  | Next (d', _) =>
      pipe d' = pipe d /\ play_flag d' = play_flag d /\ winner d' = winner d
      /\ haltFlag d' = 0
  | Returned d' =>
      pipe d' = pipe d ++ [QUIT_TAG] /\ play_flag d' = 0
      /\ (winner d' = WINNER_HUMAN \/ winner d' = WINNER_AI)
      /\ haltFlag d' = 0
  | Blocked d' =>
      pipe d' = pipe d /\ play_flag d' = play_flag d /\ winner d' = winner d
      /\ haltFlag d' = 1
  | Exited => True
  | Spinning _ => False
  end.
Proof.
  intros Hh. unfold player_pad.
  destruct (ball_x d =? paddle_col d); [|auto].
  destruct (on_pad cfg (paddle_pos d) d).
  - assert (Hb : haltFlag (bounce d) = 0) by (unfold bounce; fields; exact Hh).
    pose proof (count_hit_quiet keys (bounce d) Hb) as Hq.
    assert (Eb : pipe (bounce d) = pipe d /\ play_flag (bounce d) = play_flag d
                 /\ winner (bounce d) = winner d)
      by (unfold bounce; fields; auto).
    destruct Eb as (E1 & E2 & E3). rewrite E1, E2, E3 in Hq.
    destruct (count_hit cfg keys (bounce d)) as [[d2 r]|d2| |d2|d2];
      cbn [bind]; try contradiction; auto.
    destruct Hq as (Q1 & Q2 & Q3 & Q4).
    destruct (gameLevel d2 >? MAX_LEVEL cfg); [|auto].
    unfold round_over. fields. rewrite Q1. auto.
  - unfold round_over. fields. auto.
Qed.

Lemma ai_pad_quiet (d : game_data) :
  match ai_pad cfg d with
  | Next d' =>
      pipe d' = pipe d /\ play_flag d' = play_flag d /\ winner d' = winner d
      /\ haltFlag d' = haltFlag d
  | Returned d' =>
      pipe d' = pipe d ++ [QUIT_TAG] /\ play_flag d' = 0
      /\ winner d' = WINNER_HUMAN /\ haltFlag d' = haltFlag d
  | _ => False
  end.
Proof.
  unfold ai_pad. repeat case_if; unfold bounce, round_over; fields; auto.
Qed.

Lemma before_pads_quiet (d : game_data) :
  let d1 := reflect_walls cfg (move_ball d) in
  pipe d1 = pipe d /\ play_flag d1 = play_flag d /\ winner d1 = winner d
  /\ haltFlag d1 = haltFlag d.
Proof.
  unfold reflect_walls, move_ball. fields. case_if; fields; auto.
Qed.

Lemma ball_iter_notifies (keys : list Z) (d : game_data) :
  haltFlag d = 0 ->
  match ball_iter cfg keys d with
  | Next (d', _) =>
      pipe d' = pipe d ++ [BALL_TAG] /\ play_flag d' = play_flag d
      /\ winner d' = winner d /\ haltFlag d' = 0
  | Returned d' =>
      pipe d' = pipe d ++ [QUIT_TAG] /\ play_flag d' = 0
      /\ (winner d' = WINNER_HUMAN \/ winner d' = WINNER_AI)
      /\ haltFlag d' = 0
  | Blocked d' =>
      pipe d' = pipe d /\ play_flag d' = play_flag d /\ winner d' = winner d
      /\ haltFlag d' = 1
  | Exited => True
  | Spinning _ => False
  end.
Proof.
  intros Hh. pose proof (ball_iter_ends cfg keys d Hh) as He. cbv zeta in He.
  destruct (before_pads_quiet d) as (B1 & B2 & B3 & B4).
  rewrite Hh in B4.
  pose proof (player_pad_quiet keys (reflect_walls cfg (move_ball d)) B4) as Hp.
  rewrite B1, B2, B3 in Hp.
  destruct (ball_iter cfg keys d) as [[d1 r]|d1| |d1|d1]; auto.
  - destruct He as (d2 & d3 & Ep & Ea & ->). rewrite Ep in Hp.
    destruct Hp as (P1 & P2 & P3 & P4).
    pose proof (ai_pad_quiet d2) as Ha. rewrite Ea in Ha.
    destruct Ha as (A1 & A2 & A3 & A4). fields.
    rewrite A1, A2, A3, A4, P1, P2, P3, P4. auto.
  - destruct He as [Ep | (d2 & r & Ep & Ea)].
    + rewrite Ep in Hp. exact Hp.
    + rewrite Ep in Hp. destruct Hp as (P1 & P2 & P3 & P4).
      pose proof (ai_pad_quiet d2) as Ha. rewrite Ea in Ha.
      destruct Ha as (A1 & A2 & A3 & A4).
      rewrite A1, A2, A3, A4, P1, P4. auto.
  - rewrite He in Hp. exact Hp.
Qed.

(** What one worker iteration adds to the pipe: nothing, or one tag. *)
Lemma step_pipe (e : event) (d d' : game_data) :
  step cfg e d = Some d' ->
  pipe d' = pipe d
  \/ exists t, pipe d' = pipe d ++ [t]
               /\ match e with
                  | Key _ => t = KBD_TAG \/ t = QUIT_TAG
                  | Ball _ => t = BALL_TAG \/ t = QUIT_TAG
                  | Ai => t = AI_TAG
                  | Signal _ _ _ => False
                  end.
Proof.
  intros Hst. destruct e as [i|keys| |sig my mx]; cbn [step] in Hst.
  - unfold keyboard_iter in Hst.
    destruct (termination_flag d =? 0); [destruct (haltFlag d =? 0)|];
      cbn [negb state_after] in Hst; injection Hst as <-; auto.
    unfold dispatch_key. cbv zeta.
    repeat (case_if; fields); try destruct (in_pointer i); fields; eauto.
  - destruct (Z.eq_dec (haltFlag d) 0) as [Hh | Hh].
    + pose proof (ball_iter_notifies keys d Hh) as Hn.
      destruct (ball_iter cfg keys d) as [[d1 r]|d1| |d1|d1]; cbn in Hst;
        try contradiction; try discriminate; injection Hst as ->.
      * right. exists BALL_TAG. split; [apply Hn | auto].
      * right. exists QUIT_TAG. split; [apply Hn | auto].
      * left. apply Hn.
    + rewrite (ball_iter_halted cfg keys d Hh) in Hst. injection Hst as <-.
      auto.
  - unfold ai_iter in Hst.
    destruct (termination_flag d =? 0); [destruct (haltFlag d =? 0)|];
      cbn [negb state_after] in Hst; injection Hst as <-; auto.
    right. exists AI_TAG. unfold ai_move. fields. case_if; fields; auto.
  - left. pose proof (step_leaves cfg (Signal sig my mx) d d' Hst) as Hf.
    apply Hf.
Qed.

End Notifications.

(** X6: a ball iteration that starts running and completes writes
    exactly one tag: [BALL_TAG] when the round goes on, with
    [play_flag] and [winner] untouched, and [QUIT_TAG] when the thread
    returns, with [play_flag = 0] and [winner] set to the human or the
    ai.  In both cases [haltFlag] is 0 again; the only state in which
    the ball worker leaves [haltFlag] raised is the one in which it
    waits for a key in the level pause, and it has written nothing
    then. *)
Theorem ball_iteration_notifies (cfg : config) (keys : list Z) (d : game_data) :
  haltFlag d = 0 ->
  match ball_iter cfg keys d with
  | Next (d', _) =>
      pipe d' = pipe d ++ [BALL_TAG] /\ play_flag d' = play_flag d
      /\ winner d' = winner d /\ haltFlag d' = 0
  | Returned d' =>
      pipe d' = pipe d ++ [QUIT_TAG] /\ play_flag d' = 0
      /\ (winner d' = WINNER_HUMAN \/ winner d' = WINNER_AI)
      /\ haltFlag d' = 0
  | Blocked d' =>
      pipe d' = pipe d /\ play_flag d' = play_flag d /\ winner d' = winner d
      /\ haltFlag d' = 1
  | Exited => True
  | Spinning _ => False
  end.
Proof. apply ball_iter_notifies. Qed.

Lemma ball_iteration_notifies_witness :
  let d := set_paddle_pos 17 (set_ball_x 78 sample_game) in
  haltFlag d = 0
  /\ exists d', ball_iter sample_config [] d = Returned d'
                /\ pipe d' = pipe d ++ [QUIT_TAG] /\ play_flag d' = 0.
Proof.
  intros d.
  assert (H : haltFlag d = 0) by reflexivity.
  split; [exact H|].
  pose proof (ball_iteration_notifies sample_config [] d H) as Hn.
  destruct (ball_iter sample_config [] d) as [[d1 r]|d1| |d1|d1] eqn:E;
    try (vm_compute in E; discriminate E).
  exists d1. split; [reflexivity|]. split; apply Hn.
Defined.

(** X7: a worker iteration adds at most one tag to the pipe and removes
    none; the keyboard worker writes only [KBD_TAG] or [QUIT_TAG], the
    ball worker only [BALL_TAG] or [QUIT_TAG], the AI worker only
    [AI_TAG], and the signal listener writes nothing. *)
Theorem step_writes_one_tag (cfg : config) (e : event) (d d' : game_data) :
  step cfg e d = Some d' ->
  pipe d' = pipe d
  \/ exists t, pipe d' = pipe d ++ [t]
               /\ match e with
                  | Key _ => t = KBD_TAG \/ t = QUIT_TAG
                  | Ball _ => t = BALL_TAG \/ t = QUIT_TAG
                  | Ai => t = AI_TAG
                  | Signal _ _ _ => False
                  end.
Proof. apply step_pipe. Qed.

Lemma step_writes_one_tag_witness :
  step sample_config Ai sample_game = Some (ai_move sample_config sample_game)
  /\ (pipe (ai_move sample_config sample_game) = pipe sample_game
      \/ exists t, pipe (ai_move sample_config sample_game)
                   = pipe sample_game ++ [t] /\ t = AI_TAG).
Proof.
  assert (H : step sample_config Ai sample_game
              = Some (ai_move sample_config sample_game)) by reflexivity.
  split; [exact H|].
  exact (step_writes_one_tag sample_config Ai sample_game _ H).
Defined.

(** X8: the pipe only grows: after any sequence of worker iterations
    the pipe is the old pipe followed by at most one tag per
    iteration. *)
Theorem run_pipe_grows (cfg : config) (es : list event) (d d' : game_data) :
  run cfg es d = Some d' ->
  exists l, pipe d' = pipe d ++ l /\ (length l <= length es)%nat.
Proof.
  revert d. induction es as [|e es IH]; intros d Hrun; cbn [run] in Hrun.
  - injection Hrun as <-. exists []. rewrite app_nil_r. auto.
  - destruct (step cfg e d) as [d1|] eqn:Hst; [|discriminate].
    destruct (IH d1 Hrun) as (l & El & Hl).
    destruct (step_pipe cfg e d d1 Hst) as [E1 | (t & E1 & _)].
    + exists l. rewrite El, E1. cbn [length]. split; [reflexivity | lia].
    + exists (t :: l). rewrite El, E1, <- app_assoc. cbn [app length].
      split; [reflexivity | lia].
Qed.

Lemma run_pipe_grows_witness :
  let es := [Key (mkInput KEY_UP None); Ball []; Ai] in
  exists d', run sample_config es sample_game = Some d'
             /\ exists l, pipe d' = pipe sample_game ++ l
                          /\ (length l <= length es)%nat.
Proof.
  intros es. eexists. split; [vm_compute; reflexivity|].
  apply (run_pipe_grows sample_config es sample_game). vm_compute. reflexivity.
Defined.

(** ** The keyboard worker *)

Section KeyboardFacts.

Variable cfg : config.

Lemma dispatch_key_up (i : input) (d : game_data) :
  in_key i = KEY_UP ->
  paddle_pos_old (dispatch_key cfg i d) = paddle_pos d
  /\ pipe (dispatch_key cfg i d) = pipe d ++ [KBD_TAG]
  /\ bottom_row (dispatch_key cfg i d) = bottom_row d
  /\ paddle_pos (dispatch_key cfg i d)
     = (if paddle_pos d >? half_width cfg
        then int_sub (paddle_pos d) 1 else paddle_pos d).
Proof.
  intros Hk. unfold dispatch_key. cbv zeta. rewrite Hk.
  change (KEY_UP =? KEY_UP) with true. fields. case_if; fields; auto.
Qed.

Lemma dispatch_key_down (i : input) (d : game_data) :
  in_key i = KEY_DOWN ->
  paddle_pos_old (dispatch_key cfg i d) = paddle_pos d
  /\ pipe (dispatch_key cfg i d) = pipe d ++ [KBD_TAG]
  /\ bottom_row (dispatch_key cfg i d) = bottom_row d
  /\ paddle_pos (dispatch_key cfg i d)
     = (if paddle_pos d <? int_sub (bottom_row d) (half_width cfg)
        then int_add (paddle_pos d) 1 else paddle_pos d).
Proof.
  intros Hk. unfold dispatch_key. cbv zeta. rewrite Hk.
  change (KEY_DOWN =? KEY_UP) with false.
  change (KEY_DOWN =? KEY_DOWN) with true.
  fields. case_if; fields; auto.
Qed.

End KeyboardFacts.

(** X9: an arrow key moves the player's paddle by at most one row, in
    its own direction, and not at all at the limit
    ([PADDLE_WIDTH/2] for up, [bottom_row - PADDLE_WIDTH/2] as the code
    computes it for down); in every case the old position is saved in
    [paddle_pos_old] and one [KBD_TAG] is written. *)
Theorem arrow_key_moves_one_row (cfg : config) (i : input) (d : game_data) :
  in_int (paddle_pos d) -> in_int (half_width cfg) ->
  in_key i = KEY_UP \/ in_key i = KEY_DOWN ->
  let d' := dispatch_key cfg i d in
  let limit := int_sub (bottom_row d) (half_width cfg) in
  paddle_pos_old d' = paddle_pos d
  /\ pipe d' = pipe d ++ [KBD_TAG]
  /\ (in_key i = KEY_UP ->
      (half_width cfg < paddle_pos d -> paddle_pos d' = paddle_pos d - 1)
      /\ (paddle_pos d <= half_width cfg -> paddle_pos d' = paddle_pos d))
  /\ (in_key i = KEY_DOWN ->
      (paddle_pos d < limit -> paddle_pos d' = paddle_pos d + 1)
      /\ (limit <= paddle_pos d -> paddle_pos d' = paddle_pos d)).
Proof.
  intros Hp Hhalf Hkey d' limit. subst d' limit.
  pose proof (wrap_in_int (bottom_row d - half_width cfg)) as Hlim.
  fold (int_sub (bottom_row d) (half_width cfg)) in Hlim.
  destruct Hkey as [Hk | Hk].
  - destruct (dispatch_key_up cfg i d Hk) as (E1 & E2 & _ & E3).
    rewrite E1, E2, E3. split; [reflexivity|]. split; [reflexivity|].
    split; [intros _ | intros Hk'; rewrite Hk in Hk'; discriminate Hk'].
    destruct (Z.gtb_spec (paddle_pos d) (half_width cfg)).
    + split; [intros _ | lia]. unfold int_sub. apply wrap_small.
      unfold in_int, int_min, int_max in *. lia.
    + split; [lia | reflexivity].
  - destruct (dispatch_key_down cfg i d Hk) as (E1 & E2 & _ & E3).
    rewrite E1, E2, E3. split; [reflexivity|]. split; [reflexivity|].
    split; [intros Hk'; rewrite Hk in Hk'; discriminate Hk' | intros _].
    destruct (Z.ltb_spec (paddle_pos d) (int_sub (bottom_row d) (half_width cfg))).
    + split; [intros _ | lia]. unfold int_add. apply wrap_small.
      unfold in_int, int_min, int_max in *. lia.
    + split; [lia | reflexivity].
Qed.

Lemma arrow_key_moves_one_row_witness :
  let i := mkInput KEY_DOWN None in
  in_int (paddle_pos sample_game) /\ in_int (half_width sample_config)
  /\ (in_key i = KEY_UP \/ in_key i = KEY_DOWN)
  /\ paddle_pos sample_game
     < int_sub (bottom_row sample_game) (half_width sample_config)
  /\ paddle_pos (dispatch_key sample_config i sample_game)
     = paddle_pos sample_game + 1.
Proof.
  intros i.
  assert (H1 : in_int (paddle_pos sample_game)) by by_eval.
  assert (H2 : in_int (half_width sample_config)) by by_eval.
  assert (H3 : in_key i = KEY_UP \/ in_key i = KEY_DOWN) by (right; reflexivity).
  assert (H4 : paddle_pos sample_game
               < int_sub (bottom_row sample_game) (half_width sample_config))
    by by_eval.
  split; [exact H1|]. split; [exact H2|]. split; [exact H3|].
  split; [exact H4|].
  pose proof (arrow_key_moves_one_row sample_config i sample_game H1 H2 H3)
    as (_ & _ & _ & Hd).
  exact (proj1 (Hd eq_refl) H4).
Defined.

(** X10: up and down undo each other away from the limits: strictly
    below the upper limit of the paddle (that is, with
    [PADDLE_WIDTH/2 < paddle_pos]) and not beyond the lower one, an up
    key followed by a down key brings [paddle_pos] back; and the same
    for down followed by up, away from the lower limit. *)
Theorem up_down_round_trip (cfg : config) (up down : input) (d : game_data) :
  in_int (paddle_pos d) -> in_int (half_width cfg) ->
  in_key up = KEY_UP -> in_key down = KEY_DOWN ->
  let limit := int_sub (bottom_row d) (half_width cfg) in
  (half_width cfg < paddle_pos d <= limit ->
   paddle_pos (dispatch_key cfg down (dispatch_key cfg up d)) = paddle_pos d)
  /\ (half_width cfg <= paddle_pos d < limit ->
      paddle_pos (dispatch_key cfg up (dispatch_key cfg down d)) = paddle_pos d).
Proof.
  intros Hp Hhalf Hup Hdown limit. subst limit.
  pose proof (wrap_in_int (bottom_row d - half_width cfg)) as Hlim.
  fold (int_sub (bottom_row d) (half_width cfg)) in Hlim.
  split; intros Hr.
  - destruct (dispatch_key_up cfg up d Hup) as (_ & _ & Eb & Ep).
    destruct (dispatch_key_down cfg down (dispatch_key cfg up d) Hdown)
      as (_ & _ & _ & Ep').
    rewrite Ep', Eb, Ep.
    destruct (Z.gtb_spec (paddle_pos d) (half_width cfg)); [|lia].
    assert (E : int_sub (paddle_pos d) 1 = paddle_pos d - 1).
    { unfold int_sub. apply wrap_small. unfold in_int, int_min, int_max in *. lia. }
    rewrite E.
    destruct (Z.ltb_spec (paddle_pos d - 1)
                (int_sub (bottom_row d) (half_width cfg))); [|lia].
    unfold int_add. replace (paddle_pos d - 1 + 1) with (paddle_pos d) by lia.
    apply wrap_small, Hp.
  - destruct (dispatch_key_down cfg down d Hdown) as (_ & _ & Eb & Ep).
    destruct (dispatch_key_up cfg up (dispatch_key cfg down d) Hup)
      as (_ & _ & _ & Ep').
    rewrite Ep', Ep.
    destruct (Z.ltb_spec (paddle_pos d)
                (int_sub (bottom_row d) (half_width cfg))); [|lia].
    assert (E : int_add (paddle_pos d) 1 = paddle_pos d + 1).
    { unfold int_add. apply wrap_small. unfold in_int, int_min, int_max in *. lia. }
    rewrite E.
    destruct (Z.gtb_spec (paddle_pos d + 1) (half_width cfg)); [|lia].
    unfold int_sub. replace (paddle_pos d + 1 - 1) with (paddle_pos d) by lia.
    apply wrap_small, Hp.
Qed.

Lemma up_down_round_trip_witness :
  let up := mkInput KEY_UP None in
  let down := mkInput KEY_DOWN None in
  in_int (paddle_pos sample_game) /\ in_int (half_width sample_config)
  /\ in_key up = KEY_UP /\ in_key down = KEY_DOWN
  /\ half_width sample_config < paddle_pos sample_game
     <= int_sub (bottom_row sample_game) (half_width sample_config)
  /\ paddle_pos (dispatch_key sample_config down
                   (dispatch_key sample_config up sample_game))
     = paddle_pos sample_game.
Proof.
  intros up down.
  assert (H1 : in_int (paddle_pos sample_game)) by by_eval.
  assert (H2 : in_int (half_width sample_config)) by by_eval.
  assert (H3 : in_key up = KEY_UP) by reflexivity.
  assert (H4 : in_key down = KEY_DOWN) by reflexivity.
  assert (H5 : half_width sample_config < paddle_pos sample_game
               <= int_sub (bottom_row sample_game) (half_width sample_config))
    by by_eval.
  split; [exact H1|]. split; [exact H2|]. split; [exact H3|].
  split; [exact H4|]. split; [exact H5|].
  exact (proj1 (up_down_round_trip sample_config up down sample_game
                  H1 H2 H3 H4) H5).
Defined.

(** ** The AI worker *)

(** X11: an AI move changes the AI paddle by at most one row and never
    takes it further from the ball row. *)
Theorem ai_move_approaches (cfg : config) (d : game_data) :
  coord (ball_y d) -> coord (ai_paddle_pos d) ->
  let d' := ai_move cfg d in
  Z.abs (ai_paddle_pos d' - ai_paddle_pos d) <= 1
  /\ Z.abs (ball_y d - ai_paddle_pos d') <= Z.abs (ball_y d - ai_paddle_pos d)
  /\ (ai_paddle_pos d' <> ai_paddle_pos d ->
      Z.abs (ball_y d - ai_paddle_pos d')
      = Z.abs (ball_y d - ai_paddle_pos d) - 1).
Proof.
  intros Hy Hp d'. subst d'.
  destruct (ai_move_fields cfg d) as (_ & Hnew & _).
  rewrite Hnew, (ai_target_sign d Hy Hp).
  destruct ((ai_paddle_pos d + Z.sgn (ball_y d - ai_paddle_pos d)
             >=? half_width cfg)
            && (ai_paddle_pos d + Z.sgn (ball_y d - ai_paddle_pos d)
                <=? int_sub (bottom_row d) (half_width cfg))).
  - pose proof (Z.sgn_spec (ball_y d - ai_paddle_pos d)) as Hs. lia.
  - lia.
Qed.

Lemma ai_move_approaches_witness :
  let d := set_ball_y 14 sample_game in
  coord (ball_y d) /\ coord (ai_paddle_pos d)
  /\ Z.abs (ball_y d - ai_paddle_pos (ai_move sample_config d))
     <= Z.abs (ball_y d - ai_paddle_pos d).
Proof.
  intros d.
  assert (H1 : coord (ball_y d)) by by_eval.
  assert (H2 : coord (ai_paddle_pos d)) by by_eval.
  split; [exact H1|]. split; [exact H2|].
  exact (proj1 (proj2 (ai_move_approaches sample_config d H1 H2))).
Defined.

(** X12: the AI paddle catches a ball row that stands still.  When the
    ball row is a legal paddle position, the AI paddle is in its range
    and the workers are neither halted nor terminated, after [n] iterations of the AI worker the
    distance between the AI paddle and the ball row is what it was
    minus [n], or 0 once it has been reached; each iteration has
    written one [AI_TAG]. *)
Theorem ai_handler_catches_up (cfg : config) (n : nat) (d : game_data) :
  termination_flag d = 0 -> haltFlag d = 0 ->
  coord (ball_y d) -> coord (ai_paddle_pos d) ->
  in_int (bottom_row d - half_width cfg) ->
  in_paddle_range cfg d (ball_y d) ->
  in_paddle_range cfg d (ai_paddle_pos d) ->
  exists d', ai_handler cfg n d = Next d'
             /\ Z.abs (ball_y d - ai_paddle_pos d')
                = Z.max 0 (Z.abs (ball_y d - ai_paddle_pos d) - Z.of_nat n)
             /\ ball_y d' = ball_y d
             /\ pipe d' = pipe d ++ repeat AI_TAG n.
Proof.
  revert d. induction n as [|n IH]; intros d Ht Hh Hy Hp Hb Hr Ha.
  - exists d. cbn [ai_handler repeat]. rewrite app_nil_r.
    repeat split; lia.
  - cbn [ai_handler]. unfold ai_iter. rewrite Ht, Hh. cbn [Z.eqb negb bind].
    pose proof (ai_move_leaves cfg d) as Hf. unfold ai_frame in Hf.
    destruct Hf as (Fb & _ & _ & _ & _ & _ & Fy & _ & _ & _ & _ & _ & _ & _
                    & _ & Ft & Fh & _).
    destruct (ai_move_fields cfg d) as (_ & Hnew & _).
    rewrite (ai_target_sign d Hy Hp) in Hnew.
    assert (Hs : int_sub (bottom_row d) (half_width cfg)
                 = bottom_row d - half_width cfg)
      by (unfold int_sub; now apply wrap_small).
    rewrite Hs in Hnew.
    assert (Hpipe : pipe (ai_move cfg d) = pipe d ++ [AI_TAG])
      by (unfold ai_move; fields; case_if; reflexivity).
    unfold in_paddle_range in Hr, Ha.
    pose proof (Z.sgn_spec (ball_y d - ai_paddle_pos d)) as Hsgn.
    assert (Hstep : Z.abs (ball_y d - ai_paddle_pos (ai_move cfg d))
                    = Z.max 0 (Z.abs (ball_y d - ai_paddle_pos d) - 1)
                    /\ coord (ai_paddle_pos (ai_move cfg d))
                    /\ half_width cfg <= ai_paddle_pos (ai_move cfg d)
                       <= bottom_row d - half_width cfg).
    { rewrite Hnew. unfold coord in *.
      destruct (Z.eq_dec (ball_y d) (ai_paddle_pos d)) as [Heq | Hne].
      - replace (ball_y d - ai_paddle_pos d) with 0 by lia. cbn [Z.sgn].
        rewrite Z.add_0_r.
        destruct ((ai_paddle_pos d >=? half_width cfg)
                  && (ai_paddle_pos d <=? bottom_row d - half_width cfg)); lia.
      - destruct (Z.geb_spec (ai_paddle_pos d + Z.sgn (ball_y d - ai_paddle_pos d))
                    (half_width cfg)) as [G | G];
          destruct (Z.leb_spec (ai_paddle_pos d + Z.sgn (ball_y d - ai_paddle_pos d))
                      (bottom_row d - half_width cfg)) as [L | L];
          cbn [andb]; lia. }
    destruct Hstep as (Hdist & Hcoord & Hrange).
    destruct (IH (ai_move cfg d)) as (d' & Hrun & Hd & Hy' & Hp');
      [ rewrite Ft; exact Ht | rewrite Fh; exact Hh | rewrite Fy; exact Hy
      | exact Hcoord | rewrite Fb; exact Hb
      | unfold in_paddle_range; rewrite Fy, Fb; exact Hr
      | unfold in_paddle_range; rewrite Fb; exact Hrange | ].
    exists d'. split; [exact Hrun|]. rewrite Fy in Hd, Hy'.
    split; [|split; [exact Hy'|]].
    + rewrite Hd, Hdist. lia.
    + rewrite Hp', Hpipe, <- app_assoc. reflexivity.
Qed.

Lemma ai_handler_catches_up_witness :
  let d := set_ball_y 14 sample_game in
  termination_flag d = 0 /\ haltFlag d = 0
  /\ coord (ball_y d) /\ coord (ai_paddle_pos d)
  /\ in_int (bottom_row d - half_width sample_config)
  /\ in_paddle_range sample_config d (ball_y d)
  /\ in_paddle_range sample_config d (ai_paddle_pos d)
  /\ exists d', ai_handler sample_config 6 d = Next d'
                /\ Z.abs (ball_y d - ai_paddle_pos d')
                   = Z.max 0 (Z.abs (ball_y d - ai_paddle_pos d) - 6)
                /\ ball_y d' = ball_y d
                /\ pipe d' = pipe d ++ repeat AI_TAG 6.
Proof.
  intros d.
  assert (H1 : termination_flag d = 0) by reflexivity.
  assert (H2 : haltFlag d = 0) by reflexivity.
  assert (H3 : coord (ball_y d)) by by_eval.
  assert (H4 : coord (ai_paddle_pos d)) by by_eval.
  assert (H5 : in_int (bottom_row d - half_width sample_config)) by by_eval.
  assert (H6 : in_paddle_range sample_config d (ball_y d)) by by_eval.
  assert (H7 : in_paddle_range sample_config d (ai_paddle_pos d)) by by_eval.
  split; [exact H1|]. split; [exact H2|]. split; [exact H3|].
  split; [exact H4|]. split; [exact H5|]. split; [exact H6|].
  split; [exact H7|].
  exact (ai_handler_catches_up sample_config 6 d H1 H2 H3 H4 H5 H6 H7).
Defined.

(** ** The ball *)

Section BallTracking.

Variable cfg : config.

(** How the two paddle phases move the ball: not at all, or by the
    bounce. *)
Lemma count_hit_ball (keys : list Z) (d d' : game_data) :
  state_after fst (count_hit cfg keys d) = Some d' ->
  ball_x d' = ball_x d /\ ball_y d' = ball_y d
  /\ ball_dirx d' = ball_dirx d /\ ball_diry d' = ball_diry d.
Proof.
  intros Hst. pose proof (count_hit_cases cfg keys d) as Hc.
  destruct (count_hit cfg keys d) as [[d2 r]|d2| |d2|d2]; cbn in Hst;
    try contradiction; try discriminate; injection Hst as <-.
  - destruct Hc as [(_ & ->) | (_ & _ & ->)]; unfold levelled; fields; auto.
  - destruct Hc as (_ & ->). unfold levelled; fields. auto.
Qed.

Lemma bounce_ball (d : game_data) :
  ball_y (bounce d) = ball_y d /\ ball_diry (bounce d) = ball_diry d
  /\ paddle_col (bounce d) = paddle_col d.
Proof. unfold bounce. fields. auto. Qed.

Lemma player_pad_ball (keys : list Z) (d d' : game_data) :
  state_after fst (player_pad cfg keys d) = Some d' ->
  ball_y d' = ball_y d /\ ball_diry d' = ball_diry d
  /\ ((ball_x d = paddle_col d
       /\ ball_x d' = ball_x (bounce d) /\ ball_dirx d' = ball_dirx (bounce d))
      \/ (ball_x d' = ball_x d /\ ball_dirx d' = ball_dirx d)).
Proof.
  intros Hst.
  destruct (Z.eqb_spec (ball_x d) (paddle_col d)) as [Hcol | Hne].
  - destruct (on_pad cfg (paddle_pos d) d) eqn:Hhit.
    + destruct (player_pad_accepted_state cfg keys d d' Hcol Hhit Hst)
        as (d2 & Hc & Hd').
      destruct (count_hit_ball keys (bounce d) d2 Hc) as (E1 & E2 & E3 & E4).
      destruct (bounce_ball d) as (B1 & B2 & _).
      destruct Hd' as [-> | (-> & _)]; unfold round_over; fields;
        rewrite E2, E4, B1, B2;
        (split; [reflexivity|]); (split; [reflexivity|]); left; auto.
    + rewrite (player_pad_missed cfg keys d Hcol Hhit) in Hst.
      injection Hst as <-. unfold round_over; fields; auto.
  - rewrite (player_pad_away cfg keys d Hne) in Hst. injection Hst as <-.
    auto.
Qed.

Lemma ai_pad_ball (d d' : game_data) :
  state_after (fun x => x) (ai_pad cfg d) = Some d' ->
  ball_y d' = ball_y d /\ ball_diry d' = ball_diry d
  /\ ((ball_x d = ai_paddle_col d
       /\ ball_x d' = ball_x (bounce d) /\ ball_dirx d' = ball_dirx (bounce d))
      \/ (ball_x d' = ball_x d /\ ball_dirx d' = ball_dirx d)).
Proof.
  unfold ai_pad. destruct (Z.eqb_spec (ball_x d) (ai_paddle_col d));
    [destruct (on_pad cfg (ai_paddle_pos d) d)|]; cbn [state_after];
    intros Hst; injection Hst as <-; unfold round_over; fields;
    destruct (bounce_ball d) as (B1 & B2 & _);
    (split; [auto|]); (split; [auto|]); auto.
Qed.

Lemma unit_dir_flip (v : Z) : unit_dir v -> int_mul v (-1) = - v.
Proof.
  unfold unit_dir. intros [-> | ->]; reflexivity.
Qed.

(** The state before the paddle phases, for a unit vertical velocity. *)
Lemma before_pads_ball (d : game_data) :
  unit_dir (ball_diry d) -> coord (ball_y d) ->
  let d1 := reflect_walls cfg (move_ball d) in
  ball_x d1 = int_add (ball_x d) (ball_dirx d)
  /\ ball_dirx d1 = ball_dirx d
  /\ ((FIELD_TOP cfg <= ball_y d + ball_diry d <= bottom_row d
       /\ ball_y d1 = ball_y d + ball_diry d /\ ball_diry d1 = ball_diry d)
      \/ ((ball_y d + ball_diry d < FIELD_TOP cfg
           \/ bottom_row d < ball_y d + ball_diry d)
          /\ ball_y d1 = ball_y d - ball_diry d
          /\ ball_diry d1 = - ball_diry d)).
Proof.
  intros Hd Hy. cbv zeta.
  assert (Hm : int_add (ball_y d) (ball_diry d) = ball_y d + ball_diry d).
  { unfold coord, unit_dir in *. unwrap. reflexivity. }
  unfold reflect_walls, move_ball. fields. rewrite Hm.
  destruct (Z.ltb_spec (ball_y d + ball_diry d) (FIELD_TOP cfg));
    destruct (Z.gtb_spec (ball_y d + ball_diry d) (bottom_row d));
    cbn [orb]; fields; rewrite ?(unit_dir_flip _ Hd);
    (split; [reflexivity|]); (split; [reflexivity|]);
    try (left; repeat split; lia);
    right; (split; [lia|]); (split; [|reflexivity]);
    unfold coord, unit_dir in *; unwrap; lia.
Qed.

End BallTracking.

(** X13: both paddle tests of a ball iteration are decided on the row
    the ball was in before the step: whether or not the step bounced
    off the top or bottom, a paddle at [pos] is hit exactly when
    [|pos - ball_y| <= PADDLE_WIDTH/2] for the [ball_y] the iteration
    started with. *)
Theorem hit_decided_on_previous_row
  (cfg : config) (keys : list Z) (d : game_data) :
  unit_dir (ball_diry d) -> coord (ball_y d) ->
  coord (paddle_pos d) -> coord (ai_paddle_pos d) ->
  let d1 := reflect_walls cfg (move_ball d) in
  on_pad cfg (paddle_pos d1) d1
  = (Z.abs (paddle_pos d - ball_y d) <=? half_width cfg)
  /\ (forall d2 rest,
        player_pad cfg keys d1 = Next (d2, rest) ->
        on_pad cfg (ai_paddle_pos d2) d2
        = (Z.abs (ai_paddle_pos d - ball_y d) <=? half_width cfg)).
Proof.
  intros Hd Hy Hp Ha d1.
  assert (Hpos : forall pos y1 dy1,
             coord pos ->
             (y1 = ball_y d + ball_diry d /\ dy1 = ball_diry d)
             \/ (y1 = ball_y d - ball_diry d /\ dy1 = - ball_diry d) ->
             (int_abs (int_sub (int_sub pos y1) (int_neg dy1)) <=? half_width cfg)
             = (Z.abs (pos - ball_y d) <=? half_width cfg)).
  { intros pos y1 dy1 Hc Hcase. unfold coord, unit_dir in *.
    destruct Hcase as [(-> & ->) | (-> & ->)]; unwrap; f_equal; f_equal; lia. }
  destruct (before_pads_ball cfg d Hd Hy) as (_ & _ & Hrow).
  fold d1 in Hrow.
  pose proof (before_pads_leaves cfg d) as Hf. fold d1 in Hf.
  unfold ball_frame in Hf.
  destruct Hf as (_ & _ & _ & Fp & _ & Fa & _).
  assert (Hcase : (ball_y d1 = ball_y d + ball_diry d /\ ball_diry d1 = ball_diry d)
                  \/ (ball_y d1 = ball_y d - ball_diry d
                      /\ ball_diry d1 = - ball_diry d))
    by (destruct Hrow as [(_ & E1 & E2) | (_ & E1 & E2)]; auto).
  split.
  - unfold on_pad. rewrite Fp. apply Hpos; assumption.
  - intros d2 rest Hn.
    assert (Hst : state_after fst (player_pad cfg keys d1) = Some d2)
      by (rewrite Hn; reflexivity).
    destruct (player_pad_ball cfg keys d1 d2 Hst) as (E1 & E2 & _).
    pose proof (player_pad_leaves cfg keys d1 d2 Hst) as Hf2.
    unfold ball_frame in Hf2. destruct Hf2 as (_ & _ & _ & _ & _ & Fa2 & _).
    unfold on_pad. rewrite Fa2, Fa, E1, E2. apply Hpos; assumption.
Qed.

Lemma hit_decided_on_previous_row_witness :
  let d := set_ball_y 20 (set_paddle_pos 18 (set_ball_x 78 sample_game)) in
  let d1 := reflect_walls sample_config (move_ball d) in
  unit_dir (ball_diry d) /\ coord (ball_y d)
  /\ coord (paddle_pos d) /\ coord (ai_paddle_pos d)
  /\ ball_y d1 = 19
  /\ on_pad sample_config (paddle_pos d1) d1
     = (Z.abs (paddle_pos d - ball_y d) <=? half_width sample_config).
Proof.
  intros d d1.
  assert (H1 : unit_dir (ball_diry d)) by (left; reflexivity).
  assert (H2 : coord (ball_y d)) by by_eval.
  assert (H3 : coord (paddle_pos d)) by by_eval.
  assert (H4 : coord (ai_paddle_pos d)) by by_eval.
  split; [exact H1|]. split; [exact H2|]. split; [exact H3|].
  split; [exact H4|]. split; [reflexivity|].
  exact (proj1 (hit_decided_on_previous_row sample_config [] d H1 H2 H3 H4)).
Defined.

Section BallInvariants.

Variable cfg : config.

Lemma unit_dir_neg (v : Z) : unit_dir v -> unit_dir (int_mul v (-1)).
Proof. unfold unit_dir. intros [-> | ->]; [right | left]; reflexivity. Qed.

Lemma bounce_dirx (d : game_data) :
  ball_dirx (bounce d) = int_mul (ball_dirx d) (-1).
Proof. unfold bounce. fields. reflexivity. Qed.

(** Velocities through a ball iteration. *)
Lemma ball_iter_dirs (keys : list Z) (d d' : game_data) :
  state_after fst (ball_iter cfg keys d) = Some d' ->
  unit_dir (ball_dirx d) -> unit_dir (ball_diry d) ->
  unit_dir (ball_dirx d') /\ unit_dir (ball_diry d').
Proof.
  intros Hst Hx Hy. destruct (Z.eq_dec (haltFlag d) 0) as [Hh | Hh].
  - pose proof (ball_iter_ends cfg keys d Hh) as He. cbv zeta in He.
    assert (H1 : unit_dir (ball_dirx (reflect_walls cfg (move_ball d)))
                 /\ unit_dir (ball_diry (reflect_walls cfg (move_ball d)))).
    { unfold reflect_walls, move_ball. fields. case_if; fields;
        auto using unit_dir_neg. }
    remember (reflect_walls cfg (move_ball d)) as d1 eqn:E1. clear E1.
    destruct H1 as (Hx1 & Hy1).
    assert (Hplayer : forall d2, state_after fst (player_pad cfg keys d1) = Some d2 ->
                        unit_dir (ball_dirx d2) /\ unit_dir (ball_diry d2)).
    { intros d2 H2. destruct (player_pad_ball cfg keys d1 d2 H2) as (_ & Ey & Ex).
      rewrite Ey. split; [|exact Hy1].
      destruct Ex as [(_ & _ & ->) | (_ & ->)]; [|exact Hx1].
      rewrite bounce_dirx. apply unit_dir_neg, Hx1. }
    assert (Hai : forall d2 d3, unit_dir (ball_dirx d2) -> unit_dir (ball_diry d2) ->
                    state_after (fun x => x) (ai_pad cfg d2) = Some d3 ->
                    unit_dir (ball_dirx d3) /\ unit_dir (ball_diry d3)).
    { intros d2 d3 Hx2 Hy2 H3. destruct (ai_pad_ball cfg d2 d3 H3) as (_ & Ey & Ex).
      rewrite Ey. split; [|exact Hy2].
      destruct Ex as [(_ & _ & ->) | (_ & ->)]; [|exact Hx2].
      rewrite bounce_dirx. apply unit_dir_neg, Hx2. }
    destruct (ball_iter cfg keys d) as [[d0 r]|d0| |d0|d0]; cbn in Hst;
      try contradiction; try discriminate; injection Hst as ->.
    + destruct He as (d2 & d3 & Ep & Ea & ->).
      destruct (Hplayer d2) as (Hx2 & Hy2); [rewrite Ep; reflexivity|].
      destruct (Hai d2 d3 Hx2 Hy2) as (Hx3 & Hy3); [rewrite Ea; reflexivity|].
      fields. auto.
    + destruct He as [Ep | (d2 & r & Ep & Ea)].
      * apply Hplayer. rewrite Ep. reflexivity.
      * destruct (Hplayer d2) as (Hx2 & Hy2); [rewrite Ep; reflexivity|].
        apply (Hai d2 d' Hx2 Hy2). rewrite Ea. reflexivity.
    + apply Hplayer. rewrite He. reflexivity.
  - rewrite (ball_iter_halted cfg keys d Hh) in Hst. injection Hst as <-. auto.
Qed.

End BallInvariants.

(** X14: the velocity components of the ball, once 1 or -1, stay 1 or
    -1 whatever the workers do. *)
Theorem run_keeps_unit_velocity
  (cfg : config) (es : list event) (d d' : game_data) :
  unit_dir (ball_dirx d) -> unit_dir (ball_diry d) ->
  run cfg es d = Some d' ->
  unit_dir (ball_dirx d') /\ unit_dir (ball_diry d').
Proof.
  revert d. induction es as [|e es IH]; intros d Hx Hy Hrun; cbn [run] in Hrun.
  - injection Hrun as <-. auto.
  - destruct (step cfg e d) as [d1|] eqn:Hst; [|discriminate].
    assert (H1 : unit_dir (ball_dirx d1) /\ unit_dir (ball_diry d1)).
    { pose proof (step_leaves cfg e d d1 Hst) as Hf.
      destruct e as [i|keys| |sig my mx].
      - unfold keyboard_frame in Hf.
        destruct Hf as (_ & _ & _ & _ & _ & _ & _ & _ & _ & Ex & Ey & _).
        rewrite Ex, Ey. auto.
      - cbn [step] in Hst. exact (ball_iter_dirs cfg keys d d1 Hst Hx Hy).
      - unfold ai_frame in Hf.
        destruct Hf as (_ & _ & _ & _ & _ & _ & _ & _ & _ & Ex & Ey & _).
        rewrite Ex, Ey. auto.
      - unfold resize_frame in Hf.
        destruct Hf as (_ & _ & _ & _ & _ & _ & Ex & Ey & _).
        rewrite Ex, Ey. auto. }
    destruct H1 as (Hx1 & Hy1). exact (IH d1 Hx1 Hy1 Hrun).
Qed.

Lemma run_keeps_unit_velocity_witness :
  let d := set_ball_y 20 (set_ball_x 78 sample_game) in
  let es := [Ball []; Ai; Key (mkInput KEY_UP None); Ball []] in
  unit_dir (ball_dirx d) /\ unit_dir (ball_diry d)
  /\ exists d', run sample_config es d = Some d'
                /\ unit_dir (ball_dirx d') /\ unit_dir (ball_diry d').
Proof.
  intros d es.
  assert (H1 : unit_dir (ball_dirx d)) by (left; reflexivity).
  assert (H2 : unit_dir (ball_diry d)) by (left; reflexivity).
  split; [exact H1|]. split; [exact H2|].
  eexists. split; [vm_compute; reflexivity|].
  apply (run_keeps_unit_velocity sample_config es d _ H1 H2).
  vm_compute. reflexivity.
Defined.

Section BallField.

Variable cfg : config.

Lemma player_pad_next_ball (keys rest : list Z) (d d' : game_data) :
  player_pad cfg keys d = Next (d', rest) ->
  ball_y d' = ball_y d /\ ball_diry d' = ball_diry d
  /\ ((ball_x d = paddle_col d
       /\ ball_x d' = ball_x (bounce d) /\ ball_dirx d' = ball_dirx (bounce d))
      \/ (ball_x d <> paddle_col d
          /\ ball_x d' = ball_x d /\ ball_dirx d' = ball_dirx d)).
Proof.
  intros Hn.
  assert (Hst : state_after fst (player_pad cfg keys d) = Some d')
    by (rewrite Hn; reflexivity).
  destruct (player_pad_ball cfg keys d d' Hst) as (E1 & E2 & _).
  split; [exact E1|]. split; [exact E2|].
  destruct (Z.eqb_spec (ball_x d) (paddle_col d)) as [Hcol | Hne].
  - left. split; [exact Hcol|].
    destruct (on_pad cfg (paddle_pos d) d) eqn:Hhit.
    + pose proof (player_pad_accepted cfg keys d Hcol Hhit) as Hp.
      rewrite Hn in Hp. destruct Hp as (Hc & _).
      assert (Hs : state_after fst (count_hit cfg keys (bounce d)) = Some d')
        by (rewrite Hc; reflexivity).
      destruct (count_hit_ball cfg keys (bounce d) d' Hs) as (C1 & _ & C3 & _).
      auto.
    + rewrite (player_pad_missed cfg keys d Hcol Hhit) in Hn. discriminate.
  - right. rewrite (player_pad_away cfg keys d Hne) in Hn.
    injection Hn as <- _. auto.
Qed.

Lemma ai_pad_next_ball (d d' : game_data) :
  ai_pad cfg d = Next d' ->
  (ball_x d = ai_paddle_col d
   /\ ball_x d' = ball_x (bounce d) /\ ball_dirx d' = ball_dirx (bounce d))
  \/ (ball_x d <> ai_paddle_col d
      /\ ball_x d' = ball_x d /\ ball_dirx d' = ball_dirx d).
Proof.
  unfold ai_pad. destruct (Z.eqb_spec (ball_x d) (ai_paddle_col d));
    [destruct (on_pad cfg (ai_paddle_pos d) d)|]; intros Hn;
    try discriminate; injection Hn as <-; auto.
Qed.

Lemma bounce_x_unit (d : game_data) :
  unit_dir (ball_dirx d) -> in_int (ball_x d - 2 * ball_dirx d) ->
  ball_x (bounce d) = ball_x d - 2 * ball_dirx d
  /\ ball_dirx (bounce d) = - ball_dirx d.
Proof.
  intros Hd Hx. unfold bounce. fields. rewrite (unit_dir_flip _ Hd).
  split; [|reflexivity].
  unfold unit_dir in Hd. unfold int_add, int_mul.
  rewrite (wrap_small (2 * - ball_dirx d))
    by (unfold in_int, int_min, int_max; lia).
  replace (ball_x d + 2 * - ball_dirx d) with (ball_x d - 2 * ball_dirx d) by lia.
  apply wrap_small, Hx.
Qed.

(** One iteration that goes on keeps the ball inside the field. *)
Lemma ball_iter_inside (keys rest : list Z) (d d' : game_data) :
  coord (FIELD_TOP cfg) -> coord (bottom_row d) ->
  coord (ai_paddle_col d) -> coord (paddle_col d) ->
  FIELD_TOP cfg < bottom_row d -> ai_paddle_col d + 3 <= paddle_col d ->
  haltFlag d = 0 -> unit_dir (ball_dirx d) -> unit_dir (ball_diry d) ->
  FIELD_TOP cfg <= ball_y d <= bottom_row d ->
  ai_paddle_col d < ball_x d < paddle_col d ->
  ball_iter cfg keys d = Next (d', rest) ->
  FIELD_TOP cfg <= ball_y d' <= bottom_row d
  /\ ai_paddle_col d < ball_x d' < paddle_col d.
Proof.
  intros Ctop Cbot Ca Cp Hrows Hcols Hh Hdx Hdy Hy Hx Hn.
  pose proof (ball_iter_ends cfg keys d Hh) as He. cbv zeta in He.
  rewrite Hn in He. destruct He as (d2 & d3 & Ep & Ea & ->).
  assert (Cy : coord (ball_y d)) by (unfold coord in *; lia).
  destruct (before_pads_ball cfg d Hdy Cy) as (Ex1 & Edx1 & Hrow).
  pose proof (before_pads_leaves cfg d) as Hf. unfold ball_frame in Hf.
  destruct Hf as (_ & Fp & Fa & _).
  remember (reflect_walls cfg (move_ball d)) as d1 eqn:E1. clear E1.
  assert (Hx1 : ball_x d1 = ball_x d + ball_dirx d).
  { rewrite Ex1. unfold coord, unit_dir in *. unwrap. reflexivity. }
  destruct (player_pad_next_ball keys rest d1 d2 Ep) as (Ey2 & _ & Hpx).
  assert (Hst2 : state_after fst (player_pad cfg keys d1) = Some d2)
    by (rewrite Ep; reflexivity).
  pose proof (player_pad_leaves cfg keys d1 d2 Hst2) as Hf2.
  unfold ball_frame in Hf2. destruct Hf2 as (_ & Fp2 & Fa2 & _).
  assert (Hst3 : state_after (fun x => x) (ai_pad cfg d2) = Some d3)
    by (rewrite Ea; reflexivity).
  destruct (ai_pad_ball cfg d2 d3 Hst3) as (Ey3 & _ & _).
  fields. split.
  - rewrite Ey3, Ey2. unfold unit_dir in Hdy.
    destruct Hrow as [(Hin & -> & _) | (Hout & -> & _)]; lia.
  - assert (Hb1 : unit_dir (ball_dirx d1)) by (rewrite Edx1; exact Hdx).
    assert (H2 : ai_paddle_col d < ball_x d2 < paddle_col d
                 \/ (ball_x d2 = ai_paddle_col d /\ ball_dirx d2 = -1)).
    { destruct Hpx as [(Hc & -> & _) | (Hnc & -> & ->)].
      - destruct (bounce_x_unit d1 Hb1) as (Bx & _).
        { unfold coord, unit_dir, in_int, int_min, int_max in *. lia. }
        rewrite Bx, Edx1. rewrite Fp in Hc. unfold unit_dir in Hdx. lia.
      - rewrite Fp in Hnc. rewrite Edx1. unfold unit_dir in Hdx. lia. }
    destruct (ai_pad_next_ball d2 d3 Ea) as [(Hc & -> & _) | (Hnc & -> & _)].
    + rewrite Fa2, Fa in Hc.
      destruct H2 as [H2 | (_ & Hdir)]; [lia|].
      destruct (bounce_x_unit d2) as (Bx & _).
      { rewrite Hdir. right. reflexivity. }
      { rewrite Hdir. unfold coord, in_int, int_min, int_max in *. lia. }
      rewrite Bx, Hdir. lia.
    + rewrite Fa2, Fa in Hnc. destruct H2 as [H2 | (H2 & _)]; [exact H2 | lia].
Qed.

End BallField.

(** X15: while the round goes on the ball stays inside the field.  For
    a field of at least two rows and paddle columns at least three
    apart, if the ball starts inside ([FIELD_TOP <= ball_y <=
    bottom_row], strictly between the paddle columns) with unit
    velocity, then after any number of completed iterations of the ball
    loop it is still inside. *)
Theorem ball_stays_in_field
  (cfg : config) (n : nat) (keys rest : list Z) (d d' : game_data) :
  coord (FIELD_TOP cfg) -> coord (bottom_row d) ->
  coord (ai_paddle_col d) -> coord (paddle_col d) ->
  FIELD_TOP cfg < bottom_row d -> ai_paddle_col d + 3 <= paddle_col d ->
  haltFlag d = 0 -> unit_dir (ball_dirx d) -> unit_dir (ball_diry d) ->
  FIELD_TOP cfg <= ball_y d <= bottom_row d ->
  ai_paddle_col d < ball_x d < paddle_col d ->
  ball_loop cfg n keys d = Next (d', rest) ->
  FIELD_TOP cfg <= ball_y d' <= bottom_row d
  /\ ai_paddle_col d < ball_x d' < paddle_col d.
Proof.
  revert keys d.
  induction n as [|n IH];
    intros keys d Ctop Cbot Ca Cp Hrows Hcols Hh Hdx Hdy Hy Hx Hn;
    cbn [ball_loop] in Hn.
  - injection Hn as <- _. auto.
  - destruct (ball_iter cfg keys d) as [[d1 k1]|d1| |d1|d1] eqn:Hit;
      cbn [bind] in Hn; try discriminate.
    destruct (ball_iter_inside cfg keys k1 d d1 Ctop Cbot Ca Cp Hrows Hcols
                Hh Hdx Hdy Hy Hx Hit) as (Hy1 & Hx1).
    assert (Hst : state_after fst (ball_iter cfg keys d) = Some d1)
      by (rewrite Hit; reflexivity).
    destruct (ball_iter_dirs cfg keys d d1 Hst Hdx Hdy) as (Hdx1 & Hdy1).
    pose proof (ball_iter_leaves cfg keys d d1 Hst) as Hf.
    unfold ball_frame in Hf. destruct Hf as (Fb & Fp & Fa & _).
    pose proof (ball_iter_notifies cfg keys d Hh) as Hq. rewrite Hit in Hq.
    destruct Hq as (_ & _ & _ & Hh1).
    rewrite <- Fb, <- Fp, <- Fa in *.
    exact (IH k1 d1 Ctop Cbot Ca Cp Hrows Hcols Hh1 Hdx1 Hdy1 Hy1 Hx1 Hn).
Qed.

Lemma ball_stays_in_field_witness :
  let d := set_ball_x 76 sample_game in
  coord (FIELD_TOP sample_config) /\ coord (bottom_row d)
  /\ coord (ai_paddle_col d) /\ coord (paddle_col d)
  /\ FIELD_TOP sample_config < bottom_row d
  /\ ai_paddle_col d + 3 <= paddle_col d
  /\ haltFlag d = 0 /\ unit_dir (ball_dirx d) /\ unit_dir (ball_diry d)
  /\ FIELD_TOP sample_config <= ball_y d <= bottom_row d
  /\ ai_paddle_col d < ball_x d < paddle_col d
  /\ exists d', ball_loop sample_config 5 [] d = Next (d', [])
                /\ FIELD_TOP sample_config <= ball_y d' <= bottom_row d
                /\ ai_paddle_col d < ball_x d' < paddle_col d.
Proof.
  intros d.
  assert (H1 : coord (FIELD_TOP sample_config)) by by_eval.
  assert (H2 : coord (bottom_row d)) by by_eval.
  assert (H3 : coord (ai_paddle_col d)) by by_eval.
  assert (H4 : coord (paddle_col d)) by by_eval.
  assert (H5 : FIELD_TOP sample_config < bottom_row d) by by_eval.
  assert (H6 : ai_paddle_col d + 3 <= paddle_col d) by by_eval.
  assert (H7 : haltFlag d = 0) by reflexivity.
  assert (H8 : unit_dir (ball_dirx d)) by (left; reflexivity).
  assert (H9 : unit_dir (ball_diry d)) by (left; reflexivity).
  assert (H10 : FIELD_TOP sample_config <= ball_y d <= bottom_row d) by by_eval.
  assert (H11 : ai_paddle_col d < ball_x d < paddle_col d) by by_eval.
  split; [exact H1|]. split; [exact H2|]. split; [exact H3|].
  split; [exact H4|]. split; [exact H5|]. split; [exact H6|].
  split; [exact H7|]. split; [exact H8|]. split; [exact H9|].
  split; [exact H10|]. split; [exact H11|].
  eexists. split; [vm_compute; reflexivity|].
  apply (ball_stays_in_field sample_config 5 [] [] d _
           H1 H2 H3 H4 H5 H6 H7 H8 H9 H10 H11).
  vm_compute. reflexivity.
Defined.

Section Counters.

Variable cfg : config.
Hypothesis hit_max : 0 <= MAX_HITCNT cfg < int_max.
Hypothesis level_max : 0 <= MAX_LEVEL cfg < int_max.






End Counters.



(** ** The level pause *)

(** X17: the level pause discards the keys it reads up to the first one
    that is the quit key or a space (as a [char]).  With no such key it
    is left waiting with [haltFlag] raised; a quit key ends the
    process, also when it is a space as well; a space ends the pause
    and leaves the keys after it unread. *)
Theorem level_pause_reads_to_space
  (cfg : config) (pre : list Z) (k : Z) (rest : list Z) (d : game_data) :
  Forall (fun x => to_char x <> QUIT_KEY cfg /\ to_char x <> SPACE) pre ->
  level_pause cfg pre d = Blocked (set_haltFlag 1 d)
  /\ (to_char k = QUIT_KEY cfg ->
      level_pause cfg (pre ++ k :: rest) d = Exited)
  /\ (to_char k <> QUIT_KEY cfg -> to_char k = SPACE ->
      level_pause cfg (pre ++ k :: rest) d = Next (set_haltFlag 1 d, rest)).
Proof.
  intros Hpre. revert d.
  induction Hpre as [|x pre (Hq & Hs) Hpre IH]; intros d.
  - cbn [level_pause app]. split; [reflexivity|]. split.
    + intros Hk. rewrite (proj2 (Z.eqb_eq _ _) Hk). reflexivity.
    + intros Hk Hsp. rewrite (proj2 (Z.eqb_neq _ _) Hk).
      rewrite (proj2 (Z.eqb_eq _ _) Hsp). reflexivity.
  - cbn [level_pause app].
    rewrite (proj2 (Z.eqb_neq _ _) Hq), (proj2 (Z.eqb_neq _ _) Hs).
    cbn [negb]. destruct (IH (set_haltFlag 1 d)) as (I1 & I2 & I3).
    split; [|split].
    + rewrite I1. reflexivity.
    + intros Hk. exact (I2 Hk).
    + intros Hk Hsp. rewrite (I3 Hk Hsp). reflexivity.
Qed.

Lemma level_pause_reads_to_space_witness :
  let pre := [KEY_UP; 97; KEY_DOWN] in
  Forall (fun x => to_char x <> QUIT_KEY sample_config /\ to_char x <> SPACE) pre
  /\ to_char SPACE <> QUIT_KEY sample_config /\ to_char SPACE = SPACE
  /\ level_pause sample_config (pre ++ SPACE :: [KEY_UP]) sample_game
     = Next (set_haltFlag 1 sample_game, [KEY_UP]).
Proof.
  intros pre.
  assert (H1 : Forall (fun x => to_char x <> QUIT_KEY sample_config
                                /\ to_char x <> SPACE) pre)
    by (repeat constructor; discriminate).
  assert (H2 : to_char SPACE <> QUIT_KEY sample_config) by discriminate.
  assert (H3 : to_char SPACE = SPACE) by reflexivity.
  split; [exact H1|]. split; [exact H2|]. split; [exact H3|].
  exact (proj2 (proj2 (level_pause_reads_to_space sample_config pre SPACE
                         [KEY_UP] sample_game H1)) H2 H3).
Defined.

(** X18: the pause looks at the key code through a [char]: two key
    codes that differ by a multiple of 256 are treated alike.  So the
    function key with code 288 ends the pause like a space. *)
Theorem level_pause_key_as_char
  (cfg : config) (k m : Z) (rest : list Z) (d : game_data) :
  level_pause cfg (k + 256 * m :: rest) d = level_pause cfg (k :: rest) d
  /\ (QUIT_KEY cfg <> SPACE ->
      level_pause cfg (288 :: rest) d = Next (set_haltFlag 1 d, rest)).
Proof.
  assert (Hc : to_char (k + 256 * m) = to_char k).
  { unfold to_char. f_equal.
    replace (k + 256 * m + 2 ^ 7) with (k + 2 ^ 7 + m * 2 ^ 8) by lia.
    apply Z_mod_plus_full. }
  split.
  - cbn [level_pause]. rewrite Hc. reflexivity.
  - intros Hq. cbn [level_pause].
    change (to_char 288) with SPACE.
    destruct (Z.eqb_spec SPACE (QUIT_KEY cfg)) as [E | _];
      [exfalso; apply Hq; symmetry; exact E|].
    reflexivity.
Qed.

Lemma level_pause_key_as_char_witness :
  QUIT_KEY sample_config <> SPACE
  /\ level_pause sample_config (288 :: [KEY_UP]) sample_game
     = Next (set_haltFlag 1 sample_game, [KEY_UP]).
Proof.
  assert (H : QUIT_KEY sample_config <> SPACE) by discriminate.
  split; [exact H|].
  exact (proj2 (level_pause_key_as_char sample_config 0 0 [KEY_UP] sample_game) H).
Defined.

(** ** Drawing *)

Section DrawingFacts.

Variable cfg : config.

(** The cells the paddle loop addresses do not depend on the colour. *)
Lemma paddle_loop_cells_colour
  (fuel : nat) (i row c1 c2 : Z) (col col' : option colour) :
  map cell (paddle_loop cfg fuel i row c1 c2 col)
  = map cell (paddle_loop cfg fuel i row c1 c2 col').
Proof.
  revert i. induction fuel as [|fuel IH]; intros i; cbn [paddle_loop].
  - reflexivity.
  - destruct (i <? PADDLE_WIDTH cfg); [|reflexivity].
    cbn [map cell paint_row paint_col]. rewrite (IH (int_add i 1)).
    reflexivity.
Qed.

(** The loop, started at [i] with the iterations that are left, paints
    the two columns in the rows [row + i], ..., [row + PADDLE_WIDTH - 1]. *)
Lemma paddle_loop_cells
  (fuel : nat) (i row c1 c2 : Z) (col : option colour) (r c : Z) :
  0 <= i -> i + Z.of_nat fuel = PADDLE_WIDTH cfg ->
  PADDLE_WIDTH cfg < 2 ^ 30 -> in_int row /\ in_int (row + PADDLE_WIDTH cfg) ->
  In (r, c) (map cell (paddle_loop cfg fuel i row c1 c2 col))
  <-> (row + i <= r < row + PADDLE_WIDTH cfg) /\ (c = c1 \/ c = c2).
Proof.
  revert i. induction fuel as [|fuel IH]; intros i Hi Hsum Hw Hrow;
    cbn [paddle_loop].
  - cbn [map In]. split; [contradiction | lia].
  - destruct (Z.ltb_spec i (PADDLE_WIDTH cfg)); [|lia].
    cbn [map cell paint_row paint_col In].
    assert (E1 : int_add row i = row + i)
      by (destruct Hrow; unwrap; reflexivity).
    assert (E2 : int_add i 1 = i + 1) by (unwrap; reflexivity).
    rewrite E1, E2. rewrite (IH (i + 1)) by (assumption || lia).
    split.
    + intros [H1 | [H1 | (H1 & H2)]];
        [injection H1 as <- <- | injection H1 as <- <- |]; split; auto; lia.
    + intros (H1 & H2).
      destruct (Z.eq_dec r (row + i)) as [-> | Hne].
      * destruct H2 as [-> | ->]; auto.
      * right. right. split; [lia | exact H2].
Qed.

Lemma paddle_loop_length
  (fuel : nat) (i row c1 c2 : Z) (col : option colour) :
  0 <= i -> i + Z.of_nat fuel = PADDLE_WIDTH cfg -> PADDLE_WIDTH cfg < 2 ^ 30 ->
  length (paddle_loop cfg fuel i row c1 c2 col) = (2 * fuel)%nat.
Proof.
  revert i. induction fuel as [|fuel IH]; intros i Hi Hsum Hw;
    cbn [paddle_loop].
  - reflexivity.
  - destruct (Z.ltb_spec i (PADDLE_WIDTH cfg)); [|lia].
    cbn [length].
    assert (E2 : int_add i 1 = i + 1) by (unwrap; reflexivity).
    rewrite E2, (IH (i + 1)) by lia. lia.
Qed.

Lemma before_pads_olds (d : game_data) :
  ball_x_old (reflect_walls cfg (move_ball d)) = ball_x d
  /\ ball_y_old (reflect_walls cfg (move_ball d)) = ball_y d.
Proof.
  unfold reflect_walls, move_ball. fields. case_if; fields; auto.
Qed.

Lemma player_pad_next_olds (keys rest : list Z) (d d' : game_data) :
  player_pad cfg keys d = Next (d', rest) ->
  ball_x_old d' = ball_x_old d /\ ball_y_old d' = ball_y_old d.
Proof.
  intros Hn.
  destruct (Z.eqb_spec (ball_x d) (paddle_col d)) as [Hcol | Hne].
  - destruct (on_pad cfg (paddle_pos d) d) eqn:Hhit.
    + pose proof (player_pad_accepted cfg keys d Hcol Hhit) as Hp.
      rewrite Hn in Hp. destruct Hp as (Hc & _).
      pose proof (count_hit_cases cfg keys (bounce d)) as Hcc.
      rewrite Hc in Hcc.
      destruct Hcc as [(_ & ->) | (_ & _ & ->)]; unfold levelled, bounce;
        fields; auto.
    + rewrite (player_pad_missed cfg keys d Hcol Hhit) in Hn. discriminate.
  - rewrite (player_pad_away cfg keys d Hne) in Hn.
    injection Hn as <- _. auto.
Qed.

Lemma ai_pad_next_olds (d d' : game_data) :
  ai_pad cfg d = Next d' ->
  ball_x_old d' = ball_x_old d /\ ball_y_old d' = ball_y_old d.
Proof.
  unfold ai_pad. repeat case_if; intros Hn; try discriminate;
    injection Hn as <-; unfold bounce; fields; auto.
Qed.

Lemma ball_iter_next_olds (keys rest : list Z) (d d' : game_data) :
  ball_iter cfg keys d = Next (d', rest) ->
  ball_x_old d' = ball_x d /\ ball_y_old d' = ball_y d.
Proof.
  intros Hn. destruct (Z.eq_dec (haltFlag d) 0) as [Hh | Hh].
  - pose proof (ball_iter_ends cfg keys d Hh) as He. cbv zeta in He.
    rewrite Hn in He. destruct He as (d2 & d3 & Ep & Ea & ->).
    destruct (before_pads_olds d) as (B1 & B2).
    destruct (player_pad_next_olds keys rest _ d2 Ep) as (P1 & P2).
    destruct (ai_pad_next_olds d2 d3 Ea) as (A1 & A2).
    fields. split; congruence.
  - rewrite (ball_iter_halted cfg keys d Hh) in Hn. discriminate.
Qed.

Lemma pipe_not_extended (l : list tag) (t : tag) : l <> l ++ [t].
Proof.
  intros H. apply (f_equal (@length tag)) in H.
  rewrite length_app in H. cbn in H. lia.
Qed.

End DrawingFacts.

(** X19: what the controller erases on a tag is what was painted
    before the iteration that wrote the tag.  If a keyboard iteration
    wrote [KBD_TAG], [delete_paddle] for the player addresses in the
    new state exactly the cells that [draw_paddle] addressed in the old
    one; likewise for an AI iteration that wrote [AI_TAG] and the AI
    paddle; and if a ball iteration wrote [BALL_TAG], [delete_ball]
    addresses the cell [draw_ball] addressed before. *)
Theorem erase_matches_draw (cfg : config) (e : event) (d d' : game_data) :
  step cfg e d = Some d' ->
  match e with
  | Key _ =>
      pipe d' = pipe d ++ [KBD_TAG] ->
      map cell (delete_paddle cfg d' KBD_TAG) = map cell (draw_paddle cfg d KBD_TAG)
  | Ai =>
      pipe d' = pipe d ++ [AI_TAG] ->
      map cell (delete_paddle cfg d' AI_TAG) = map cell (draw_paddle cfg d AI_TAG)
  | Ball _ =>
      pipe d' = pipe d ++ [BALL_TAG] ->
      map cell (delete_ball d') = map cell (draw_ball d)
  | Signal _ _ _ => True
  end.
Proof.
  intros Hst. pose proof (step_leaves cfg e d d' Hst) as Hf.
  destruct e as [i|keys| |sig my mx]; [| | |exact I]; intros Hpipe.
  - assert (Hold : paddle_pos_old d' = paddle_pos d).
    { cbn [step] in Hst. unfold keyboard_iter in Hst.
      destruct (termination_flag d =? 0); [destruct (haltFlag d =? 0)|];
        cbn [negb state_after] in Hst; injection Hst as <-;
        try (exfalso; exact (pipe_not_extended _ _ Hpipe)).
      revert Hpipe. unfold dispatch_key. cbv zeta.
      repeat (case_if; fields); try destruct (in_pointer i); fields;
        intros Hpipe; try reflexivity;
        try (exfalso; exact (pipe_not_extended _ _ Hpipe)).
      all: apply app_inv_head in Hpipe; discriminate Hpipe. }
    unfold keyboard_frame in Hf. destruct Hf as (_ & Fc & _).
    unfold delete_paddle, draw_paddle. cbn [is_player].
    rewrite Hold, Fc. apply paddle_loop_cells_colour.
  - cbn [step] in Hst.
    destruct (ball_iter cfg keys d) as [[d1 r]|d1| |d1|d1] eqn:Hit;
      cbn in Hst; try discriminate; injection Hst as ->.
    + destruct (ball_iter_next_olds cfg keys r d d' Hit) as (E1 & E2).
      unfold delete_ball, draw_ball. cbn [map cell paint_row paint_col].
      rewrite E1, E2. reflexivity.
    + destruct (Z.eq_dec (haltFlag d) 0) as [Hh | Hh].
      * pose proof (ball_iter_notifies cfg keys d Hh) as Hn.
        rewrite Hit in Hn. destruct Hn as (Hq & _). rewrite Hq in Hpipe.
        apply app_inv_head in Hpipe. discriminate Hpipe.
      * rewrite (ball_iter_halted cfg keys d Hh) in Hit. discriminate.
    + destruct (Z.eq_dec (haltFlag d) 0) as [Hh | Hh].
      * pose proof (ball_iter_notifies cfg keys d Hh) as Hn.
        rewrite Hit in Hn. destruct Hn as (Hq & _). rewrite Hq in Hpipe.
        exfalso. exact (pipe_not_extended _ _ Hpipe).
      * rewrite (ball_iter_halted cfg keys d Hh) in Hit. discriminate.
    + destruct (Z.eq_dec (haltFlag d) 0) as [Hh | Hh].
      * pose proof (ball_iter_notifies cfg keys d Hh) as Hn.
        rewrite Hit in Hn. contradiction.
      * rewrite (ball_iter_halted cfg keys d Hh) in Hit.
        injection Hit as <-. exfalso. exact (pipe_not_extended _ _ Hpipe).
  - assert (Hold : ai_paddle_pos_old d' = ai_paddle_pos d).
    { cbn [step] in Hst. unfold ai_iter in Hst.
      destruct (termination_flag d =? 0); [destruct (haltFlag d =? 0)|];
        cbn [negb state_after] in Hst; injection Hst as <-;
        try (exfalso; exact (pipe_not_extended _ _ Hpipe)).
      apply ai_move_fields. }
    unfold ai_frame in Hf. destruct Hf as (_ & _ & Fc & _).
    unfold delete_paddle, draw_paddle. cbn [is_player].
    rewrite Hold, Fc. apply paddle_loop_cells_colour.
Qed.

Lemma erase_matches_draw_witness :
  let e := Key (mkInput KEY_UP None) in
  let d' := dispatch_key sample_config (mkInput KEY_UP None) sample_game in
  step sample_config e sample_game = Some d'
  /\ pipe d' = pipe sample_game ++ [KBD_TAG]
  /\ map cell (delete_paddle sample_config d' KBD_TAG)
     = map cell (draw_paddle sample_config sample_game KBD_TAG).
Proof.
  intros e d'.
  assert (H1 : step sample_config e sample_game = Some d') by reflexivity.
  assert (H2 : pipe d' = pipe sample_game ++ [KBD_TAG]) by reflexivity.
  split; [exact H1|]. split; [exact H2|].
  exact (erase_matches_draw sample_config e sample_game d' H1 H2).
Defined.

(** X20: [draw_paddle] paints [PADDLE_WIDTH] rows of two cells each:
    the rows from [pos - PADDLE_WIDTH/2] on, in the paddle column and
    the column next to it on the field side, [pos] being the position
    of the paddle drawn. *)
Theorem draw_paddle_cells (cfg : config) (d : game_data) (t : tag) (r c : Z) :
  0 <= PADDLE_WIDTH cfg < 2 ^ 30 ->
  coord (if is_player t then paddle_pos d else ai_paddle_pos d) ->
  let pos := if is_player t then paddle_pos d else ai_paddle_pos d in
  let c1 := if is_player t then paddle_col d else ai_paddle_col d in
  let c2 := if is_player t then int_sub (paddle_col d) 1
            else int_add (ai_paddle_col d) 1 in
  (In (r, c) (map cell (draw_paddle cfg d t))
   <-> (pos - half_width cfg <= r < pos - half_width cfg + PADDLE_WIDTH cfg)
       /\ (c = c1 \/ c = c2))
  /\ length (draw_paddle cfg d t) = (2 * Z.to_nat (PADDLE_WIDTH cfg))%nat.
Proof.
  intros Hw Hpos pos c1 c2. fold pos in Hpos.
  assert (Hhalf : 0 <= half_width cfg <= PADDLE_WIDTH cfg)
    by (unfold half_width; lia).
  assert (Hrow : int_sub pos (half_width cfg) = pos - half_width cfg).
  { unfold coord in Hpos. unwrap. reflexivity. }
  unfold draw_paddle. cbv zeta. fold pos c1 c2. rewrite Hrow. split.
  - rewrite paddle_loop_cells; [lia | lia | lia | lia |].
    unfold coord, in_int, int_min, int_max in *. lia.
  - apply paddle_loop_length; lia.
Qed.

Lemma draw_paddle_cells_witness :
  0 <= PADDLE_WIDTH sample_config < 2 ^ 30
  /\ coord (paddle_pos sample_game)
  /\ (In (12, 78) (map cell (draw_paddle sample_config sample_game KBD_TAG))
      <-> (10 - 2 <= 12 < 10 - 2 + 5) /\ (78 = 79 \/ 78 = int_sub 79 1))
  /\ length (draw_paddle sample_config sample_game KBD_TAG) = 10%nat.
Proof.
  assert (H1 : 0 <= PADDLE_WIDTH sample_config < 2 ^ 30) by by_eval.
  assert (H2 : coord (paddle_pos sample_game)) by by_eval.
  split; [exact H1|]. split; [exact H2|].
  exact (draw_paddle_cells sample_config sample_game KBD_TAG 12 78 H1 H2).
Defined.

(** The paddle tests of a ball iteration in terms of the row the ball
    started the iteration in. *)
Lemma on_pad_previous_row (cfg : config) (pos : Z) (d : game_data) :
  unit_dir (ball_diry d) -> coord (ball_y d) -> coord pos ->
  on_pad cfg pos (reflect_walls cfg (move_ball d))
  = (Z.abs (pos - ball_y d) <=? half_width cfg).
Proof.
  intros Hd Hy Hp.
  destruct (before_pads_ball cfg d Hd Hy) as (_ & _ & Hrow).
  unfold on_pad. unfold coord, unit_dir in *.
  destruct Hrow as [(_ & -> & ->) | (_ & -> & ->)]; unwrap; f_equal; f_equal;
    lia.
Qed.

(** X21: the player's paddle hits the ball where it is painted.  The
    hit of a ball iteration is accepted exactly when the row in which
    the ball started the iteration is one of the rows [draw_paddle]
    paints for the player, or, for an even [PADDLE_WIDTH], the row just
    below them. *)
Theorem hit_where_painted (cfg : config) (d : game_data) :
  0 <= PADDLE_WIDTH cfg < 2 ^ 30 ->
  unit_dir (ball_diry d) -> coord (ball_y d) -> coord (paddle_pos d) ->
  let d1 := reflect_walls cfg (move_ball d) in
  on_pad cfg (paddle_pos d1) d1 = true
  <-> In (ball_y d, paddle_col d) (map cell (draw_paddle cfg d KBD_TAG))
      \/ (PADDLE_WIDTH cfg = 2 * half_width cfg
          /\ ball_y d = paddle_pos d + half_width cfg).
Proof.
  intros Hw Hd Hy Hp d1.
  pose proof (before_pads_leaves cfg d) as Hf. fold d1 in Hf.
  unfold ball_frame in Hf. destruct Hf as (_ & _ & _ & Fp & _).
  rewrite Fp. unfold d1. rewrite (on_pad_previous_row cfg _ d Hd Hy Hp).
  rewrite Z.leb_le.
  assert (Hhalf : PADDLE_WIDTH cfg = 2 * half_width cfg
                  \/ PADDLE_WIDTH cfg = 2 * half_width cfg + 1)
    by (unfold half_width; lia).
  assert (Hrow : int_sub (paddle_pos d) (half_width cfg)
                 = paddle_pos d - half_width cfg).
  { unfold coord in Hp. unfold half_width in *. unwrap. reflexivity. }
  unfold draw_paddle. cbn [is_player]. rewrite Hrow.
  rewrite paddle_loop_cells; [ | lia | lia | lia | ].
  - split.
    + intros Habs. destruct Hhalf as [He | Ho].
      * destruct (Z.eq_dec (ball_y d) (paddle_pos d + half_width cfg));
          [right; auto | left; split; [lia | auto]].
      * left. split; [lia | auto].
    + intros [((H1 & H2) & _) | (He & Hb)]; lia.
  - unfold coord, in_int, int_min, int_max, half_width in *. lia.
Qed.

Lemma hit_where_painted_witness :
  let d := set_ball_y 12 (set_ball_x 78 sample_game) in
  let d1 := reflect_walls sample_config (move_ball d) in
  0 <= PADDLE_WIDTH sample_config < 2 ^ 30
  /\ unit_dir (ball_diry d) /\ coord (ball_y d) /\ coord (paddle_pos d)
  /\ on_pad sample_config (paddle_pos d1) d1 = true
  /\ (In (ball_y d, paddle_col d)
         (map cell (draw_paddle sample_config d KBD_TAG))
      \/ (PADDLE_WIDTH sample_config = 2 * half_width sample_config
          /\ ball_y d = paddle_pos d + half_width sample_config)).
Proof.
  intros d d1.
  assert (H1 : 0 <= PADDLE_WIDTH sample_config < 2 ^ 30) by by_eval.
  assert (H2 : unit_dir (ball_diry d)) by (left; reflexivity).
  assert (H3 : coord (ball_y d)) by by_eval.
  assert (H4 : coord (paddle_pos d)) by by_eval.
  assert (H5 : on_pad sample_config (paddle_pos d1) d1 = true) by reflexivity.
  split; [exact H1|]. split; [exact H2|]. split; [exact H3|].
  split; [exact H4|]. split; [exact H5|].
  exact (proj1 (hit_where_painted sample_config d H1 H2 H3 H4) H5).
Defined.

(** ** The level banner *)

Lemma decimal_nonempty (fuel : nat) (n : Z) :
  (1 <= length (decimal (S fuel) n))%nat.
Proof.
  cbn [decimal]. destruct (n <? 10); [cbn; lia|].
  rewrite length_app. cbn [length]. lia.
Qed.

Lemma format_d_nonempty (n : Z) : (1 <= length (format_d n))%nat.
Proof.
  unfold format_d. destruct (n <? 0); [cbn [length]; lia|].
  apply decimal_nonempty.
Qed.

Lemma format_d_two_digits (n : Z) : 10 <= n -> (2 <= length (format_d n))%nat.
Proof.
  intros Hn. unfold format_d.
  destruct (Z.ltb_spec n 0); [lia|].
  change (decimal 10 n) with
    (if n <? 10 then [ascii_of_nat (48 + Z.to_nat n)]
     else decimal 9 (n / 10) ++ [ascii_of_nat (48 + Z.to_nat (n mod 10))]).
  destruct (Z.ltb_spec n 10); [lia|].
  rewrite length_app. pose proof (decimal_nonempty 8 (n / 10)). cbn [length]. lia.
Qed.

(** X22: the level banner has room for one character of the level
    number.  Whatever the level, [print_level] writes at row 0, column
    41, the 38 characters of the message followed by the first
    character only of the number, and the key hint at row 1, column 44:
    the number is shown in full for the levels 0 to 9, and from level
    10 on its digits after the first are cut off. *)
Theorem print_level_shows_one_digit (level : Z) :
  exists c : ascii,
    firstn 1 (format_d level) = [c]
    /\ print_level level
       = [mkText 0 41
            (list_ascii_of_string "Congratulation you have cleared level "
             ++ [c]) (Some TITLE_COLOR);
          mkText 1 44
            (list_ascii_of_string "press space to restart, q to quit")
            (Some TITLE_COLOR)]
    /\ (0 <= level <= 9 -> format_d level = [c])
    /\ (10 <= level -> (2 <= length (format_d level))%nat).
Proof.
  pose proof (format_d_nonempty level) as Hne.
  destruct (format_d level) as [|c digits] eqn:Ef; [cbn in Hne; lia|].
  exists c. split; [reflexivity|]. split; [|split].
  - unfold print_level, snprintf, level_format. rewrite Ef. reflexivity.
  - intros Hl.
    assert (Hcases : level = 0 \/ level = 1 \/ level = 2 \/ level = 3
                     \/ level = 4 \/ level = 5 \/ level = 6 \/ level = 7
                     \/ level = 8 \/ level = 9) by lia.
    repeat (destruct Hcases as [-> | Hcases]);
      try (cbv in Ef; injection Ef as <- <-; reflexivity).
    subst level. cbv in Ef. injection Ef as <- <-. reflexivity.
  - intros Hl. rewrite <- Ef. apply format_d_two_digits, Hl.
Qed.

Lemma print_level_shows_one_digit_witness :
  10 <= 12
  /\ (2 <= length (format_d 12))%nat
  /\ print_level 12
     = [mkText 0 41
          (list_ascii_of_string "Congratulation you have cleared level 1")
          (Some TITLE_COLOR);
        mkText 1 44
          (list_ascii_of_string "press space to restart, q to quit")
          (Some TITLE_COLOR)].
Proof.
  assert (H : 10 <= 12) by lia.
  split; [exact H|].
  destruct (print_level_shows_one_digit 12) as (c & _ & _ & _ & H2).
  split; [exact (H2 H) | reflexivity].
Defined.

(** ** The keyboard loop *)

(** X23: the keyboard loop handles every event it is given, in order,
    and then waits for the next one: no key makes it return, since no
    key changes [termination_flag] or [haltFlag].  Entered with
    [termination_flag] set it returns at once and handles nothing. *)
Theorem keyboard_handler_handles_all
  (cfg : config) (inputs : list input) (d : game_data) :
  (termination_flag d = 0 -> haltFlag d = 0 ->
   keyboard_handler cfg inputs d
   = Blocked (fold_left (fun s i => dispatch_key cfg i s) inputs d))
  /\ (termination_flag d <> 0 -> keyboard_handler cfg inputs d = Returned d).
Proof.
  split.
  - revert d. induction inputs as [|i rest IH]; intros d Ht Hh;
      cbn [keyboard_handler fold_left].
    + rewrite Ht. reflexivity.
    + unfold keyboard_iter. rewrite Ht, Hh. cbn [Z.eqb negb bind].
      pose proof (dispatch_key_leaves cfg i d) as Hf. unfold keyboard_frame in Hf.
      destruct Hf as (_ & _ & _ & _ & _ & _ & _ & _ & _ & _ & _ & _ & _
                      & Ft & Fh & _).
      apply IH; congruence.
  - intros Ht. destruct inputs as [|i rest]; cbn [keyboard_handler].
    + destruct (Z.eqb_spec (termination_flag d) 0); [contradiction|reflexivity].
    + unfold keyboard_iter.
      destruct (Z.eqb_spec (termination_flag d) 0); [contradiction|reflexivity].
Qed.

Lemma keyboard_handler_handles_all_witness :
  let inputs := [mkInput KEY_UP None; mkInput 113 None; mkInput KEY_DOWN None] in
  termination_flag sample_game = 0 /\ haltFlag sample_game = 0
  /\ keyboard_handler sample_config inputs sample_game
     = Blocked (fold_left (fun s i => dispatch_key sample_config i s)
                  inputs sample_game).
Proof.
  intros inputs.
  assert (H1 : termination_flag sample_game = 0) by reflexivity.
  assert (H2 : haltFlag sample_game = 0) by reflexivity.
  split; [exact H1|]. split; [exact H2|].
  exact (proj1 (keyboard_handler_handles_all sample_config inputs sample_game)
           H1 H2).
Defined.
